(** * iiSU asset tool: transform handles, gesture deltas and the layer model

    A shallow embedding of [custom_image_tab.py]:
    - [TransformHandlesOverlay]: handle geometry, hit testing and the
      conversion of a pointer drag into scale / rotation / position deltas;
    - [CustomImageTab]: the per-layer transform state and the slots that
      apply and clamp the deltas;
    - [InteractiveImageView]: the wheel, the arrow keys and the event
      filter that forwards mouse events to the overlay;
    - the controls of the tab and the signals they are connected to;
    - the integer geometry of the preview and export compositing paths
      and the handle box computed from the same transforms.

    Python floats are read as real numbers, with two exceptions:
    [Float64] replays the position slot and the sizing of the logo on
    IEEE-754 binary64 values, and the logo geometry of [Render] and the
    move drag of [Rounded] keep the rounding of every float operation
    explicit (see [Rounding]): the first truncates the results to pixel
    counts, the second adds up rounded deltas.  A Python exception is the [None] of an
    [option] result, or a [Render.raised] outcome where two exceptions
    have to be told apart. *)

From Stdlib Require Import Reals Lra Lia ZArith List Bool.
From Stdlib Require PrimFloat FloatOps SpecFloat FloatAxioms Uint63.
Import ListNotations.
Local Open Scope R_scope.

(** ** Python built-ins on numbers *)

Module Py.

Definition ltb (a b : R) : bool := if Rlt_dec a b then true else false.
Definition leb (a b : R) : bool := if Rle_dec a b then true else false.
Definition gtb (a b : R) : bool := ltb b a.
Definition eqb (a b : R) : bool := if Req_dec_T a b then true else false.

(** [min(a, b)]: the first argument stays unless the second is smaller. *)
Definition min (a b : R) : R := if ltb b a then b else a.

(** [max(a, b)]: the first argument stays unless the second is larger. *)
Definition max (a b : R) : R := if gtb b a then b else a.

(** [a / b] raises [ZeroDivisionError] when [b] is zero. *)
Definition div (a b : R) : option R :=
  if eqb b 0 then None else Some (a / b).

(** [int(r)] truncates toward zero. *)
Definition int (r : R) : Z :=
  if leb 0 r then Int_part r else (- Int_part (- r))%Z.

(** [math.degrees]. *)
Definition degrees (a : R) : R := a * 180 / PI.

(** [math.atan2(y, x)], by quadrant. *)
Definition atan2 (y x : R) : R :=
  if ltb 0 x then atan (y / x)
  else if ltb x 0 then (if leb 0 y then atan (y / x) + PI else atan (y / x) - PI)
  else if ltb 0 y then PI / 2
  else if ltb y 0 then - (PI / 2)
  else 0.

End Py.

(** ** Qt value types: [QPointF], [QRectF], [QTransform] *)

Module Qt.

Record QPointF : Type := mkPoint { x : R; y : R }.

(** [QRectF(x, y, w, h)]. *)
Record QRectF : Type := mkRect { left : R; top : R; width : R; height : R }.

Definition isEmpty (r : QRectF) : bool :=
  Py.leb (width r) 0 || Py.leb (height r) 0.

Definition center (r : QRectF) : QPointF :=
  mkPoint (left r + width r / 2) (top r + height r / 2).
Definition topLeft (r : QRectF) : QPointF := mkPoint (left r) (top r).
Definition topRight (r : QRectF) : QPointF := mkPoint (left r + width r) (top r).
Definition bottomLeft (r : QRectF) : QPointF := mkPoint (left r) (top r + height r).
Definition bottomRight (r : QRectF) : QPointF :=
  mkPoint (left r + width r) (top r + height r).

(** [QRectF::contains(QPointF)]: edges included, a null rectangle holds
    no point, negative extents are normalised. *)
Definition contains (r : QRectF) (p : QPointF) : bool :=
  let l := if Py.ltb (width r) 0 then left r + width r else left r in
  let rr := if Py.ltb (width r) 0 then left r else left r + width r in
  let t := if Py.ltb (height r) 0 then top r + height r else top r in
  let b := if Py.ltb (height r) 0 then top r else top r + height r in
  if Py.eqb l rr then false
  else if Py.ltb (x p) l || Py.ltb rr (x p) then false
  else if Py.eqb t b then false
  else if Py.ltb (y p) t || Py.ltb b (y p) then false
  else true.

(** An affine [QTransform]: a point maps to
    [(m11*x + m21*y + dx, m12*x + m22*y + dy)]. *)
Record QTransform : Type := mkTransform {
  m11 : R; m12 : R; m21 : R; m22 : R; dx : R; dy : R
}.

Definition identity : QTransform := mkTransform 1 0 0 1 0 0.

(** [translate] and [rotate] change the coordinate system: they compose
    before the matrix already held. *)
Definition translate (tx ty : R) (m : QTransform) : QTransform :=
  mkTransform (m11 m) (m12 m) (m21 m) (m22 m)
    (dx m + tx * m11 m + ty * m21 m) (dy m + ty * m22 m + tx * m12 m).

Definition rotate (a : R) (m : QTransform) : QTransform :=
  let sina := sin (a * PI / 180) in
  let cosa := cos (a * PI / 180) in
  mkTransform (cosa * m11 m + sina * m21 m) (cosa * m12 m + sina * m22 m)
              (- sina * m11 m + cosa * m21 m) (- sina * m12 m + cosa * m22 m)
              (dx m) (dy m).

Definition map (m : QTransform) (p : QPointF) : QPointF :=
  mkPoint (m11 m * x p + m21 m * y p + dx m) (m12 m * x p + m22 m * y p + dy m).

(** The transform both [get_handle_positions] and
    [_point_in_rotated_bounds] build: translate to the centre, rotate,
    translate back. *)
Definition about (c : QPointF) (a : R) : QTransform :=
  translate (- x c) (- y c) (rotate a (translate (x c) (y c) identity)).

End Qt.

(** ** [TransformHandlesOverlay]: handles, hit testing, drag deltas *)

Module Overlay.
Import Qt.

Inductive Handle : Type :=
| HANDLE_NONE | HANDLE_TL | HANDLE_TR | HANDLE_BL | HANDLE_BR
| HANDLE_T | HANDLE_B | HANDLE_L | HANDLE_R | HANDLE_ROTATE | HANDLE_MOVE.

Definition Handle_eq_dec (a b : Handle) : {a = b} + {a <> b}.
Proof. decide equality. Defined.

Definition handle_eqb (a b : Handle) : bool :=
  if Handle_eq_dec a b then true else false.

(** The signals of the overlay, with their payloads. *)
Inductive Signal : Type :=
| scale_changed (scale_x scale_y : R)
| rotation_changed (angle_delta : R)
| position_changed (delta_x delta_y : R)
| transform_started
| transform_finished.

(** Handle visual properties, fixed in [__init__]. *)
Definition handle_size : R := 16.
Definition rotation_handle_distance : R := 35.
Definition rotation_handle_size : R := 18.

(** The attributes the methods below read and write; [widget_width] and
    [widget_height] stand for [self.width()] and [self.height()]. *)
Record TransformHandlesOverlay : Type := mkOverlay {
  bounds : QRectF;
  rotation : R;
  handles_visible : bool;
  hovered_handle : Handle;
  active_handle : Handle;
  drag_start_pos : QPointF;
  drag_start_bounds : QRectF;
  drag_start_rotation : R;
  lock_aspect_ratio : bool;
  widget_width : Z;
  widget_height : Z
}.

Definition set_hovered_handle (self : TransformHandlesOverlay) (h : Handle) :=
  mkOverlay (bounds self) (rotation self) (handles_visible self) h
    (active_handle self) (drag_start_pos self) (drag_start_bounds self)
    (drag_start_rotation self) (lock_aspect_ratio self)
    (widget_width self) (widget_height self).

Definition set_active_handle (self : TransformHandlesOverlay) (h : Handle) :=
  mkOverlay (bounds self) (rotation self) (handles_visible self)
    (hovered_handle self) h (drag_start_pos self) (drag_start_bounds self)
    (drag_start_rotation self) (lock_aspect_ratio self)
    (widget_width self) (widget_height self).

Definition set_drag_start_pos (self : TransformHandlesOverlay) (p : QPointF) :=
  mkOverlay (bounds self) (rotation self) (handles_visible self)
    (hovered_handle self) (active_handle self) p (drag_start_bounds self)
    (drag_start_rotation self) (lock_aspect_ratio self)
    (widget_width self) (widget_height self).

Definition set_lock_aspect_ratio (self : TransformHandlesOverlay) (locked : bool) :=
  mkOverlay (bounds self) (rotation self) (handles_visible self)
    (hovered_handle self) (active_handle self) (drag_start_pos self)
    (drag_start_bounds self) (drag_start_rotation self) locked
    (widget_width self) (widget_height self).

Definition set_bounds (self : TransformHandlesOverlay) (b : QRectF) :=
  mkOverlay b (rotation self) (handles_visible self) (hovered_handle self)
    (active_handle self) (drag_start_pos self) (drag_start_bounds self)
    (drag_start_rotation self) (lock_aspect_ratio self)
    (widget_width self) (widget_height self).

Definition set_rotation (self : TransformHandlesOverlay) (r : R) :=
  mkOverlay (bounds self) r (handles_visible self) (hovered_handle self)
    (active_handle self) (drag_start_pos self) (drag_start_bounds self)
    (drag_start_rotation self) (lock_aspect_ratio self)
    (widget_width self) (widget_height self).

Definition set_handles_visible (self : TransformHandlesOverlay) (visible : bool) :=
  mkOverlay (bounds self) (rotation self) visible (hovered_handle self)
    (active_handle self) (drag_start_pos self) (drag_start_bounds self)
    (drag_start_rotation self) (lock_aspect_ratio self)
    (widget_width self) (widget_height self).

(** What [mousePressEvent] records when a handle is hit. *)
Definition begin_drag (self : TransformHandlesOverlay) (hit : Handle) (pos : QPointF) :=
  mkOverlay (bounds self) (rotation self) (handles_visible self)
    (hovered_handle self) hit pos (bounds self) (rotation self)
    (lock_aspect_ratio self) (widget_width self) (widget_height self).

(** The dict of handle positions, in insertion order. *)
Fixpoint lookup (h : Handle) (positions : list (Handle * QPointF)) : option QPointF :=
  match positions with
  | [] => None
  | (k, v) :: rest => if handle_eqb h k then Some v else lookup h rest
  end.

Definition get_handle_positions (self : TransformHandlesOverlay)
  : list (Handle * QPointF) :=
  if isEmpty (bounds self) then []
  else
    let center := Qt.center (bounds self) in
    let tl := topLeft (bounds self) in
    let tr := topRight (bounds self) in
    let bl := bottomLeft (bounds self) in
    let br := bottomRight (bounds self) in
    let t := mkPoint ((x tl + x tr) / 2) (y tl) in
    let b := mkPoint ((x bl + x br) / 2) (y bl) in
    let l := mkPoint (x tl) ((y tl + y bl) / 2) in
    let r := mkPoint (x tr) ((y tr + y br) / 2) in
    let rotate_pos := mkPoint (x t) (y t - rotation_handle_distance) in
    let positions :=
      [ (HANDLE_TL, tl); (HANDLE_TR, tr); (HANDLE_BL, bl); (HANDLE_BR, br);
        (HANDLE_T, t); (HANDLE_B, b); (HANDLE_L, l); (HANDLE_R, r);
        (HANDLE_ROTATE, rotate_pos) ] in
    if negb (Py.eqb (rotation self) 0) then
      let transform := about center (rotation self) in
      List.map (fun kv => (fst kv, Qt.map transform (snd kv))) positions
    else positions.

Definition _point_in_handle (point handle_center : QPointF) (size : R) : bool :=
  let half_size := size / 2 + 4 in
  Py.leb (Rabs (x point - x handle_center)) half_size
  && Py.leb (Rabs (y point - y handle_center)) half_size.

Definition _point_in_rotated_bounds (self : TransformHandlesOverlay)
  (point : QPointF) : bool :=
  if isEmpty (bounds self) then false
  else
    let center := Qt.center (bounds self) in
    let transform := about center (- rotation self) in
    let unrotated_point := Qt.map transform point in
    contains (bounds self) unrotated_point.

(** [for handle_type in handles: if handle_type in positions: if
    self._point_in_handle(...): return handle_type]. *)
Fixpoint first_hit (positions : list (Handle * QPointF)) (pos : QPointF)
  (size : R) (handles : list Handle) : option Handle :=
  match handles with
  | [] => None
  | handle_type :: rest =>
      match lookup handle_type positions with
      | Some c =>
          if _point_in_handle pos c size then Some handle_type
          else first_hit positions pos size rest
      | None => first_hit positions pos size rest
      end
  end.

Definition hit_test (self : TransformHandlesOverlay) (pos : QPointF) : Handle :=
  if negb (handles_visible self) || isEmpty (bounds self) then HANDLE_NONE
  else
    let positions := get_handle_positions self in
    match first_hit positions pos rotation_handle_size [HANDLE_ROTATE] with
    | Some h => h
    | None =>
    match first_hit positions pos handle_size
            [HANDLE_TL; HANDLE_TR; HANDLE_BL; HANDLE_BR] with
    | Some h => h
    | None =>
    match first_hit positions pos handle_size
            [HANDLE_T; HANDLE_B; HANDLE_L; HANDLE_R] with
    | Some h => h
    | None =>
        if _point_in_rotated_bounds self pos then HANDLE_MOVE else HANDLE_NONE
    end end end.

(** Corner drag.  [None] is a raised [ZeroDivisionError]; the list holds
    the signals emitted. *)
Definition _handle_corner_scale (self : TransformHandlesOverlay)
  (current_pos : QPointF) : option (list Signal) :=
  let fixed :=
    match active_handle self with
    | HANDLE_TL => bottomRight (drag_start_bounds self)
    | HANDLE_TR => bottomLeft (drag_start_bounds self)
    | HANDLE_BL => topRight (drag_start_bounds self)
    | _ => topLeft (drag_start_bounds self)
    end in
  let original_dist :=
    sqrt ((x (drag_start_pos self) - x fixed) ^ 2
          + (y (drag_start_pos self) - y fixed) ^ 2) in
  let current_dist :=
    sqrt ((x current_pos - x fixed) ^ 2 + (y current_pos - y fixed) ^ 2) in
  if Py.ltb 0 original_dist then
    match Py.div current_dist original_dist with
    | Some scale_factor => Some [scale_changed scale_factor scale_factor]
    | None => None
    end
  else Some [].

(** Edge drag. *)
Definition _handle_edge_scale (self : TransformHandlesOverlay)
  (current_pos : QPointF) : option (list Signal) :=
  let center := Qt.center (drag_start_bounds self) in
  match active_handle self with
  | HANDLE_L | HANDLE_R =>
      let original_half_width := width (drag_start_bounds self) / 2 in
      let new_half_width :=
        match active_handle self with
        | HANDLE_R => x current_pos - x center
        | _ => x center - x current_pos
        end in
      if Py.ltb 0 original_half_width && Py.ltb 0 new_half_width then
        match Py.div new_half_width original_half_width with
        | Some scale_x =>
            if lock_aspect_ratio self then Some [scale_changed scale_x scale_x]
            else Some [scale_changed scale_x 1]
        | None => None
        end
      else Some []
  | _ =>
      let original_half_height := height (drag_start_bounds self) / 2 in
      let new_half_height :=
        match active_handle self with
        | HANDLE_B => y current_pos - y center
        | _ => y center - y current_pos
        end in
      if Py.ltb 0 original_half_height && Py.ltb 0 new_half_height then
        match Py.div new_half_height original_half_height with
        | Some scale_y =>
            if lock_aspect_ratio self then Some [scale_changed scale_y scale_y]
            else Some [scale_changed 1 scale_y]
        | None => None
        end
      else Some []
  end.

(** [_handle_drag]: the overlay after the event and the signals emitted. *)
Definition _handle_drag (self : TransformHandlesOverlay) (current_pos : QPointF)
  : option (TransformHandlesOverlay * list Signal) :=
  let delta :=
    mkPoint (x current_pos - x (drag_start_pos self))
            (y current_pos - y (drag_start_pos self)) in
  let center := Qt.center (drag_start_bounds self) in
  match active_handle self with
  | HANDLE_ROTATE =>
      let start_angle :=
        Py.atan2 (y (drag_start_pos self) - y center)
                 (x (drag_start_pos self) - x center) in
      let current_angle :=
        Py.atan2 (y current_pos - y center) (x current_pos - x center) in
      let angle_delta := Py.degrees (current_angle - start_angle) in
      Some (self, [rotation_changed angle_delta])
  | HANDLE_MOVE =>
      let widget_size := Z.min (widget_width self) (widget_height self) in
      if (0 <? widget_size)%Z then
        match Py.div (x delta) (IZR widget_size),
              Py.div (y delta) (IZR widget_size) with
        | Some norm_dx, Some norm_dy =>
            Some (set_drag_start_pos self current_pos,
                  [position_changed (- norm_dx) (- norm_dy)])
        | _, _ => None
        end
      else Some (self, [])
  | HANDLE_TL | HANDLE_TR | HANDLE_BL | HANDLE_BR =>
      match _handle_corner_scale self current_pos with
      | Some emitted => Some (self, emitted)
      | None => None
      end
  | HANDLE_T | HANDLE_B | HANDLE_L | HANDLE_R =>
      match _handle_edge_scale self current_pos with
      | Some emitted => Some (self, emitted)
      | None => None
      end
  | HANDLE_NONE => Some (self, [])
  end.

Definition mousePressEvent (self : TransformHandlesOverlay) (left_button : bool)
  (pos : QPointF) : TransformHandlesOverlay * list Signal :=
  if left_button then
    let hit := hit_test self pos in
    if negb (handle_eqb hit HANDLE_NONE) then
      (begin_drag self hit pos, [transform_started])
    else (self, [])
  else (self, []).

Definition mouseMoveEvent (self : TransformHandlesOverlay) (pos : QPointF)
  : option (TransformHandlesOverlay * list Signal) :=
  if negb (handle_eqb (active_handle self) HANDLE_NONE) then _handle_drag self pos
  else
    let hit := hit_test self pos in
    if negb (handle_eqb hit (hovered_handle self)) then
      Some (set_hovered_handle self hit, [])
    else Some (self, []).

Definition mouseReleaseEvent (self : TransformHandlesOverlay) (left_button : bool)
  : TransformHandlesOverlay * list Signal :=
  if left_button && negb (handle_eqb (active_handle self) HANDLE_NONE) then
    (set_active_handle self HANDLE_NONE, [transform_finished])
  else (self, []).

End Overlay.

(** ** [CustomImageTab]: layer transforms and the slots that change them *)

Module Tab.

(** [self.active_layer]: ['background'] or ['logo']. *)
Inductive Layer : Type := background | logo.

(** The attributes of the tab that the slots read and write.  An image
    is kept by its size only; the background is the 1024 x 1024 canvas
    built on upload. *)
Record CustomImageTab : Type := mkTab {
  background_image : option (Z * Z);
  logo_image : option (Z * Z);
  rotation : R;
  zoom : R;
  offset_x : R;
  offset_y : R;
  logo_scale : R;
  logo_offset_x : R;
  logo_offset_y : R;
  logo_opacity : R;
  active_layer : Layer;
  transform_start_zoom : R;
  transform_start_rotation : R;
  transform_start_logo_scale : R
}.

(** The values [__init__] assigns. *)
Definition init : CustomImageTab :=
  mkTab None None 0 1 (1/2) (1/2) (1/2) (1/2) (1/2) 1 background 1 0 (1/2).

Definition preview_size : Z := 512.

Definition set_rotation (self : CustomImageTab) (v : R) :=
  mkTab (background_image self) (logo_image self) v (zoom self)
    (offset_x self) (offset_y self) (logo_scale self) (logo_offset_x self)
    (logo_offset_y self) (logo_opacity self) (active_layer self)
    (transform_start_zoom self) (transform_start_rotation self)
    (transform_start_logo_scale self).

Definition set_zoom (self : CustomImageTab) (v : R) :=
  mkTab (background_image self) (logo_image self) (rotation self) v
    (offset_x self) (offset_y self) (logo_scale self) (logo_offset_x self)
    (logo_offset_y self) (logo_opacity self) (active_layer self)
    (transform_start_zoom self) (transform_start_rotation self)
    (transform_start_logo_scale self).

Definition set_offset (self : CustomImageTab) (vx vy : R) :=
  mkTab (background_image self) (logo_image self) (rotation self) (zoom self)
    vx vy (logo_scale self) (logo_offset_x self)
    (logo_offset_y self) (logo_opacity self) (active_layer self)
    (transform_start_zoom self) (transform_start_rotation self)
    (transform_start_logo_scale self).

Definition set_logo_scale (self : CustomImageTab) (v : R) :=
  mkTab (background_image self) (logo_image self) (rotation self) (zoom self)
    (offset_x self) (offset_y self) v (logo_offset_x self)
    (logo_offset_y self) (logo_opacity self) (active_layer self)
    (transform_start_zoom self) (transform_start_rotation self)
    (transform_start_logo_scale self).

Definition set_logo_offset (self : CustomImageTab) (vx vy : R) :=
  mkTab (background_image self) (logo_image self) (rotation self) (zoom self)
    (offset_x self) (offset_y self) (logo_scale self) vx vy
    (logo_opacity self) (active_layer self)
    (transform_start_zoom self) (transform_start_rotation self)
    (transform_start_logo_scale self).

Definition set_logo_opacity (self : CustomImageTab) (v : R) :=
  mkTab (background_image self) (logo_image self) (rotation self) (zoom self)
    (offset_x self) (offset_y self) (logo_scale self) (logo_offset_x self)
    (logo_offset_y self) v (active_layer self)
    (transform_start_zoom self) (transform_start_rotation self)
    (transform_start_logo_scale self).

Definition set_active_layer (self : CustomImageTab) (layer : Layer) :=
  mkTab (background_image self) (logo_image self) (rotation self) (zoom self)
    (offset_x self) (offset_y self) (logo_scale self) (logo_offset_x self)
    (logo_offset_y self) (logo_opacity self) layer
    (transform_start_zoom self) (transform_start_rotation self)
    (transform_start_logo_scale self).

Definition set_images (self : CustomImageTab) (bg lg : option (Z * Z)) :=
  mkTab bg lg (rotation self) (zoom self)
    (offset_x self) (offset_y self) (logo_scale self) (logo_offset_x self)
    (logo_offset_y self) (logo_opacity self) (active_layer self)
    (transform_start_zoom self) (transform_start_rotation self)
    (transform_start_logo_scale self).

Definition _select_layer (self : CustomImageTab) (layer : Layer) :=
  set_active_layer self layer.

Definition _on_transform_started (self : CustomImageTab) : CustomImageTab :=
  mkTab (background_image self) (logo_image self) (rotation self) (zoom self)
    (offset_x self) (offset_y self) (logo_scale self) (logo_offset_x self)
    (logo_offset_y self) (logo_opacity self) (active_layer self)
    (zoom self) (rotation self) (logo_scale self).

Definition _on_handle_scale (self : CustomImageTab) (scale_x scale_y : R)
  : CustomImageTab :=
  match active_layer self with
  | background =>
      let new_zoom := transform_start_zoom self * scale_x in
      let new_zoom := Py.max (1/10) (Py.min 10 new_zoom) in
      set_zoom self new_zoom
  | logo =>
      let new_scale := transform_start_logo_scale self * scale_x in
      let new_scale := Py.max (5/100) (Py.min 2 new_scale) in
      set_logo_scale self new_scale
  end.

(** [while new_rotation > 180: new_rotation -= 360]; [None] when the
    fuel runs out before the loop ends. *)
Fixpoint while_above (fuel : nat) (new_rotation : R) : option R :=
  if Py.gtb new_rotation 180 then
    match fuel with
    | O => None
    | S fuel' => while_above fuel' (new_rotation - 360)
    end
  else Some new_rotation.

(** [while new_rotation < -180: new_rotation += 360]. *)
Fixpoint while_below (fuel : nat) (new_rotation : R) : option R :=
  if Py.ltb new_rotation (-180) then
    match fuel with
    | O => None
    | S fuel' => while_below fuel' (new_rotation + 360)
    end
  else Some new_rotation.

(** The two loops of [_on_handle_rotation], one after the other. *)
Definition normalize (fuel : nat) (new_rotation : R) : option R :=
  match while_above fuel new_rotation with
  | Some r => while_below fuel r
  | None => None
  end.

Definition _on_handle_rotation (fuel : nat) (self : CustomImageTab)
  (angle_delta : R) : option CustomImageTab :=
  match active_layer self with
  | background =>
      let new_rotation := transform_start_rotation self + angle_delta in
      match normalize fuel new_rotation with
      | Some new_rotation => Some (set_rotation self new_rotation)
      | None => None
      end
  | logo => Some self
  end.

Definition _on_handle_position (self : CustomImageTab) (delta_x delta_y : R)
  : CustomImageTab :=
  match active_layer self with
  | background =>
      let delta_x' := if Py.ltb (zoom self) 1 then - delta_x else delta_x in
      let delta_y' := if Py.ltb (zoom self) 1 then - delta_y else delta_y in
      set_offset self
        (Py.max 0 (Py.min 1 (offset_x self + delta_x')))
        (Py.max 0 (Py.min 1 (offset_y self + delta_y')))
  | logo =>
      set_logo_offset self
        (Py.max 0 (Py.min 1 (logo_offset_x self - delta_x)))
        (Py.max 0 (Py.min 1 (logo_offset_y self - delta_y)))
  end.

Definition _on_wheel_zoom (self : CustomImageTab) (zoom_delta : R)
  : CustomImageTab :=
  match active_layer self with
  | background =>
      let new_zoom := zoom self + zoom_delta in
      let new_zoom := Py.max (1/10) (Py.min 10 new_zoom) in
      set_zoom self new_zoom
  | logo =>
      let new_scale := logo_scale self + zoom_delta in
      let new_scale := Py.max (5/100) (Py.min 2 new_scale) in
      set_logo_scale self new_scale
  end.

Definition _on_logo_opacity_changed (self : CustomImageTab) (value : Z)
  : CustomImageTab :=
  set_logo_opacity self (IZR value / 100).

Definition _on_scale_spinbox_changed (self : CustomImageTab) (value : R)
  : CustomImageTab :=
  match active_layer self with
  | background => set_zoom self (value / 100)
  | logo => set_logo_scale self (value / 100)
  end.

(** [self.scale_spinbox.setRange(1, 1000)]: the values the spinbox can
    hand to [_on_scale_spinbox_changed]. *)
Definition scale_spinbox_value (value : R) : Prop := 1 <= value <= 1000.

Definition _reset_background_adjustments (self : CustomImageTab) : CustomImageTab :=
  set_offset (set_zoom (set_rotation self 0) 1) (1/2) (1/2).

Definition _reset_logo_adjustments (self : CustomImageTab) : CustomImageTab :=
  set_logo_opacity (set_logo_offset (set_logo_scale self (1/2)) (1/2) (1/2)) 1.

Definition _reset_current_layer (self : CustomImageTab) : CustomImageTab :=
  match active_layer self with
  | background => _reset_background_adjustments self
  | logo => _reset_logo_adjustments self
  end.

Definition _reset_adjustments (self : CustomImageTab) : CustomImageTab :=
  _reset_logo_adjustments (_reset_background_adjustments self).

(** [_update_handle_bounds]: the bounds, rotation and visibility handed
    to the overlay for a viewport of [view_w] x [view_h]; [None] is a
    raised [ZeroDivisionError]. *)
Definition _update_handle_bounds (self : CustomImageTab) (view_w view_h : Z)
  (ov : Overlay.TransformHandlesOverlay) : option Overlay.TransformHandlesOverlay :=
  if (view_w <=? 0)%Z || (view_h <=? 0)%Z then Some ov
  else
    let preview_size := IZR (Z.min view_w view_h) in
    let margin_x := (IZR view_w - preview_size) / 2 in
    let margin_y := (IZR view_h - preview_size) / 2 in
    match active_layer self, background_image self, logo_image self with
    | background, Some _, _ =>
        let bounds_size := preview_size * zoom self in
        let center_x := IZR view_w / 2 in
        let center_y := IZR view_h / 2 in
        let offset_shift_x := (offset_x self - 1/2) * (bounds_size - preview_size) in
        let offset_shift_y := (offset_y self - 1/2) * (bounds_size - preview_size) in
        let bounds :=
          Qt.mkRect (center_x - bounds_size / 2 - offset_shift_x)
                    (center_y - bounds_size / 2 - offset_shift_y)
                    bounds_size bounds_size in
        Some (Overlay.set_handles_visible
                (Overlay.set_rotation (Overlay.set_bounds ov bounds) (rotation self))
                true)
    | logo, _, Some (logo_w, logo_h) =>
        let max_logo_dim := preview_size * logo_scale self in
        match Py.div max_logo_dim (IZR logo_w), Py.div max_logo_dim (IZR logo_h) with
        | Some rw, Some rh =>
            let scale_ratio := Py.min rw rh in
            let scaled_w := IZR logo_w * scale_ratio in
            let scaled_h := IZR logo_h * scale_ratio in
            let max_x := preview_size - scaled_w in
            let max_y := preview_size - scaled_h in
            let pos_x := margin_x + max_x * logo_offset_x self in
            let pos_y := margin_y + max_y * logo_offset_y self in
            let bounds := Qt.mkRect pos_x pos_y scaled_w scaled_h in
            Some (Overlay.set_handles_visible
                    (Overlay.set_rotation (Overlay.set_bounds ov bounds) 0) true)
        | _, _ => None
        end
    | _, _, _ => Some (Overlay.set_handles_visible ov false)
    end.

End Tab.

(** ** Binary64 rounding, where a result depends on it *)

Module Rounding.

(** Every float operation of Python returns the exact result rounded to
    the nearest binary64 value.  The logo geometry truncates such
    results to integers, so a last-place error can move a pixel count,
    and a move drag adds up deltas that are rounded one by one; there
    the rounding is kept explicit as a function [fl] on the reals, of
    which only the standard facts below are used.  Round-to-nearest
    on binary64 has them for every result of magnitude up to [limit]
    (the range without overflow): a relative error of at most [u], or,
    for results in the subnormal range, an absolute error of at most
    [eta]; monotonicity; integers up to 2^53 are exact. *)
Definition u : R := / 2 ^ 53.
Definition eta : R := / 2 ^ 1075.
Definition limit : R := 2 ^ 1023.

Record binary64_like (fl : R -> R) : Prop := mk_binary64_like {
  fl_error : forall x, Rabs x <= limit -> Rabs (fl x - x) <= u * Rabs x + eta;
  fl_mono : forall x y, Rabs x <= limit -> Rabs y <= limit -> x <= y -> fl x <= fl y;
  fl_int : forall n : Z, (Z.abs n <= 2 ^ 53)%Z -> fl (IZR n) = IZR n
}.

(** Arithmetic without rounding, the reading of floats used elsewhere. *)
Definition exact (x : R) : R := x.

(** [a / b] on two ints (true division) or two floats. *)
Definition div (fl : R -> R) (a b : R) : option R :=
  if Py.eqb b 0 then None else Some (fl (a / b)).

End Rounding.

(** ** Where the layers land on the canvas: preview and export *)

Module Render.

(** A layer on the canvas: the size it is resampled to and the position
    it is pasted at.  The pixels themselves (PIL's [rotate], [resize],
    [paste], [alpha_composite]) are not modelled. *)
Record Placement : Type := mkPlacement {
  size_w : Z; size_h : Z; paste_x : Z; paste_y : Z
}.

(** [_apply_transformations], on sizes.  [rotated angle size] stands for
    the size of [img.rotate(angle, expand=True)]. *)
Definition _apply_transformations (rotated : R -> Z * Z -> Z * Z)
  (self : Tab.CustomImageTab) (size : Z * Z) : Z * Z :=
  let size :=
    if negb (Py.eqb (Tab.rotation self) 0)
    then rotated (- Tab.rotation self) size else size in
  if negb (Py.eqb (Tab.zoom self) 1) then
    (Py.int (IZR (fst size) * Tab.zoom self), Py.int (IZR (snd size) * Tab.zoom self))
  else size.

(** Layer 1 of [_do_update_preview]. *)
Definition preview_background (rotated : R -> Z * Z -> Z * Z)
  (self : Tab.CustomImageTab) : option Placement :=
  match Tab.background_image self with
  | None => None
  | Some size =>
      let transformed_bg := _apply_transformations rotated self size in
      let scale_factor := IZR Tab.preview_size / 1024 in
      let transformed_bg :=
        if negb (Py.eqb scale_factor 1) then
          (Py.int (IZR (fst transformed_bg) * scale_factor),
           Py.int (IZR (snd transformed_bg) * scale_factor))
        else transformed_bg in
      let img_w := fst transformed_bg in
      let img_h := snd transformed_bg in
      Some (mkPlacement img_w img_h
              (- Py.int (IZR (img_w - Tab.preview_size) * Tab.offset_x self))
              (- Py.int (IZR (img_h - Tab.preview_size) * Tab.offset_y self)))
  end.

(** Layer 1 of [_export_image]. *)
Definition export_background (rotated : R -> Z * Z -> Z * Z)
  (self : Tab.CustomImageTab) : option Placement :=
  match Tab.background_image self with
  | None => None
  | Some size =>
      let transformed_bg := _apply_transformations rotated self size in
      let img_w := fst transformed_bg in
      let img_h := snd transformed_bg in
      Some (mkPlacement img_w img_h
              (- Py.int (IZR (img_w - 1024) * Tab.offset_x self))
              (- Py.int (IZR (img_h - 1024) * Tab.offset_y self)))
  end.

(** What [_composite_logo_on_canvas] can raise. *)
Inductive Raised : Type := ZeroDivisionError | ValueError.

(** It returns the canvas, untouched ([composited None]) or with the
    logo pasted by the given placement, or it raises. *)
Inductive Outcome : Type :=
| raised (e : Raised)
| composited (logo : option Placement).

(** [Image.resize((w, h), resample)], on sizes: PIL raises [ValueError]
    ("height and width must be > 0") unless both sides are at least 1. *)
Definition resize (size : Z * Z) : option (Z * Z) :=
  if ((1 <=? fst size) && (1 <=? snd size))%Z then Some size else None.

(** [_composite_logo_on_canvas], every float operation followed by the
    rounding [fl].  The opacity only rewrites the alpha band of the
    resized logo and has no part in the placement. *)
Definition _composite_logo_on_canvas (fl : R -> R) (self : Tab.CustomImageTab)
  (canvas_size : Z) : Outcome :=
  match Tab.logo_image self with
  | None => composited None
  | Some (logo_w, logo_h) =>
      let max_logo_size := Py.int (fl (IZR canvas_size * Tab.logo_scale self)) in
      match Rounding.div fl (IZR max_logo_size) (IZR logo_w),
            Rounding.div fl (IZR max_logo_size) (IZR logo_h) with
      | Some rw, Some rh =>
          let scale_ratio := Py.min rw rh in
          let new_logo_w := Py.int (fl (IZR logo_w * scale_ratio)) in
          let new_logo_h := Py.int (fl (IZR logo_h * scale_ratio)) in
          match resize (new_logo_w, new_logo_h) with
          | Some (scaled_w, scaled_h) =>
              let max_x := (canvas_size - new_logo_w)%Z in
              let max_y := (canvas_size - new_logo_h)%Z in
              let paste_x := Py.int (fl (IZR max_x * Tab.logo_offset_x self)) in
              let paste_y := Py.int (fl (IZR max_y * Tab.logo_offset_y self)) in
              composited (Some (mkPlacement scaled_w scaled_h paste_x paste_y))
          | None => raised ValueError
          end
      | _, _ => raised ZeroDivisionError
      end
  end.

End Render.

(** ** The overlay's signals wired to the tab's slots *)

Module App.

(** [scale_changed], [rotation_changed] and [position_changed] reach
    [_on_handle_scale], [_on_handle_rotation] and [_on_handle_position];
    [transform_started] reaches [_on_transform_started];
    [transform_finished] has no slot in the tab.  The refresh of the
    view that ends each slot (labels, preview image, handle bounds)
    writes none of the transform attributes and is left out here;
    [Tab._update_handle_bounds] gives the bounds it hands to the
    overlay.  [fuel] bounds the loops of [_on_handle_rotation]. *)
Definition slot (fuel : nat) (tab : Tab.CustomImageTab) (s : Overlay.Signal)
  : option Tab.CustomImageTab :=
  match s with
  | Overlay.scale_changed scale_x scale_y => Some (Tab._on_handle_scale tab scale_x scale_y)
  | Overlay.rotation_changed angle_delta => Tab._on_handle_rotation fuel tab angle_delta
  | Overlay.position_changed delta_x delta_y =>
      Some (Tab._on_handle_position tab delta_x delta_y)
  | Overlay.transform_started => Some (Tab._on_transform_started tab)
  | Overlay.transform_finished => Some tab
  end.

Fixpoint deliver (fuel : nat) (tab : Tab.CustomImageTab)
  (emitted : list Overlay.Signal) : option Tab.CustomImageTab :=
  match emitted with
  | [] => Some tab
  | s :: rest =>
      match slot fuel tab s with
      | Some tab' => deliver fuel tab' rest
      | None => None
      end
  end.

Definition State : Type := (Overlay.TransformHandlesOverlay * Tab.CustomImageTab)%type.

Definition pointer_press (fuel : nat) (st : State) (left_button : bool)
  (pos : Qt.QPointF) : option State :=
  let '(ov, emitted) := Overlay.mousePressEvent (fst st) left_button pos in
  match deliver fuel (snd st) emitted with
  | Some tab => Some (ov, tab)
  | None => None
  end.

Definition pointer_move (fuel : nat) (st : State) (pos : Qt.QPointF)
  : option State :=
  match Overlay.mouseMoveEvent (fst st) pos with
  | Some (ov, emitted) =>
      match deliver fuel (snd st) emitted with
      | Some tab => Some (ov, tab)
      | None => None
      end
  | None => None
  end.

Definition pointer_release (fuel : nat) (st : State) (left_button : bool)
  : option State :=
  let '(ov, emitted) := Overlay.mouseReleaseEvent (fst st) left_button in
  match deliver fuel (snd st) emitted with
  | Some tab => Some (ov, tab)
  | None => None
  end.

End App.

(** ** The position slot and the logo size on binary64 floats *)

Module Float64.
Import PrimFloat.
#[local] Set Warnings "-inexact-float".
Local Open Scope float_scope.

Definition float : Set := PrimFloat.float.

(** Python's [min] and [max] on floats: a comparison with NaN is false,
    so the first argument stays. *)
Definition min (a b : float) : float := if PrimFloat.ltb b a then b else a.
Definition max (a b : float) : float := if PrimFloat.ltb a b then b else a.

(** The attributes [_on_handle_position] reads and writes. *)
Record Offsets : Type := mkOffsets {
  active_layer : Tab.Layer;
  zoom : float;
  offset_x : float;
  offset_y : float;
  logo_offset_x : float;
  logo_offset_y : float
}.

Definition _on_handle_position (self : Offsets) (delta_x delta_y : float) : Offsets :=
  match active_layer self with
  | Tab.background =>
      let delta_x' :=
        if PrimFloat.ltb (zoom self) 1%float then PrimFloat.opp delta_x else delta_x in
      let delta_y' :=
        if PrimFloat.ltb (zoom self) 1%float then PrimFloat.opp delta_y else delta_y in
      mkOffsets (active_layer self) (zoom self)
        (max 0%float (min 1%float (PrimFloat.add (offset_x self) delta_x')))
        (max 0%float (min 1%float (PrimFloat.add (offset_y self) delta_y')))
        (logo_offset_x self) (logo_offset_y self)
  | Tab.logo =>
      mkOffsets (active_layer self) (zoom self) (offset_x self) (offset_y self)
        (max 0%float (min 1%float (PrimFloat.sub (logo_offset_x self) delta_x)))
        (max 0%float (min 1%float (PrimFloat.sub (logo_offset_y self) delta_y)))
  end.

(** The value a position update holds before [max(0.0, min(1.0, _))]
    is applied, on the horizontal axis of the background. *)
Definition unclamped_x (self : Offsets) (delta_x : float) : float :=
  PrimFloat.add (offset_x self)
    (if PrimFloat.ltb (zoom self) 1%float then PrimFloat.opp delta_x else delta_x).

(** The delta the move handle emits for a pointer displacement of
    [pixels] in a widget [widget_size] wide: [-(delta / widget_size)]. *)
Definition move_delta (pixels widget_size : float) : float :=
  - (pixels / widget_size).

Definition zero : float := 0.
Definition one : float := 1.

(** The initial offsets, then three drags of the move handle in an
    800-pixel widget at zoom 1: 2 pixels, 24 pixels, and 24 pixels back. *)
Definition init : Offsets := mkOffsets Tab.background 1 0.5 0.5 0.5 0.5.
Definition start : Offsets :=
  _on_handle_position init (move_delta 2 800) (move_delta 0 800).
Definition step : float := move_delta 24 800.
Definition there : Offsets := _on_handle_position start step (move_delta 0 800).
Definition step_back : float := move_delta (-24) 800.
Definition back : Offsets := _on_handle_position there step_back (move_delta 0 800).

(** [float(n)] for an int of magnitude below 2^63, and [int(f)], which
    truncates toward zero; [None] where Python raises (on an infinity
    or a NaN). *)
Definition of_int (n : Z) : float :=
  if (n <? 0)%Z then PrimFloat.opp (PrimFloat.of_uint63 (Uint63.of_Z (- n)))
  else PrimFloat.of_uint63 (Uint63.of_Z n).

Definition int (f : float) : option Z :=
  match FloatOps.Prim2SF f with
  | SpecFloat.S754_zero _ => Some 0%Z
  | SpecFloat.S754_finite s m e =>
      let a :=
        if (0 <=? e)%Z then (Z.pos m * 2 ^ e)%Z else (Z.pos m / 2 ^ (- e))%Z in
      Some (if s then (- a)%Z else a)
  | _ => None
  end.

(** The size [_composite_logo_on_canvas] hands to [resize], on binary64
    values; [None] where the function raises before it gets there. *)
Definition logo_size (canvas_size : Z) (logo_scale : float) (logo_w logo_h : Z)
  : option (Z * Z) :=
  match int (PrimFloat.mul (of_int canvas_size) logo_scale) with
  | Some max_logo_size =>
      if ((logo_w =? 0) || (logo_h =? 0))%Z then None
      else
        let scale_ratio :=
          min (PrimFloat.div (of_int max_logo_size) (of_int logo_w))
              (PrimFloat.div (of_int max_logo_size) (of_int logo_h)) in
        match int (PrimFloat.mul (of_int logo_w) scale_ratio),
              int (PrimFloat.mul (of_int logo_h) scale_ratio) with
        | Some new_logo_w, Some new_logo_h => Some (new_logo_w, new_logo_h)
        | _, _ => None
        end
  | None => None
  end.

Definition half : float := 0.5.
Definition three_tenths : float := 0.3.

End Float64.

(** ** The properties, in the words of the specification *)

Module Spec.
Import Qt.

(** The closed ranges of the layer transforms. *)
Definition zoom_range (v : R) : Prop := 1/10 <= v <= 10.
Definition logo_scale_range (v : R) : Prop := 5/100 <= v <= 2.
Definition unit_range (v : R) : Prop := 0 <= v <= 1.

(** The scale of the active layer and the baseline snapshot at drag start. *)
Definition active_scale (tab : Tab.CustomImageTab) : R :=
  match Tab.active_layer tab with
  | Tab.background => Tab.zoom tab
  | Tab.logo => Tab.logo_scale tab
  end.

Definition active_baseline (tab : Tab.CustomImageTab) : R :=
  match Tab.active_layer tab with
  | Tab.background => Tab.transform_start_zoom tab
  | Tab.logo => Tab.transform_start_logo_scale tab
  end.

Definition active_scale_range (tab : Tab.CustomImageTab) (v : R) : Prop :=
  match Tab.active_layer tab with
  | Tab.background => zoom_range v
  | Tab.logo => logo_scale_range v
  end.

Definition clamp_active_scale (tab : Tab.CustomImageTab) (v : R) : R :=
  match Tab.active_layer tab with
  | Tab.background => Py.max (1/10) (Py.min 10 v)
  | Tab.logo => Py.max (5/100) (Py.min 2 v)
  end.

(** The tab with the scale of the active layer set to [v] and every
    other attribute as it was. *)
Definition with_active_scale (tab : Tab.CustomImageTab) (v : R) : Tab.CustomImageTab :=
  match Tab.active_layer tab with
  | Tab.background => Tab.set_zoom tab v
  | Tab.logo => Tab.set_logo_scale tab v
  end.

(** Both scales within their ranges. *)
Definition scales_in_range (tab : Tab.CustomImageTab) : Prop :=
  zoom_range (Tab.zoom tab) /\ logo_scale_range (Tab.logo_scale tab).

(** The four offsets within [[0, 1]]. *)
Definition offsets_in_range (tab : Tab.CustomImageTab) : Prop :=
  unit_range (Tab.offset_x tab) /\ unit_range (Tab.offset_y tab) /\
  unit_range (Tab.logo_offset_x tab) /\ unit_range (Tab.logo_offset_y tab).

(** The offsets of the active layer. *)
Definition active_offsets (tab : Tab.CustomImageTab) : R * R :=
  match Tab.active_layer tab with
  | Tab.background => (Tab.offset_x tab, Tab.offset_y tab)
  | Tab.logo => (Tab.logo_offset_x tab, Tab.logo_offset_y tab)
  end.

(** Where a position delta sends the active layer's offsets before any
    clamping: the background adds the delta, negated below zoom 1; the
    logo subtracts it. *)
Definition position_target (tab : Tab.CustomImageTab) (delta_x delta_y : R) : R * R :=
  match Tab.active_layer tab with
  | Tab.background =>
      if Py.ltb (Tab.zoom tab) 1
      then (Tab.offset_x tab - delta_x, Tab.offset_y tab - delta_y)
      else (Tab.offset_x tab + delta_x, Tab.offset_y tab + delta_y)
  | Tab.logo => (Tab.logo_offset_x tab - delta_x, Tab.logo_offset_y tab - delta_y)
  end.

(** The clamp is not engaged: the target already lies in the unit square. *)
Definition clamp_idle (tab : Tab.CustomImageTab) (delta_x delta_y : R) : Prop :=
  unit_range (fst (position_target tab delta_x delta_y)) /\
  unit_range (snd (position_target tab delta_x delta_y)).

(** Corner and edge handles. *)
Definition is_corner (h : Overlay.Handle) : Prop :=
  In h [Overlay.HANDLE_TL; Overlay.HANDLE_TR; Overlay.HANDLE_BL; Overlay.HANDLE_BR].

Definition is_edge (h : Overlay.Handle) : Prop :=
  In h [Overlay.HANDLE_T; Overlay.HANDLE_B; Overlay.HANDLE_L; Overlay.HANDLE_R].

(** The corner diagonally across. *)
Definition opposite (h : Overlay.Handle) : Overlay.Handle :=
  match h with
  | Overlay.HANDLE_TL => Overlay.HANDLE_BR
  | Overlay.HANDLE_TR => Overlay.HANDLE_BL
  | Overlay.HANDLE_BL => Overlay.HANDLE_TR
  | Overlay.HANDLE_BR => Overlay.HANDLE_TL
  | other => other
  end.

(** The anchor of a handle on the box before rotation. *)
Definition box_point (h : Overlay.Handle) (b : QRectF) : QPointF :=
  match h with
  | Overlay.HANDLE_TL => topLeft b
  | Overlay.HANDLE_TR => topRight b
  | Overlay.HANDLE_BL => bottomLeft b
  | Overlay.HANDLE_BR => bottomRight b
  | Overlay.HANDLE_T => mkPoint (x (center b)) (top b)
  | Overlay.HANDLE_B => mkPoint (x (center b)) (top b + height b)
  | Overlay.HANDLE_L => mkPoint (left b) (y (center b))
  | Overlay.HANDLE_R => mkPoint (left b + width b) (y (center b))
  | Overlay.HANDLE_ROTATE =>
      mkPoint (x (center b)) (top b - Overlay.rotation_handle_distance)
  | _ => center b
  end.

Definition distance (a b : QPointF) : R :=
  sqrt ((x b - x a) ^ 2 + (y b - y a) ^ 2).

(** Half-extent of the drag-start box along the axis of an edge handle,
    and the half-extent the pointer implies, measured from the centre. *)
Definition half0 (h : Overlay.Handle) (b : QRectF) : R :=
  match h with
  | Overlay.HANDLE_L | Overlay.HANDLE_R => width b / 2
  | _ => height b / 2
  end.

Definition half1 (h : Overlay.Handle) (b : QRectF) (p : QPointF) : R :=
  match h with
  | Overlay.HANDLE_R => x p - x (center b)
  | Overlay.HANDLE_L => x (center b) - x p
  | Overlay.HANDLE_B => y p - y (center b)
  | _ => y (center b) - y p
  end.

(** The pair an edge drag emits for the ratio [s]. *)
Definition edge_delta (locked : bool) (h : Overlay.Handle) (s : R) : Overlay.Signal :=
  if locked then Overlay.scale_changed s s
  else
    match h with
    | Overlay.HANDLE_L | Overlay.HANDLE_R => Overlay.scale_changed s 1
    | _ => Overlay.scale_changed 1 s
    end.

(** Where a handle sits on screen: its box anchor turned about the centre. *)
Definition anchor (ov : Overlay.TransformHandlesOverlay) (h : Overlay.Handle) : QPointF :=
  Qt.map (about (center (Overlay.bounds ov)) (Overlay.rotation ov))
         (box_point h (Overlay.bounds ov)).

Definition hit_size (h : Overlay.Handle) : R :=
  match h with
  | Overlay.HANDLE_ROTATE => Overlay.rotation_handle_size
  | _ => Overlay.handle_size
  end.

Definition in_hit_area (ov : Overlay.TransformHandlesOverlay) (h : Overlay.Handle)
  (p : QPointF) : bool :=
  Overlay._point_in_handle p (anchor ov h) (hit_size h).

(** The point, taken back by the inverse rotation, lies in the box. *)
Definition inside_box (ov : Overlay.TransformHandlesOverlay) (p : QPointF) : bool :=
  contains (Overlay.bounds ov)
    (Qt.map (about (center (Overlay.bounds ov)) (- Overlay.rotation ov)) p).

Definition priority_order : list Overlay.Handle :=
  [ Overlay.HANDLE_ROTATE;
    Overlay.HANDLE_TL; Overlay.HANDLE_TR; Overlay.HANDLE_BL; Overlay.HANDLE_BR;
    Overlay.HANDLE_T; Overlay.HANDLE_B; Overlay.HANDLE_L; Overlay.HANDLE_R ].

Fixpoint first_match (ov : Overlay.TransformHandlesOverlay) (p : QPointF)
  (hs : list Overlay.Handle) : option Overlay.Handle :=
  match hs with
  | [] => None
  | h :: rest => if in_hit_area ov h p then Some h else first_match ov p rest
  end.

(** First match wins: rotation handle, corners, edges, inside, none. *)
Definition hit_priority (ov : Overlay.TransformHandlesOverlay) (p : QPointF)
  : Overlay.Handle :=
  match first_match ov p priority_order with
  | Some h => h
  | None => if inside_box ov p then Overlay.HANDLE_MOVE else Overlay.HANDLE_NONE
  end.

(** The corners tried before [c]. *)
Definition corners_before (c : Overlay.Handle) : list Overlay.Handle :=
  match c with
  | Overlay.HANDLE_TR => [Overlay.HANDLE_TL]
  | Overlay.HANDLE_BL => [Overlay.HANDLE_TL; Overlay.HANDLE_TR]
  | Overlay.HANDLE_BR => [Overlay.HANDLE_TL; Overlay.HANDLE_TR; Overlay.HANDLE_BL]
  | _ => []
  end.

End Spec.

(** ** Concrete states used by the scenarios *)

Module Scenario.
Import Qt.

(** An overlay in mid-drag: handle [h] held since the pointer was at
    [start], over the drag-start box [b]. *)
Definition dragging (h : Overlay.Handle) (start : QPointF) (b : QRectF)
  (locked : bool) : Overlay.TransformHandlesOverlay :=
  Overlay.mkOverlay b 0 true Overlay.HANDLE_NONE h start b 0 locked 800 800.

(** Scenario B: bottom-right corner held, fixed corner (500, 500),
    pointer first at (600, 600). *)
Definition B : Overlay.TransformHandlesOverlay :=
  dragging Overlay.HANDLE_BR (mkPoint 600 600) (mkRect 500 500 100 100) true.

(** Scenario C: right edge held, box of width 200 centred at x = 300,
    aspect lock off. *)
Definition C : Overlay.TransformHandlesOverlay :=
  dragging Overlay.HANDLE_R (mkPoint 400 250) (mkRect 200 200 200 100) false.

(** A top-left corner grabbed exactly at the opposite corner of a box
    small enough for the corner areas to overlap. *)
Definition degenerate_corner : Overlay.TransformHandlesOverlay :=
  dragging Overlay.HANDLE_TL (mkPoint 10 10) (mkRect 0 0 10 10) true.

(** A 10 x 10 box at rest, handles shown, no rotation. *)
Definition small_box : Overlay.TransformHandlesOverlay :=
  Overlay.mkOverlay (mkRect 0 0 10 10) 0 true Overlay.HANDLE_NONE
    Overlay.HANDLE_NONE (mkPoint 0 0) (mkRect 0 0 0 0) 0 true 800 800.

(** The overlay as created: null bounds; the aspect lock unticked. *)
Definition fresh_overlay : Overlay.TransformHandlesOverlay :=
  Overlay.mkOverlay (mkRect 0 0 0 0) 0 true Overlay.HANDLE_NONE
    Overlay.HANDLE_NONE (mkPoint 0 0) (mkRect 0 0 0 0) 0 false 800 800.

(** A background is loaded, then the scale spinbox is set to 5 (5%). *)
Definition tab_loaded : Tab.CustomImageTab :=
  Tab.set_images Tab.init (Some (1024, 1024)%Z) None.

Definition tab_five_percent : Tab.CustomImageTab :=
  Tab._on_scale_spinbox_changed tab_loaded 5.

(** The top edge of a 40 x 40 box held, aspect lock off. *)
Definition top_edge_drag : Overlay.TransformHandlesOverlay :=
  dragging Overlay.HANDLE_T (mkPoint 400 380) (mkRect 380 380 40 40) false.

End Scenario.

(** ** [InteractiveImageView]: wheel, arrow keys and the event filter *)

Module View.

(** The signals of the view that do not come from the overlay. *)
Inductive Signal : Type :=
| zoom_changed (zoom_step : R)
| arrow_key_pressed (delta_x delta_y : R).

Inductive Key : Type := Key_Left | Key_Right | Key_Up | Key_Down | Key_Other.

(** [self.arrow_key_step], fixed in [__init__]. *)
Definition arrow_key_step : R := 5 / 1000.

(** [wheelEvent]: [image_item] tells whether [self.image_item] is set,
    [delta] is [event.angleDelta().y()]. *)
Definition wheelEvent (image_item : bool) (delta : Z) : list Signal :=
  if negb image_item then []
  else
    let zoom_step := if (0 <? delta)%Z then 5 / 100 else - (5 / 100) in
    [zoom_changed zoom_step].

Definition keyPressEvent (image_item : bool) (key : Key) : list Signal :=
  if negb image_item then []
  else
    match key with
    | Key_Left => [arrow_key_pressed arrow_key_step 0]
    | Key_Right => [arrow_key_pressed (- arrow_key_step) 0]
    | Key_Up => [arrow_key_pressed 0 arrow_key_step]
    | Key_Down => [arrow_key_pressed 0 (- arrow_key_step)]
    | Key_Other => []
    end.

(** The mouse events of the viewport that [eventFilter] looks at. *)
Inductive MouseEvent : Type :=
| MouseButtonPress (left_button : bool) (pos : Qt.QPointF)
| MouseMove (pos : Qt.QPointF)
| MouseButtonRelease (left_button : bool).

(** [eventFilter] on an event of the viewport: the overlay after it, the
    signals emitted, and whether the event is consumed ([return True]). *)
Definition eventFilter (handles_overlay : Overlay.TransformHandlesOverlay)
  (event : MouseEvent)
  : option (Overlay.TransformHandlesOverlay * list Overlay.Signal * bool) :=
  match event with
  | MouseButtonPress left_button pos =>
      let hit := Overlay.hit_test handles_overlay pos in
      if negb (Overlay.handle_eqb hit Overlay.HANDLE_NONE) then
        let '(ov, emitted) := Overlay.mousePressEvent handles_overlay left_button pos in
        Some (ov, emitted, true)
      else Some (handles_overlay, [], false)
  | MouseMove pos =>
      if negb (Overlay.handle_eqb (Overlay.active_handle handles_overlay)
                 Overlay.HANDLE_NONE) then
        match Overlay.mouseMoveEvent handles_overlay pos with
        | Some (ov, emitted) => Some (ov, emitted, true)
        | None => None
        end
      else
        let hit := Overlay.hit_test handles_overlay pos in
        if negb (Overlay.handle_eqb hit (Overlay.hovered_handle handles_overlay)) then
          Some (Overlay.set_hovered_handle handles_overlay hit, [], false)
        else Some (handles_overlay, [], false)
  | MouseButtonRelease left_button =>
      if negb (Overlay.handle_eqb (Overlay.active_handle handles_overlay)
                 Overlay.HANDLE_NONE) then
        let '(ov, emitted) := Overlay.mouseReleaseEvent handles_overlay left_button in
        Some (ov, emitted, true)
      else Some (handles_overlay, [], false)
  end.

End View.

(** ** The controls of the tab and what they are connected to *)

Module Ui.

(** A successful [_upload_background]: the image is pasted on a
    1024 x 1024 canvas, the background adjustments are reset and the
    background layer is selected. *)
Definition _upload_background (self : Tab.CustomImageTab) : Tab.CustomImageTab :=
  Tab._select_layer
    (Tab._reset_background_adjustments
       (Tab.set_images self (Some (1024, 1024)%Z) (Tab.logo_image self)))
    Tab.background.

(** A successful [_upload_logo]: the logo is kept at its own size. *)
Definition _upload_logo (self : Tab.CustomImageTab) (size : Z * Z) : Tab.CustomImageTab :=
  Tab.set_images self (Tab.background_image self) (Some size).

Definition _clear_background (self : Tab.CustomImageTab) : Tab.CustomImageTab :=
  Tab.set_images self None (Tab.logo_image self).

Definition _clear_logo (self : Tab.CustomImageTab) : Tab.CustomImageTab :=
  Tab.set_images self (Tab.background_image self) None.

(** What reaches the tab: the signals of the overlay and of the view,
    and the controls of the side panel. *)
Inductive Input : Type :=
| overlay_signal (s : Overlay.Signal)
| view_signal (s : View.Signal)
| layer_button (layer : Tab.Layer)
| scale_spinbox (value : R)
| reset_button
| opacity_slider (value : Z)
| upload_background
| upload_logo (size : Z * Z)
| clear_background
| clear_logo.

(** The connections made in [_setup_ui]. *)
Definition react (fuel : nat) (tab : Tab.CustomImageTab) (i : Input)
  : option Tab.CustomImageTab :=
  match i with
  | overlay_signal s => App.slot fuel tab s
  | view_signal (View.zoom_changed zoom_step) => Some (Tab._on_wheel_zoom tab zoom_step)
  | view_signal (View.arrow_key_pressed delta_x delta_y) =>
      Some (Tab._on_handle_position tab delta_x delta_y)
  | layer_button layer => Some (Tab._select_layer tab layer)
  | scale_spinbox value => Some (Tab._on_scale_spinbox_changed tab value)
  | reset_button => Some (Tab._reset_current_layer tab)
  | opacity_slider value => Some (Tab._on_logo_opacity_changed tab value)
  | upload_background => Some (_upload_background tab)
  | upload_logo size => Some (_upload_logo tab size)
  | clear_background => Some (_clear_background tab)
  | clear_logo => Some (_clear_logo tab)
  end.

(** The signals of the view, delivered one after the other. *)
Fixpoint deliver (tab : Tab.CustomImageTab) (emitted : list View.Signal)
  : Tab.CustomImageTab :=
  match emitted with
  | [] => tab
  | View.zoom_changed zoom_step :: rest => deliver (Tab._on_wheel_zoom tab zoom_step) rest
  | View.arrow_key_pressed delta_x delta_y :: rest =>
      deliver (Tab._on_handle_position tab delta_x delta_y) rest
  end.

End Ui.

(** ** A drag of the move handle, with the rounding explicit *)

Module Rounded.
Import Qt.

(** The move branch of [_handle_drag] in a widget of positive size:
    [delta = current_pos - self.drag_start_pos], then
    [norm_dx = delta.x() / widget_size]; [-norm_dx] is emitted. *)
Definition move_delta (fl : R -> R) (self : Overlay.TransformHandlesOverlay)
  (current_pos : QPointF) : R * R :=
  let widget_size :=
    IZR (Z.min (Overlay.widget_width self) (Overlay.widget_height self)) in
  let delta_x := fl (x current_pos - x (Overlay.drag_start_pos self)) in
  let delta_y := fl (y current_pos - y (Overlay.drag_start_pos self)) in
  let norm_dx := fl (delta_x / widget_size) in
  let norm_dy := fl (delta_y / widget_size) in
  (- norm_dx, - norm_dy).

(** The values [_on_handle_position] holds before
    [max(0.0, min(1.0, _))], for the active layer. *)
Definition position_target (fl : R -> R) (self : Tab.CustomImageTab)
  (delta_x delta_y : R) : R * R :=
  match Tab.active_layer self with
  | Tab.background =>
      let delta_x' := if Py.ltb (Tab.zoom self) 1 then - delta_x else delta_x in
      let delta_y' := if Py.ltb (Tab.zoom self) 1 then - delta_y else delta_y in
      (fl (Tab.offset_x self + delta_x'), fl (Tab.offset_y self + delta_y'))
  | Tab.logo =>
      (fl (Tab.logo_offset_x self - delta_x), fl (Tab.logo_offset_y self - delta_y))
  end.

(** [_on_handle_position]. *)
Definition _on_handle_position (fl : R -> R) (self : Tab.CustomImageTab)
  (delta_x delta_y : R) : Tab.CustomImageTab :=
  let target := position_target fl self delta_x delta_y in
  match Tab.active_layer self with
  | Tab.background =>
      Tab.set_offset self
        (Py.max 0 (Py.min 1 (fst target))) (Py.max 0 (Py.min 1 (snd target)))
  | Tab.logo =>
      Tab.set_logo_offset self
        (Py.max 0 (Py.min 1 (fst target))) (Py.max 0 (Py.min 1 (snd target)))
  end.

(** The clamp is not engaged: the target lies in the unit square. *)
Definition clamp_idle (fl : R -> R) (self : Tab.CustomImageTab)
  (delta_x delta_y : R) : Prop :=
  Spec.unit_range (fst (position_target fl self delta_x delta_y)) /\
  Spec.unit_range (snd (position_target fl self delta_x delta_y)).

(** One move event of such a drag: the overlay rebases
    [drag_start_pos], the tab runs the slot on the emitted pair. *)
Definition move_event (fl : R -> R) (st : App.State) (current_pos : QPointF)
  : App.State :=
  let emitted := move_delta fl (fst st) current_pos in
  (Overlay.set_drag_start_pos (fst st) current_pos,
   _on_handle_position fl (snd st) (fst emitted) (snd emitted)).

End Rounded.

(** ** Notions used by the properties of sessions, inputs and placement *)

Module Props.
Import Qt.

(** The test [hit_test] applies to one handle: it is in the dict and the
    pointer is in its clickable area. *)
Definition handle_hit (ov : Overlay.TransformHandlesOverlay) (k : Overlay.Handle)
  (p : QPointF) : bool :=
  match Overlay.lookup k (Overlay.get_handle_positions ov) with
  | Some c => Overlay._point_in_handle p c (Spec.hit_size k)
  | None => false
  end.

Definition midpoint (a b : QPointF) : QPointF :=
  mkPoint ((x a + x b) / 2) ((y a + y b) / 2).

(** The point [q] of the box, turned with the box. *)
Definition turned (ov : Overlay.TransformHandlesOverlay) (q : QPointF) : QPointF :=
  Qt.map (about (center (Overlay.bounds ov)) (Overlay.rotation ov)) q.

(** What a refresh of the view writes into the overlay, through
    [set_bounds], [set_rotation] and [set_handles_visible]. *)
Definition refreshed (ov : Overlay.TransformHandlesOverlay) (b : QRectF) (r : R)
  (visible : bool) : Overlay.TransformHandlesOverlay :=
  Overlay.set_handles_visible (Overlay.set_rotation (Overlay.set_bounds ov b) r) visible.

(** The pair a move drag emits for the pointer at [p]:
    [-(delta / widget_size)] on each axis, [delta] counted from
    [drag_start_pos]. *)
Definition move_delta (ov : Overlay.TransformHandlesOverlay) (p : QPointF) : R * R :=
  let widget_size := IZR (Z.min (Overlay.widget_width ov) (Overlay.widget_height ov)) in
  (- ((x p - x (Overlay.drag_start_pos ov)) / widget_size),
   - ((y p - y (Overlay.drag_start_pos ov)) / widget_size)).

(** The transform of each layer. *)
Definition background_transform (tab : Tab.CustomImageTab) : R * R * R * R :=
  (Tab.rotation tab, Tab.zoom tab, Tab.offset_x tab, Tab.offset_y tab).

Definition logo_transform (tab : Tab.CustomImageTab) : R * R * R * R :=
  (Tab.logo_scale tab, Tab.logo_offset_x tab, Tab.logo_offset_y tab,
   Tab.logo_opacity tab).

(** Every transform attribute within the range its slots clamp to, the
    background on its 1024 x 1024 canvas, the logo of positive size. *)
Definition well_formed (tab : Tab.CustomImageTab) : Prop :=
  Spec.scales_in_range tab /\ Spec.offsets_in_range tab /\
  -180 <= Tab.rotation tab <= 180 /\
  Spec.unit_range (Tab.logo_opacity tab) /\
  (Tab.background_image tab = None \/
   Tab.background_image tab = Some (1024, 1024)%Z) /\
  (forall w h, Tab.logo_image tab = Some (w, h) -> (0 < w)%Z /\ (0 < h)%Z).

(** The inputs the widgets can produce that keep a tab well formed: the
    opacity slider runs from 0 to 100, an image that was opened has a
    positive size, and the scale box is restricted here to the range of
    the active layer. *)
Definition admissible (tab : Tab.CustomImageTab) (i : Ui.Input) : Prop :=
  match i with
  | Ui.opacity_slider value => (0 <= value <= 100)%Z
  | Ui.scale_spinbox value => Spec.active_scale_range tab (value / 100)
  | Ui.upload_logo (w, h) => (0 < w)%Z /\ (0 < h)%Z
  | _ => True
  end.

(** The inputs the widgets can produce: as above, but the scale box
    with the whole range it is given, 1 to 1000. *)
Definition widget_range (tab : Tab.CustomImageTab) (i : Ui.Input) : Prop :=
  match i with
  | Ui.opacity_slider value => (0 <= value <= 100)%Z
  | Ui.scale_spinbox value => Tab.scale_spinbox_value value
  | Ui.upload_logo (w, h) => (0 < w)%Z /\ (0 < h)%Z
  | _ => True
  end.

(** The states the tab can be in after inputs that satisfy [allowed]. *)
Inductive reachable (allowed : Tab.CustomImageTab -> Ui.Input -> Prop)
  : Tab.CustomImageTab -> Prop :=
| reach_init : reachable allowed Tab.init
| reach_step tab i fuel tab' :
    reachable allowed tab -> allowed tab i -> Ui.react fuel tab i = Some tab' ->
    reachable allowed tab'.

(** What holds of the scales once the scale box is used freely. *)
Definition loosely_formed (tab : Tab.CustomImageTab) : Prop :=
  1 / 100 <= Tab.zoom tab <= 10 /\ 1 / 100 <= Tab.logo_scale tab <= 10 /\
  Spec.offsets_in_range tab /\ -180 <= Tab.rotation tab <= 180 /\
  Spec.unit_range (Tab.logo_opacity tab).

(** The inputs that act on the active layer only. *)
Definition acts_on_active_layer (i : Ui.Input) : Prop :=
  match i with
  | Ui.overlay_signal _ | Ui.view_signal _ | Ui.scale_spinbox _ | Ui.reset_button
  | Ui.layer_button _ => True
  | _ => False
  end.

(** The square the preview is fitted into, in a viewport of
    [view_w] x [view_h]: its side and its margins. *)
Definition view_side (view_w view_h : Z) : R := IZR (Z.min view_w view_h).
Definition view_margin_x (view_w view_h : Z) : R :=
  (IZR view_w - view_side view_w view_h) / 2.
Definition view_margin_y (view_w view_h : Z) : R :=
  (IZR view_h - view_side view_w view_h) / 2.

(** A binary64 value between 0.0 and 1.0, ends included; false of NaN. *)
Definition float_unit (v : Float64.float) : bool :=
  PrimFloat.leb Float64.zero v && PrimFloat.leb v Float64.one.

(** The offsets of the active layer, on floats. *)
Definition float_active_offsets (self : Float64.Offsets) : Float64.float * Float64.float :=
  match Float64.active_layer self with
  | Tab.background => (Float64.offset_x self, Float64.offset_y self)
  | Tab.logo => (Float64.logo_offset_x self, Float64.logo_offset_y self)
  end.

(** What happens to the overlay, one step at a time: a mouse event of
    the viewport, or a refresh of bounds, rotation and visibility. *)
Inductive Step : Type :=
| mouse (event : View.MouseEvent)
| refresh (b : QRectF) (r : R) (visible : bool).

Definition step (ov : Overlay.TransformHandlesOverlay) (s : Step)
  : option (Overlay.TransformHandlesOverlay * list Overlay.Signal) :=
  match s with
  | mouse event =>
      match View.eventFilter ov event with
      | Some (ov', emitted, _) => Some (ov', emitted)
      | None => None
      end
  | refresh b r visible => Some (refreshed ov b r visible, [])
  end.

(** A sequence of steps, with all the signals emitted on the way. *)
Fixpoint play (ov : Overlay.TransformHandlesOverlay) (steps : list Step)
  : option (Overlay.TransformHandlesOverlay * list Overlay.Signal) :=
  match steps with
  | [] => Some (ov, [])
  | s :: rest =>
      match step ov s with
      | Some (ov1, emitted1) =>
          match play ov1 rest with
          | Some (ov2, emitted2) => Some (ov2, emitted1 ++ emitted2)
          | None => None
          end
      | None => None
      end
  end.

(** A handle is held. *)
Definition holding (ov : Overlay.TransformHandlesOverlay) : bool :=
  negb (Overlay.handle_eqb (Overlay.active_handle ov) Overlay.HANDLE_NONE).

(** The signals come in brackets: a delta or a [transform_finished] only
    after a [transform_started] that no [transform_finished] has closed
    yet.  [open] tells whether such a bracket is open at the start. *)
Fixpoint bracketed (open : bool) (emitted : list Overlay.Signal) : bool :=
  match emitted with
  | [] => true
  | Overlay.transform_started :: rest => bracketed true rest
  | Overlay.transform_finished :: rest => open && bracketed false rest
  | _ :: rest => open && bracketed open rest
  end.



(** The room a layer of side [size] has on a canvas of side [canvas],
    or its overhang over it. *)
Definition slack (canvas size : Z) : R := Rabs (IZR (size - canvas)).

(** A paste position moved by [shift] pixels, to the pixel: the
    truncations take less than one pixel, the second one allows for the
    rounding of the float operations. *)
Definition moved_by (before after : Z) (shift : R) : Prop :=
  Rabs (IZR (after - before) - shift) < 2.

(** A pointer position a screen can report. *)
Definition on_screen (p : QPointF) : Prop :=
  - 2 ^ 16 <= x p <= 2 ^ 16 /\ - 2 ^ 16 <= y p <= 2 ^ 16.

(** Two states of the tab that differ in the four offsets at most. *)
Definition same_but_offsets (a b : Tab.CustomImageTab) : Prop :=
  Tab.background_image a = Tab.background_image b /\
  Tab.logo_image a = Tab.logo_image b /\
  Tab.rotation a = Tab.rotation b /\ Tab.zoom a = Tab.zoom b /\
  Tab.logo_scale a = Tab.logo_scale b /\ Tab.logo_opacity a = Tab.logo_opacity b /\
  Tab.active_layer a = Tab.active_layer b /\
  Tab.transform_start_zoom a = Tab.transform_start_zoom b /\
  Tab.transform_start_rotation a = Tab.transform_start_rotation b /\
  Tab.transform_start_logo_scale a = Tab.transform_start_logo_scale b.

(** ... and in these by [eps] at most. *)
Definition offsets_within (eps : R) (a b : Tab.CustomImageTab) : Prop :=
  Rabs (Tab.offset_x a - Tab.offset_x b) <= eps /\
  Rabs (Tab.offset_y a - Tab.offset_y b) <= eps /\
  Rabs (Tab.logo_offset_x a - Tab.logo_offset_x b) <= eps /\
  Rabs (Tab.logo_offset_y a - Tab.logo_offset_y b) <= eps.

End Props.

(** * Facts *)

(** ** Comparisons and the clamp idiom *)

Lemma ltb_true a b : a < b -> Py.ltb a b = true.
Proof. intros H. unfold Py.ltb. destruct (Rlt_dec a b); [reflexivity | contradiction]. Qed.

Lemma ltb_false a b : b <= a -> Py.ltb a b = false.
Proof. intros H. unfold Py.ltb. destruct (Rlt_dec a b); [lra | reflexivity]. Qed.

Lemma leb_true a b : a <= b -> Py.leb a b = true.
Proof. intros H. unfold Py.leb. destruct (Rle_dec a b); [reflexivity | contradiction]. Qed.

Lemma leb_false a b : b < a -> Py.leb a b = false.
Proof. intros H. unfold Py.leb. destruct (Rle_dec a b); [lra | reflexivity]. Qed.

Lemma eqb_true a b : a = b -> Py.eqb a b = true.
Proof. intros H. unfold Py.eqb. destruct (Req_dec_T a b); [reflexivity | contradiction]. Qed.

Lemma eqb_false a b : a <> b -> Py.eqb a b = false.
Proof. intros H. unfold Py.eqb. destruct (Req_dec_T a b); [contradiction | reflexivity]. Qed.

Lemma leb_iff a b : Py.leb a b = true <-> a <= b.
Proof. unfold Py.leb. destruct (Rle_dec a b); split; intros; easy. Qed.

Lemma gtb_true a b : b < a -> Py.gtb a b = true.
Proof. intros H. unfold Py.gtb. now apply ltb_true. Qed.

Lemma gtb_false a b : a <= b -> Py.gtb a b = false.
Proof. intros H. unfold Py.gtb. now apply ltb_false. Qed.

Lemma min_spec a b : (b < a /\ Py.min a b = b) \/ (a <= b /\ Py.min a b = a).
Proof.
  unfold Py.min, Py.ltb. destruct (Rlt_dec b a); [left | right]; split; auto; lra.
Qed.

Lemma max_spec a b : (a < b /\ Py.max a b = b) \/ (b <= a /\ Py.max a b = a).
Proof.
  unfold Py.max, Py.gtb, Py.ltb.
  destruct (Rlt_dec a b); [left | right]; split; auto; lra.
Qed.

(** [max(lo, min(hi, v))] lands in [[lo, hi]] whatever [v] is. *)
Lemma clamp_range lo hi v : lo <= hi -> lo <= Py.max lo (Py.min hi v) <= hi.
Proof.
  intros Hb.
  destruct (min_spec hi v) as [[? ->] | [? ->]];
    [ destruct (max_spec lo v) as [[? ->] | [? ->]]
    | destruct (max_spec lo hi) as [[? ->] | [? ->]] ]; lra.
Qed.

(** It leaves a value of [[lo, hi]] as it is. *)
Lemma clamp_id lo hi v : lo <= v <= hi -> Py.max lo (Py.min hi v) = v.
Proof.
  intros [Hl Hh].
  destruct (min_spec hi v) as [[? ->] | [? ->]];
    [ destruct (max_spec lo v) as [[? ->] | [? ->]]
    | destruct (max_spec lo hi) as [[? ->] | [? ->]] ]; lra.
Qed.

Lemma clamp_low lo hi v : lo <= hi -> v <= lo -> Py.max lo (Py.min hi v) = lo.
Proof.
  intros Hb Hv.
  destruct (min_spec hi v) as [[? ->] | [? ->]];
    [ destruct (max_spec lo v) as [[? ->] | [? ->]]
    | destruct (max_spec lo hi) as [[? ->] | [? ->]] ]; lra.
Qed.

Lemma clamp_high lo hi v : lo <= hi -> hi <= v -> Py.max lo (Py.min hi v) = hi.
Proof.
  intros Hb Hv.
  destruct (min_spec hi v) as [[? ->] | [? ->]];
    [ destruct (max_spec lo v) as [[? ->] | [? ->]]
    | destruct (max_spec lo hi) as [[? ->] | [? ->]] ]; lra.
Qed.

Lemma div_some a b : b <> 0 -> Py.div a b = Some (a / b).
Proof. intros H. unfold Py.div. now rewrite eqb_false. Qed.

(** ** Rectangles and rotations about a centre *)

Lemma map_about c a p :
  Qt.map (Qt.about c a) p =
  Qt.mkPoint
    (Qt.x c + cos (a * PI / 180) * (Qt.x p - Qt.x c)
            - sin (a * PI / 180) * (Qt.y p - Qt.y c))
    (Qt.y c + sin (a * PI / 180) * (Qt.x p - Qt.x c)
            + cos (a * PI / 180) * (Qt.y p - Qt.y c)).
Proof.
  unfold Qt.map, Qt.about, Qt.translate, Qt.rotate, Qt.identity; simpl.
  f_equal; ring.
Qed.

Lemma about_zero c a p : a = 0 -> Qt.map (Qt.about c a) p = p.
Proof.
  intros ->. rewrite map_about.
  replace (0 * PI / 180) with 0 by lra.
  rewrite cos_0, sin_0. destruct p as [u v]; simpl. f_equal; ring.
Qed.

Lemma isEmpty_false r :
  Qt.isEmpty r = false <-> 0 < Qt.width r /\ 0 < Qt.height r.
Proof.
  unfold Qt.isEmpty, Py.leb.
  destruct (Rle_dec (Qt.width r) 0), (Rle_dec (Qt.height r) 0); simpl; split;
    intros H; try discriminate; try lra; auto.
Qed.

Lemma contains_iff r p :
  0 < Qt.width r -> 0 < Qt.height r ->
  (Qt.contains r p = true <->
   Qt.left r <= Qt.x p <= Qt.left r + Qt.width r /\
   Qt.top r <= Qt.y p <= Qt.top r + Qt.height r).
Proof.
  intros Hw Hh. unfold Qt.contains.
  rewrite (ltb_false (Qt.width r) 0), (ltb_false (Qt.height r) 0) by lra.
  rewrite (eqb_false (Qt.left r)), (eqb_false (Qt.top r)) by lra.
  unfold Py.ltb.
  destruct (Rlt_dec (Qt.x p) (Qt.left r)),
           (Rlt_dec (Qt.left r + Qt.width r) (Qt.x p)),
           (Rlt_dec (Qt.y p) (Qt.top r)),
           (Rlt_dec (Qt.top r + Qt.height r) (Qt.y p));
    simpl; split; intros H; try discriminate; try lra; auto.
Qed.

(** ** The layer model: scale *)

(** A gesture-driven scale delta leaves the active layer's scale in its
    range, whatever the multiplier. *)
Lemma handle_scale_in_range tab scale_x scale_y :
  Spec.active_scale_range tab
    (Spec.active_scale (Tab._on_handle_scale tab scale_x scale_y)).
Proof.
  unfold Spec.active_scale_range, Spec.active_scale, Tab._on_handle_scale.
  destruct (Tab.active_layer tab) eqn:E; simpl; rewrite E;
    unfold Spec.zoom_range, Spec.logo_scale_range; apply clamp_range; lra.
Qed.

(** So does a wheel step. *)
Lemma wheel_zoom_in_range tab zoom_delta :
  Spec.active_scale_range tab
    (Spec.active_scale (Tab._on_wheel_zoom tab zoom_delta)).
Proof.
  unfold Spec.active_scale_range, Spec.active_scale, Tab._on_wheel_zoom.
  destruct (Tab.active_layer tab) eqn:E; simpl; rewrite E;
    unfold Spec.zoom_range, Spec.logo_scale_range; apply clamp_range; lra.
Qed.

(** Gesture-driven scale deltas and wheel steps pass through the clamp:
    after either, the active layer's scale lies in [0.1, 10] for the
    background and in [0.05, 2] for the logo, whatever was asked for. *)
Theorem gesture_scale_clamped :
  forall tab scale_x scale_y zoom_delta,
    Spec.active_scale_range tab
      (Spec.active_scale (Tab._on_handle_scale tab scale_x scale_y)) /\
    Spec.active_scale_range tab
      (Spec.active_scale (Tab._on_wheel_zoom tab zoom_delta)).
Proof.
  intros. split; [apply handle_scale_in_range | apply wheel_zoom_in_range].
Qed.

(** The slot writes [clamp(baseline * scale_x)] and never reads [scale_y]. *)
Lemma handle_scale_value tab scale_x scale_y :
  Spec.active_scale (Tab._on_handle_scale tab scale_x scale_y) =
  Spec.clamp_active_scale tab (Spec.active_baseline tab * scale_x).
Proof.
  unfold Spec.active_scale, Spec.clamp_active_scale, Spec.active_baseline,
    Tab._on_handle_scale.
  destruct (Tab.active_layer tab) eqn:E; simpl; rewrite E; reflexivity.
Qed.

Lemma handle_scale_ignores_y tab scale_x scale_y scale_y' :
  Tab._on_handle_scale tab scale_x scale_y = Tab._on_handle_scale tab scale_x scale_y'.
Proof. reflexivity. Qed.

(** The spinbox slot stores [value / 100] as it comes. *)
Lemma spinbox_value_stored tab value :
  Spec.active_scale (Tab._on_scale_spinbox_changed tab value) = value / 100.
Proof.
  unfold Spec.active_scale, Tab._on_scale_spinbox_changed.
  destruct (Tab.active_layer tab) eqn:E; simpl; rewrite E; reflexivity.
Qed.

(** C2, at the failing inputs.  The spinbox accepts 1 and 1000; with the
    background active the value 1 stores zoom 0.01, below 0.1, and with
    the logo active the value 1000 stores logo scale 10, above 2.0: the
    direct-entry path does not pass through the clamp that the gesture
    and wheel paths apply. *)
Theorem spinbox_escapes_clamp :
  Tab.scale_spinbox_value 1 /\ Tab.scale_spinbox_value 1000 /\
  Tab.zoom (Tab._on_scale_spinbox_changed Tab.init 1) = 1 / 100 /\
  ~ Spec.zoom_range (Tab.zoom (Tab._on_scale_spinbox_changed Tab.init 1)) /\
  Tab.logo_scale
    (Tab._on_scale_spinbox_changed (Tab._select_layer Tab.init Tab.logo) 1000) = 10 /\
  ~ Spec.logo_scale_range
      (Tab.logo_scale
         (Tab._on_scale_spinbox_changed (Tab._select_layer Tab.init Tab.logo) 1000)).
Proof.
  unfold Tab.scale_spinbox_value, Spec.zoom_range, Spec.logo_scale_range; simpl.
  repeat split; try lra.
Qed.

(** ** The layer model: rotation *)

Lemma while_above_unfold fuel r :
  Tab.while_above fuel r =
  if Py.gtb r 180 then
    match fuel with
    | O => None
    | S fuel' => Tab.while_above fuel' (r - 360)
    end
  else Some r.
Proof. destruct fuel; reflexivity. Qed.

Lemma while_below_unfold fuel r :
  Tab.while_below fuel r =
  if Py.ltb r (-180) then
    match fuel with
    | O => None
    | S fuel' => Tab.while_below fuel' (r + 360)
    end
  else Some r.
Proof. destruct fuel; reflexivity. Qed.

(** The first loop ends after at most [n] rounds when
    [r <= 180 + 360 n]; it leaves a value at most 180, above -180 if
    the loop ran at all. *)
Lemma while_above_spec n :
  forall r, r <= 180 + 360 * INR n ->
  forall fuel, (n <= fuel)%nat ->
  exists r', Tab.while_above fuel r = Some r' /\ r' <= 180 /\
             (180 < r -> -180 < r') /\ (r <= 180 -> r' = r).
Proof.
  induction n as [|n IH]; intros r Hr fuel Hf.
  - simpl in Hr. exists r. rewrite while_above_unfold, gtb_false by lra.
    repeat split; auto; lra.
  - rewrite S_INR in Hr.
    destruct (Rle_dec r 180) as [Hle | Hgt].
    + exists r. rewrite while_above_unfold, gtb_false by lra.
      repeat split; auto; lra.
    + destruct fuel as [|fuel]; [lia |].
      rewrite while_above_unfold, gtb_true by lra.
      destruct (IH (r - 360) ltac:(lra) fuel ltac:(lia)) as (r' & E & H1 & H2 & H3).
      exists r'. split; [exact E |]. split; [exact H1 |]. split.
      * intros _. destruct (Rle_dec (r - 360) 180) as [Hs | Hs].
        -- rewrite (H3 Hs). lra.
        -- apply H2. lra.
      * intros Hc. lra.
Qed.

Lemma while_below_spec n :
  forall r, -180 - 360 * INR n <= r ->
  forall fuel, (n <= fuel)%nat ->
  exists r', Tab.while_below fuel r = Some r' /\ -180 <= r' /\
             (r < -180 -> r' < 180) /\ (-180 <= r -> r' = r).
Proof.
  induction n as [|n IH]; intros r Hr fuel Hf.
  - simpl in Hr. exists r. rewrite while_below_unfold, ltb_false by lra.
    repeat split; auto; lra.
  - rewrite S_INR in Hr.
    destruct (Rle_dec (-180) r) as [Hle | Hgt].
    + exists r. rewrite while_below_unfold, ltb_false by lra.
      repeat split; auto; lra.
    + destruct fuel as [|fuel]; [lia |].
      rewrite while_below_unfold, ltb_true by lra.
      destruct (IH (r + 360) ltac:(lra) fuel ltac:(lia)) as (r' & E & H1 & H2 & H3).
      exists r'. split; [exact E |]. split; [exact H1 |]. split.
      * intros _. destruct (Rle_dec (-180) (r + 360)) as [Hs | Hs].
        -- rewrite (H3 Hs). lra.
        -- apply H2. lra.
      * intros Hc. lra.
Qed.

(** Every real lies within some number of turns of the range. *)
Lemma turns_bound r :
  exists n, r <= 180 + 360 * INR n /\ -180 - 360 * INR n <= r.
Proof.
  destruct (INR_unbounded (Rabs r / 360)) as [n Hn].
  exists n.
  assert (Rabs r < 360 * INR n) by lra.
  pose proof (Rle_abs r). pose proof (Rle_abs (- r)) as H1.
  rewrite Rabs_Ropp in H1. lra.
Qed.

(** A value of the closed range passes both loops untouched, with any fuel. *)
Lemma normalize_fixed fuel r :
  -180 <= r <= 180 -> Tab.normalize fuel r = Some r.
Proof.
  intros [Hl Hh]. unfold Tab.normalize.
  rewrite while_above_unfold, gtb_false by lra.
  rewrite while_below_unfold, ltb_false by lra. reflexivity.
Qed.

(** The two loops end and leave a value of the closed range. *)
Lemma normalize_total r :
  exists n r',
    (forall fuel, (n <= fuel)%nat -> Tab.normalize fuel r = Some r') /\
    -180 <= r' <= 180.
Proof.
  destruct (turns_bound r) as (n & Hup & Hlow).
  destruct (while_above_spec n r Hup n (le_n n)) as (r1 & E1 & H1 & H2 & H3).
  assert (Hr1 : -180 - 360 * INR n <= r1).
  { destruct (Rle_dec r 180) as [Hs | Hs].
    - rewrite (H3 Hs). exact Hlow.
    - pose proof (pos_INR n). assert (-180 < r1) by (apply H2; lra). lra. }
  destruct (while_below_spec n r1 Hr1 n (le_n n)) as (r2 & E2 & G1 & G2 & G3).
  exists n, r2. split.
  - intros fuel Hf. unfold Tab.normalize.
    destruct (while_above_spec n r Hup fuel Hf) as (q1 & F1 & K1 & K2 & K3).
    assert (q1 = r1).
    { destruct (Rle_dec r 180) as [Hs | Hs].
      - rewrite (K3 Hs), (H3 Hs). reflexivity.
      - clear - E1 F1 Hf. revert r fuel Hf E1 F1.
        induction n as [|n IH]; intros r fuel Hf E1 F1.
        + rewrite while_above_unfold in E1, F1.
          destruct (Py.gtb r 180); [discriminate | congruence].
        + destruct fuel as [|fuel]; [lia |].
          rewrite while_above_unfold in E1, F1.
          destruct (Py.gtb r 180); [| congruence].
          apply (IH (r - 360) fuel); [lia | assumption | assumption]. }
    subst q1. rewrite F1.
    destruct (while_below_spec n r1 Hr1 fuel Hf) as (q2 & F2 & L1 & L2 & L3).
    rewrite F2. f_equal.
    destruct (Rle_dec (-180) r1) as [Hs | Hs].
    + rewrite (L3 Hs), (G3 Hs). reflexivity.
    + clear - E2 F2 Hf. revert r1 fuel Hf E2 F2.
      induction n as [|n IH]; intros r fuel Hf E2 F2.
      * rewrite while_below_unfold in E2, F2.
        destruct (Py.ltb r (-180)); [discriminate | congruence].
      * destruct fuel as [|fuel]; [lia |].
        rewrite while_below_unfold in E2, F2.
        destruct (Py.ltb r (-180)); [| congruence].
        apply (IH (r + 360) fuel); [lia | assumption | assumption].
  - split; [exact G1 |].
    destruct (Rle_dec (-180) r1) as [Hs | Hs].
    + rewrite (G3 Hs). exact H1.
    + apply Rlt_le, G2. lra.
Qed.

(** C3, as amended.  With the background active, applying a rotation
    delta to any drag-start baseline ends (with enough fuel for the two
    loops) and stores a rotation of the closed interval [-180, 180];
    normalising is idempotent: for every angle the loops end on a value
    that they then leave unchanged. *)
Theorem rotation_normalized_closed :
  forall tab angle_delta,
    Tab.active_layer tab = Tab.background ->
    (exists n tab',
       (forall fuel, (n <= fuel)%nat ->
          Tab._on_handle_rotation fuel tab angle_delta = Some tab') /\
       -180 <= Tab.rotation tab' <= 180) /\
    (forall r, exists n r',
       (forall fuel, (n <= fuel)%nat ->
          Tab.normalize fuel r = Some r' /\ Tab.normalize fuel r' = Some r')).
Proof.
  intros tab angle_delta Hbg. split.
  - destruct (normalize_total (Tab.transform_start_rotation tab + angle_delta))
      as (n & r' & Hn & Hr).
    exists n, (Tab.set_rotation tab r'). split.
    + intros fuel Hf. unfold Tab._on_handle_rotation.
      rewrite Hbg, (Hn fuel Hf). reflexivity.
    + exact Hr.
  - intros r. destruct (normalize_total r) as (n & r' & Hn & Hr).
    exists n, r'. intros fuel Hf. split.
    + apply Hn, Hf.
    + apply normalize_fixed, Hr.
Qed.

(** The initial tab has the background active; a delta of 190 degrees
    is normalised there. *)
Lemma rotation_normalized_closed_witness :
  Tab.active_layer Tab.init = Tab.background /\
  exists n tab',
    (forall fuel, (n <= fuel)%nat ->
       Tab._on_handle_rotation fuel Tab.init 190 = Some tab') /\
    -180 <= Tab.rotation tab' <= 180.
Proof.
  split; [reflexivity |].
  exact (proj1 (rotation_normalized_closed Tab.init 190 eq_refl)).
Defined.

(** C3, as stated, fails at the lower end: from baseline 0 the delta
    -180 is stored as -180, which is outside (-180, 180]. *)
Lemma rotation_minus_180_is_stored :
  exists tab',
    (forall fuel, Tab._on_handle_rotation fuel Tab.init (-180) = Some tab') /\
    Tab.rotation tab' = -180 /\
    ~ (-180 < Tab.rotation tab' <= 180).
Proof.
  exists (Tab.set_rotation Tab.init (-180)). split; [| split].
  - intros fuel. unfold Tab._on_handle_rotation; simpl.
    replace (0 + -180) with (-180) by lra.
    rewrite normalize_fixed by lra. reflexivity.
  - reflexivity.
  - simpl. lra.
Qed.

(** ** The layer model: position *)

(** What the position slot stores: the clamped target on the active
    layer, everything else as it was. *)
Lemma handle_position_value tab delta_x delta_y :
  Spec.active_offsets (Tab._on_handle_position tab delta_x delta_y) =
  (Py.max 0 (Py.min 1 (fst (Spec.position_target tab delta_x delta_y))),
   Py.max 0 (Py.min 1 (snd (Spec.position_target tab delta_x delta_y)))).
Proof.
  unfold Spec.active_offsets, Spec.position_target, Tab._on_handle_position.
  destruct (Tab.active_layer tab) eqn:E; simpl; rewrite E.
  - destruct (Py.ltb (Tab.zoom tab) 1); reflexivity.
  - reflexivity.
Qed.

Lemma handle_position_in_range tab delta_x delta_y :
  Spec.unit_range (fst (Spec.active_offsets (Tab._on_handle_position tab delta_x delta_y))) /\
  Spec.unit_range (snd (Spec.active_offsets (Tab._on_handle_position tab delta_x delta_y))).
Proof.
  rewrite handle_position_value; simpl.
  unfold Spec.unit_range; split; apply clamp_range; lra.
Qed.

Lemma handle_position_keeps_range tab delta_x delta_y :
  Spec.offsets_in_range tab ->
  Spec.offsets_in_range (Tab._on_handle_position tab delta_x delta_y).
Proof.
  unfold Spec.offsets_in_range, Spec.unit_range, Tab._on_handle_position.
  intros (H1 & H2 & H3 & H4).
  destruct (Tab.active_layer tab); simpl;
    repeat split; try apply clamp_range; lra.
Qed.

(** An idle clamp stores the target itself. *)
Lemma handle_position_idle tab delta_x delta_y :
  Spec.clamp_idle tab delta_x delta_y ->
  Spec.active_offsets (Tab._on_handle_position tab delta_x delta_y) =
  Spec.position_target tab delta_x delta_y.
Proof.
  intros [Hx Hy]. rewrite handle_position_value.
  unfold Spec.unit_range in Hx, Hy.
  rewrite !clamp_id by assumption.
  destruct (Spec.position_target tab delta_x delta_y); reflexivity.
Qed.

(** C9.  On the background layer the delta is negated exactly when
    zoom < 1: below 1 the slot stores clamp(offset - delta); at zoom 1
    and above it stores clamp(offset + delta). *)
Theorem pan_inversion_boundary :
  forall tab delta_x delta_y,
    Tab.active_layer tab = Tab.background ->
    (Tab.zoom tab < 1 ->
       Tab.offset_x (Tab._on_handle_position tab delta_x delta_y)
         = Py.max 0 (Py.min 1 (Tab.offset_x tab + - delta_x)) /\
       Tab.offset_y (Tab._on_handle_position tab delta_x delta_y)
         = Py.max 0 (Py.min 1 (Tab.offset_y tab + - delta_y))) /\
    (1 <= Tab.zoom tab ->
       Tab.offset_x (Tab._on_handle_position tab delta_x delta_y)
         = Py.max 0 (Py.min 1 (Tab.offset_x tab + delta_x)) /\
       Tab.offset_y (Tab._on_handle_position tab delta_x delta_y)
         = Py.max 0 (Py.min 1 (Tab.offset_y tab + delta_y))).
Proof.
  intros tab delta_x delta_y Hbg. unfold Tab._on_handle_position. rewrite Hbg.
  split; intros Hz; simpl.
  - rewrite ltb_true by assumption. split; reflexivity.
  - rewrite ltb_false by assumption. split; reflexivity.
Qed.

(** At zoom exactly 1 (the initial tab) a delta of 1/4 moves the
    horizontal offset from 1/2 to 3/4: no inversion. *)
Lemma pan_inversion_boundary_witness :
  Tab.active_layer Tab.init = Tab.background /\ 1 <= Tab.zoom Tab.init /\
  Tab.offset_x (Tab._on_handle_position Tab.init (1/4) 0) = 3/4.
Proof.
  split; [reflexivity |]. split; [simpl; lra |].
  destruct (pan_inversion_boundary Tab.init (1/4) 0 eq_refl) as [_ H].
  destruct H as [Hx _]; [simpl; lra |].
  rewrite Hx. simpl. rewrite clamp_id; lra.
Defined.

(** C8, as amended.  After a position delta the offsets of the layer it
    moves lie in [0, 1], and the four offsets stay in [0, 1] once they
    are; in real arithmetic, when the clamp is idle for +d and again for
    -d, the second application restores the tab exactly. *)
Theorem offsets_clamped_round_trip :
  forall tab delta_x delta_y,
    (Spec.unit_range
       (fst (Spec.active_offsets (Tab._on_handle_position tab delta_x delta_y))) /\
     Spec.unit_range
       (snd (Spec.active_offsets (Tab._on_handle_position tab delta_x delta_y)))) /\
    (Spec.offsets_in_range tab ->
     Spec.offsets_in_range (Tab._on_handle_position tab delta_x delta_y)) /\
    (Spec.clamp_idle tab delta_x delta_y ->
     Spec.clamp_idle (Tab._on_handle_position tab delta_x delta_y)
       (- delta_x) (- delta_y) ->
     Tab._on_handle_position (Tab._on_handle_position tab delta_x delta_y)
       (- delta_x) (- delta_y) = tab).
Proof.
  intros tab delta_x delta_y. split; [apply handle_position_in_range |].
  split; [apply handle_position_keeps_range |].
  unfold Spec.clamp_idle, Spec.position_target, Spec.unit_range,
    Tab._on_handle_position.
  destruct tab as [bg lg rot zm ox oy ls lx ly op al tz tr tl]; simpl.
  destruct al; simpl.
  - destruct (Py.ltb zm 1); simpl; intros [H1x H1y] [H2x H2y].
    + rewrite (clamp_id 0 1 (ox + - delta_x)) in * by lra.
      rewrite (clamp_id 0 1 (oy + - delta_y)) in * by lra.
      rewrite !clamp_id by lra.
      unfold Tab.set_offset; simpl; f_equal; lra.
    + rewrite (clamp_id 0 1 (ox + delta_x)) in * by lra.
      rewrite (clamp_id 0 1 (oy + delta_y)) in * by lra.
      rewrite !clamp_id by lra.
      unfold Tab.set_offset; simpl; f_equal; lra.
  - intros [H1x H1y] [H2x H2y].
    rewrite (clamp_id 0 1 (lx - delta_x)) in * by lra.
    rewrite (clamp_id 0 1 (ly - delta_y)) in * by lra.
    rewrite !clamp_id by lra.
    unfold Tab.set_logo_offset; simpl; f_equal; lra.
Qed.

(** From the centre, +1/4 then -1/4 engages no clamp and comes back. *)
Lemma offsets_clamped_round_trip_witness :
  Spec.clamp_idle Tab.init (1/4) (-1/8) /\
  Tab._on_handle_position (Tab._on_handle_position Tab.init (1/4) (-1/8))
    (- (1/4)) (- (-1/8)) = Tab.init.
Proof.
  assert (H1 : Spec.clamp_idle Tab.init (1/4) (-1/8)).
  { unfold Spec.clamp_idle, Spec.position_target, Spec.unit_range; simpl.
    rewrite ltb_false by lra. simpl. lra. }
  split; [exact H1 |].
  apply (proj2 (proj2 (offsets_clamped_round_trip Tab.init (1/4) (-1/8))) H1).
  unfold Spec.clamp_idle, Spec.position_target, Spec.unit_range,
    Tab._on_handle_position; simpl.
  rewrite ltb_false by lra. simpl.
  rewrite !clamp_id by lra. lra.
Defined.

(** C8, as stated, fails on the floats the program computes with.
    From the initial offsets, a 2-pixel drag of the move handle in an
    800-pixel widget stores 0.4975; a 24-pixel drag (delta +d) and the
    same drag back (delta -d) keep every value strictly inside (0, 1),
    so no clamp is engaged, and the offset that comes back is not
    0.4975. *)
Lemma float_round_trip_is_inexact :
  Float64.step_back = PrimFloat.opp Float64.step /\
  PrimFloat.ltb Float64.zero (Float64.unclamped_x Float64.start Float64.step) = true /\
  PrimFloat.ltb (Float64.unclamped_x Float64.start Float64.step) Float64.one = true /\
  PrimFloat.ltb Float64.zero
    (Float64.unclamped_x Float64.there (PrimFloat.opp Float64.step)) = true /\
  PrimFloat.ltb (Float64.unclamped_x Float64.there (PrimFloat.opp Float64.step))
    Float64.one = true /\
  PrimFloat.eqb (Float64.offset_x Float64.back) (Float64.offset_x Float64.start)
    = false /\
  Float64.offset_x Float64.back <> Float64.offset_x Float64.start.
Proof.
  repeat split; try (vm_compute; reflexivity).
  intros E.
  assert (H : PrimFloat.eqb (Float64.offset_x Float64.back)
                (Float64.offset_x Float64.start) = false)
    by (vm_compute; reflexivity).
  rewrite E in H. vm_compute in H. discriminate H.
Qed.

(** ** Corner and edge drags *)

Lemma corner_fixed_point ov h :
  Overlay.active_handle ov = h -> Spec.is_corner h ->
  match Overlay.active_handle ov with
  | Overlay.HANDLE_TL => Qt.bottomRight (Overlay.drag_start_bounds ov)
  | Overlay.HANDLE_TR => Qt.bottomLeft (Overlay.drag_start_bounds ov)
  | Overlay.HANDLE_BL => Qt.topRight (Overlay.drag_start_bounds ov)
  | _ => Qt.topLeft (Overlay.drag_start_bounds ov)
  end = Spec.box_point (Spec.opposite h) (Overlay.drag_start_bounds ov).
Proof.
  intros -> Hc. unfold Spec.is_corner in Hc. simpl in Hc.
  destruct Hc as [<- | [<- | [<- | [<- | []]]]]; reflexivity.
Qed.

(** A corner drag with a positive reference distance emits the ratio of
    the two distances on both axes. *)
Lemma corner_scale_emits ov p h :
  Overlay.active_handle ov = h -> Spec.is_corner h ->
  0 < Spec.distance (Spec.box_point (Spec.opposite h) (Overlay.drag_start_bounds ov))
        (Overlay.drag_start_pos ov) ->
  Overlay._handle_corner_scale ov p =
  Some [Overlay.scale_changed
          (Spec.distance (Spec.box_point (Spec.opposite h) (Overlay.drag_start_bounds ov)) p
           / Spec.distance (Spec.box_point (Spec.opposite h) (Overlay.drag_start_bounds ov))
               (Overlay.drag_start_pos ov))
          (Spec.distance (Spec.box_point (Spec.opposite h) (Overlay.drag_start_bounds ov)) p
           / Spec.distance (Spec.box_point (Spec.opposite h) (Overlay.drag_start_bounds ov))
               (Overlay.drag_start_pos ov))].
Proof.
  intros Hh Hc Hd. unfold Overlay._handle_corner_scale.
  rewrite (corner_fixed_point ov h Hh Hc).
  unfold Spec.distance in *.
  rewrite ltb_true by exact Hd.
  rewrite div_some by lra. reflexivity.
Qed.

(** With a reference distance that is not positive it emits nothing,
    and raises nothing. *)
Lemma corner_scale_silent ov p h :
  Overlay.active_handle ov = h -> Spec.is_corner h ->
  Spec.distance (Spec.box_point (Spec.opposite h) (Overlay.drag_start_bounds ov))
    (Overlay.drag_start_pos ov) <= 0 ->
  Overlay._handle_corner_scale ov p = Some [].
Proof.
  intros Hh Hc Hd. unfold Overlay._handle_corner_scale.
  rewrite (corner_fixed_point ov h Hh Hc).
  unfold Spec.distance in *.
  rewrite ltb_false by exact Hd. reflexivity.
Qed.

(** The corner drag never reads the aspect lock. *)
Lemma corner_scale_ignores_lock ov p locked :
  Overlay._handle_corner_scale (Overlay.set_lock_aspect_ratio ov locked) p =
  Overlay._handle_corner_scale ov p.
Proof. reflexivity. Qed.

(** An edge drag with both half-extents positive emits their ratio:
    on both axes under the aspect lock, on the dragged axis otherwise. *)
Lemma edge_scale_emits ov p h :
  Overlay.active_handle ov = h -> Spec.is_edge h ->
  0 < Spec.half0 h (Overlay.drag_start_bounds ov) ->
  0 < Spec.half1 h (Overlay.drag_start_bounds ov) p ->
  Overlay._handle_edge_scale ov p =
  Some [Spec.edge_delta (Overlay.lock_aspect_ratio ov) h
          (Spec.half1 h (Overlay.drag_start_bounds ov) p
           / Spec.half0 h (Overlay.drag_start_bounds ov))].
Proof.
  intros Hh He H0 H1. unfold Overlay._handle_edge_scale. rewrite Hh.
  unfold Spec.is_edge in He. simpl in He.
  destruct He as [<- | [<- | [<- | [<- | []]]]]; simpl in *;
    rewrite !ltb_true by assumption; simpl;
    rewrite div_some by lra; unfold Spec.edge_delta;
    destruct (Overlay.lock_aspect_ratio ov); reflexivity.
Qed.

(** If either half-extent is not positive it emits nothing. *)
Lemma edge_scale_silent ov p h :
  Overlay.active_handle ov = h -> Spec.is_edge h ->
  Spec.half0 h (Overlay.drag_start_bounds ov) <= 0 \/
  Spec.half1 h (Overlay.drag_start_bounds ov) p <= 0 ->
  Overlay._handle_edge_scale ov p = Some [].
Proof.
  intros Hh He Hd. unfold Overlay._handle_edge_scale. rewrite Hh.
  unfold Spec.is_edge in He. simpl in He.
  destruct He as [<- | [<- | [<- | [<- | []]]]]; simpl in *;
    (destruct Hd as [Hd | Hd];
     [ rewrite (ltb_false 0 _ Hd); reflexivity
     | rewrite (ltb_false 0 _ Hd), andb_false_r; reflexivity ]).
Qed.

Lemma sqrt_double_square a : 0 <= a -> sqrt (a ^ 2 + a ^ 2) = a * sqrt 2.
Proof.
  intros Ha. replace (a ^ 2 + a ^ 2) with (a ^ 2 * 2) by ring.
  rewrite sqrt_mult by nra. rewrite sqrt_pow2 by exact Ha. reflexivity.
Qed.

(** C4.  For a corner handle the fixed point is the corner of the
    drag-start bounds opposite the dragged one; whenever the distance d0
    from it to the drag-start pointer is positive, the drag emits d1/d0
    on both axes, whatever the aspect lock is set to.  Scenario B
    (fixed corner (500, 500), start (600, 600), pointer (700, 700))
    emits the factor 2. *)
Theorem corner_drag_uniform_scale :
  (forall ov p h locked,
     Overlay.active_handle ov = h -> Spec.is_corner h ->
     0 < Spec.distance
           (Spec.box_point (Spec.opposite h) (Overlay.drag_start_bounds ov))
           (Overlay.drag_start_pos ov) ->
     Overlay._handle_corner_scale (Overlay.set_lock_aspect_ratio ov locked) p =
     Some [Overlay.scale_changed
             (Spec.distance
                (Spec.box_point (Spec.opposite h) (Overlay.drag_start_bounds ov)) p
              / Spec.distance
                  (Spec.box_point (Spec.opposite h) (Overlay.drag_start_bounds ov))
                  (Overlay.drag_start_pos ov))
             (Spec.distance
                (Spec.box_point (Spec.opposite h) (Overlay.drag_start_bounds ov)) p
              / Spec.distance
                  (Spec.box_point (Spec.opposite h) (Overlay.drag_start_bounds ov))
                  (Overlay.drag_start_pos ov))]) /\
  (forall ov,
     Overlay.active_handle ov = Overlay.HANDLE_BR ->
     Qt.topLeft (Overlay.drag_start_bounds ov) = Qt.mkPoint 500 500 ->
     Overlay.drag_start_pos ov = Qt.mkPoint 600 600 ->
     Overlay._handle_corner_scale ov (Qt.mkPoint 700 700) =
     Some [Overlay.scale_changed 2 2]).
Proof.
  split.
  - intros ov p h locked Hh Hc Hd.
    rewrite corner_scale_ignores_lock. now apply corner_scale_emits.
  - intros ov Hh Hf Hs.
    assert (Hc : Spec.is_corner Overlay.HANDLE_BR) by (red; simpl; intuition).
    assert (H0 : Spec.distance
                   (Spec.box_point (Spec.opposite Overlay.HANDLE_BR)
                      (Overlay.drag_start_bounds ov))
                   (Overlay.drag_start_pos ov) = 100 * sqrt 2).
    { simpl. rewrite Hf, Hs. unfold Spec.distance; simpl.
      replace (600 - 500) with 100 by lra. apply sqrt_double_square; lra. }
    assert (H1 : Spec.distance
                   (Spec.box_point (Spec.opposite Overlay.HANDLE_BR)
                      (Overlay.drag_start_bounds ov))
                   (Qt.mkPoint 700 700) = 200 * sqrt 2).
    { simpl. rewrite Hf. unfold Spec.distance; simpl.
      replace (700 - 500) with 200 by lra. apply sqrt_double_square; lra. }
    pose proof Rlt_sqrt2_0 as Hpos.
    rewrite (corner_scale_emits ov _ _ Hh Hc) by (rewrite H0; lra).
    rewrite H0, H1.
    replace (200 * sqrt 2 / (100 * sqrt 2)) with 2 by (field; lra).
    reflexivity.
Qed.

(** Scenario B on a concrete overlay. *)
Lemma corner_drag_uniform_scale_witness :
  Overlay._handle_corner_scale Scenario.B (Qt.mkPoint 700 700) =
  Some [Overlay.scale_changed 2 2].
Proof.
  apply (proj2 corner_drag_uniform_scale Scenario.B); reflexivity.
Defined.

(** C5.  For an edge handle, with half0 the half-extent of the
    drag-start bounds along the dragged axis and half1 the signed
    distance of the pointer from the drag-start centre on the handle's
    side: a delta is emitted exactly when both are positive; under the
    aspect lock it is (half1/half0, half1/half0), without it the
    dragged axis gets half1/half0 and the other axis gets 1.
    Scenario C (width 200, centre x = 300, pointer x = 450, lock off)
    emits (1.5, 1). *)
Theorem edge_drag_scale :
  (forall ov p h,
     Overlay.active_handle ov = h -> Spec.is_edge h ->
     (0 < Spec.half0 h (Overlay.drag_start_bounds ov) ->
      0 < Spec.half1 h (Overlay.drag_start_bounds ov) p ->
      Overlay._handle_edge_scale ov p =
      Some [Spec.edge_delta (Overlay.lock_aspect_ratio ov) h
              (Spec.half1 h (Overlay.drag_start_bounds ov) p
               / Spec.half0 h (Overlay.drag_start_bounds ov))]) /\
     (Spec.half0 h (Overlay.drag_start_bounds ov) <= 0 \/
      Spec.half1 h (Overlay.drag_start_bounds ov) p <= 0 ->
      Overlay._handle_edge_scale ov p = Some [])) /\
  (forall s,
     Spec.edge_delta true Overlay.HANDLE_L s = Overlay.scale_changed s s /\
     Spec.edge_delta true Overlay.HANDLE_T s = Overlay.scale_changed s s /\
     Spec.edge_delta false Overlay.HANDLE_L s = Overlay.scale_changed s 1 /\
     Spec.edge_delta false Overlay.HANDLE_R s = Overlay.scale_changed s 1 /\
     Spec.edge_delta false Overlay.HANDLE_T s = Overlay.scale_changed 1 s /\
     Spec.edge_delta false Overlay.HANDLE_B s = Overlay.scale_changed 1 s) /\
  (forall ov p,
     Overlay.active_handle ov = Overlay.HANDLE_R ->
     Overlay.lock_aspect_ratio ov = false ->
     Qt.width (Overlay.drag_start_bounds ov) = 200 ->
     Qt.x (Qt.center (Overlay.drag_start_bounds ov)) = 300 ->
     Qt.x p = 450 ->
     Overlay._handle_edge_scale ov p = Some [Overlay.scale_changed (3/2) 1]).
Proof.
  split; [| split].
  - intros ov p h Hh He. split.
    + now apply edge_scale_emits.
    + now apply edge_scale_silent.
  - intros s. repeat split.
  - intros ov p Hh Hl Hw Hc Hp.
    assert (He : Spec.is_edge Overlay.HANDLE_R) by (red; simpl; intuition).
    simpl in Hc. rewrite Hw in Hc.
    rewrite (edge_scale_emits ov p _ Hh He); simpl;
      rewrite ?Hw, ?Hp; try lra.
    replace (Qt.left (Overlay.drag_start_bounds ov) + 200 / 2) with 300 by lra.
    rewrite Hl; simpl. do 2 f_equal. f_equal; lra.
Qed.

(** Scenario C on a concrete overlay. *)
Lemma edge_drag_scale_witness :
  Overlay._handle_edge_scale Scenario.C (Qt.mkPoint 450 260) =
  Some [Overlay.scale_changed (3/2) 1].
Proof.
  apply (proj2 (proj2 edge_drag_scale) Scenario.C); simpl; try reflexivity; lra.
Defined.

(** ** A move event during a corner or edge drag *)

Lemma is_corner_cases h :
  Spec.is_corner h ->
  h = Overlay.HANDLE_TL \/ h = Overlay.HANDLE_TR \/
  h = Overlay.HANDLE_BL \/ h = Overlay.HANDLE_BR.
Proof. unfold Spec.is_corner; simpl; intuition. Qed.

Lemma is_edge_cases h :
  Spec.is_edge h ->
  h = Overlay.HANDLE_T \/ h = Overlay.HANDLE_B \/
  h = Overlay.HANDLE_L \/ h = Overlay.HANDLE_R.
Proof. unfold Spec.is_edge; simpl; intuition. Qed.

Lemma move_event_corner ov p :
  Spec.is_corner (Overlay.active_handle ov) ->
  Overlay.mouseMoveEvent ov p =
  match Overlay._handle_corner_scale ov p with
  | Some emitted => Some (ov, emitted)
  | None => None
  end.
Proof.
  intros Hc. unfold Overlay.mouseMoveEvent, Overlay._handle_drag.
  destruct (is_corner_cases _ Hc) as [E | [E | [E | E]]]; rewrite E; reflexivity.
Qed.

Lemma move_event_edge ov p :
  Spec.is_edge (Overlay.active_handle ov) ->
  Overlay.mouseMoveEvent ov p =
  match Overlay._handle_edge_scale ov p with
  | Some emitted => Some (ov, emitted)
  | None => None
  end.
Proof.
  intros He. unfold Overlay.mouseMoveEvent, Overlay._handle_drag.
  destruct (is_edge_cases _ He) as [E | [E | [E | E]]]; rewrite E; reflexivity.
Qed.

(** A move event that emits nothing leaves overlay and tab as they were. *)
Lemma pointer_move_silent fuel ov tab p :
  Overlay.mouseMoveEvent ov p = Some (ov, []) ->
  App.pointer_move fuel (ov, tab) p = Some (ov, tab).
Proof. intros E. unfold App.pointer_move; simpl. rewrite E. reflexivity. Qed.

(** A move event that emits one scale delta runs [_on_handle_scale] once. *)
Lemma pointer_move_scale fuel ov tab p scale_x scale_y :
  Overlay.mouseMoveEvent ov p = Some (ov, [Overlay.scale_changed scale_x scale_y]) ->
  App.pointer_move fuel (ov, tab) p =
  Some (ov, Tab._on_handle_scale tab scale_x scale_y).
Proof. intros E. unfold App.pointer_move; simpl. rewrite E. reflexivity. Qed.

(** C7.  During a corner drag whose reference distance, or an edge drag
    whose reference half-extent, is zero or negative, a move event
    raises nothing and emits nothing, so overlay and tab are unchanged;
    with positive distances (both half-extents, for an edge) the same
    event emits one scale delta, which the tab applies. *)
Theorem degenerate_drag_is_ignored :
  (forall fuel ov tab p h,
     Overlay.active_handle ov = h ->
     (Spec.is_corner h /\
      Spec.distance (Spec.box_point (Spec.opposite h) (Overlay.drag_start_bounds ov))
        (Overlay.drag_start_pos ov) <= 0) \/
     (Spec.is_edge h /\ Spec.half0 h (Overlay.drag_start_bounds ov) <= 0) ->
     Overlay.mouseMoveEvent ov p = Some (ov, []) /\
     App.pointer_move fuel (ov, tab) p = Some (ov, tab)) /\
  (forall fuel ov tab p h,
     Overlay.active_handle ov = h ->
     (Spec.is_corner h /\
      0 < Spec.distance (Spec.box_point (Spec.opposite h) (Overlay.drag_start_bounds ov))
            (Overlay.drag_start_pos ov)) \/
     (Spec.is_edge h /\ 0 < Spec.half0 h (Overlay.drag_start_bounds ov) /\
      0 < Spec.half1 h (Overlay.drag_start_bounds ov) p) ->
     exists scale_x scale_y,
       Overlay.mouseMoveEvent ov p =
         Some (ov, [Overlay.scale_changed scale_x scale_y]) /\
       App.pointer_move fuel (ov, tab) p =
         Some (ov, Tab._on_handle_scale tab scale_x scale_y)).
Proof.
  split.
  - intros fuel ov tab p h Hh Hd.
    assert (E : Overlay.mouseMoveEvent ov p = Some (ov, [])).
    { destruct Hd as [[Hc Hd] | [He Hd]].
      - rewrite move_event_corner by (rewrite Hh; exact Hc).
        now rewrite (corner_scale_silent ov p h).
      - rewrite move_event_edge by (rewrite Hh; exact He).
        rewrite (edge_scale_silent ov p h); auto. }
    split; [exact E | now apply pointer_move_silent].
  - intros fuel ov tab p h Hh Hd.
    destruct Hd as [[Hc Hd] | [He [H0 H1]]].
    + eexists _, _. 
      assert (E : Overlay.mouseMoveEvent ov p = Some (ov, [Overlay.scale_changed
        (Spec.distance (Spec.box_point (Spec.opposite h) (Overlay.drag_start_bounds ov)) p
         / Spec.distance (Spec.box_point (Spec.opposite h) (Overlay.drag_start_bounds ov))
             (Overlay.drag_start_pos ov))
        (Spec.distance (Spec.box_point (Spec.opposite h) (Overlay.drag_start_bounds ov)) p
         / Spec.distance (Spec.box_point (Spec.opposite h) (Overlay.drag_start_bounds ov))
             (Overlay.drag_start_pos ov))])).
      { rewrite move_event_corner by (rewrite Hh; exact Hc).
        now rewrite (corner_scale_emits ov p h). }
      split; [exact E | now apply pointer_move_scale].
    + assert (E : Overlay.mouseMoveEvent ov p =
                  Some (ov, [Spec.edge_delta (Overlay.lock_aspect_ratio ov) h
                               (Spec.half1 h (Overlay.drag_start_bounds ov) p
                                / Spec.half0 h (Overlay.drag_start_bounds ov))])).
      { rewrite move_event_edge by (rewrite Hh; exact He).
        now rewrite (edge_scale_emits ov p h). }
      revert E. unfold Spec.edge_delta.
      destruct (Overlay.lock_aspect_ratio ov);
        [| destruct (is_edge_cases _ He) as [-> | [-> | [-> | ->]]]];
        intros E; eexists _, _; (split; [exact E | now apply pointer_move_scale]).
Qed.

(** A top-left corner grabbed at the opposite corner: distance zero,
    and the move event changes nothing. *)
Lemma degenerate_drag_is_ignored_witness :
  Spec.distance
    (Spec.box_point (Spec.opposite Overlay.HANDLE_TL)
       (Overlay.drag_start_bounds Scenario.degenerate_corner))
    (Overlay.drag_start_pos Scenario.degenerate_corner) <= 0 /\
  App.pointer_move 0 (Scenario.degenerate_corner, Tab.init) (Qt.mkPoint 3 4) =
  Some (Scenario.degenerate_corner, Tab.init).
Proof.
  assert (H : Spec.distance
                (Spec.box_point (Spec.opposite Overlay.HANDLE_TL)
                   (Overlay.drag_start_bounds Scenario.degenerate_corner))
                (Overlay.drag_start_pos Scenario.degenerate_corner) <= 0).
  { unfold Spec.distance; simpl.
    match goal with |- sqrt ?e <= 0 => replace e with 0 by ring end.
    rewrite sqrt_0. lra. }
  split; [exact H |].
  apply (proj1 degenerate_drag_is_ignored 0%nat Scenario.degenerate_corner Tab.init
           (Qt.mkPoint 3 4) Overlay.HANDLE_TL eq_refl).
  left. split; [red; simpl; intuition | exact H].
Defined.

(** ** Hit testing *)

Lemma Rabs_le_bounds a b : Rabs a <= b -> - b <= a <= b.
Proof.
  intros H. pose proof (Rle_abs a). pose proof (Rle_abs (- a)) as H1.
  rewrite Rabs_Ropp in H1. lra.
Qed.

Lemma point_in_handle_iff p c size :
  Overlay._point_in_handle p c size = true <->
  Rabs (Qt.x p - Qt.x c) <= size / 2 + 4 /\ Rabs (Qt.y p - Qt.y c) <= size / 2 + 4.
Proof.
  unfold Overlay._point_in_handle. rewrite andb_true_iff, !leb_iff. tauto.
Qed.

Lemma in_hit_area_true ov h p :
  - (Spec.hit_size h / 2 + 4) <= Qt.x p - Qt.x (Spec.anchor ov h) <= Spec.hit_size h / 2 + 4 ->
  - (Spec.hit_size h / 2 + 4) <= Qt.y p - Qt.y (Spec.anchor ov h) <= Spec.hit_size h / 2 + 4 ->
  Spec.in_hit_area ov h p = true.
Proof.
  intros Hx Hy. unfold Spec.in_hit_area. apply point_in_handle_iff.
  split; apply Rabs_le; assumption.
Qed.

Lemma in_hit_area_false ov h p :
  Spec.hit_size h / 2 + 4 < Rabs (Qt.x p - Qt.x (Spec.anchor ov h)) \/
  Spec.hit_size h / 2 + 4 < Rabs (Qt.y p - Qt.y (Spec.anchor ov h)) ->
  Spec.in_hit_area ov h p = false.
Proof.
  intros H. unfold Spec.in_hit_area.
  destruct (Overlay._point_in_handle p (Spec.anchor ov h) (Spec.hit_size h)) eqn:E;
    [| reflexivity].
  apply point_in_handle_iff in E. lra.
Qed.

(** Without rotation a handle sits on its box anchor. *)
Lemma anchor_unrotated ov h :
  Overlay.rotation ov = 0 -> Spec.anchor ov h = Spec.box_point h (Overlay.bounds ov).
Proof. intros E. unfold Spec.anchor. now apply about_zero. Qed.

Lemma lookup_map (f : Qt.QPointF -> Qt.QPointF) h positions :
  Overlay.lookup h (List.map (fun kv => (fst kv, f (snd kv))) positions) =
  option_map f (Overlay.lookup h positions).
Proof.
  induction positions as [| [k v] rest IH]; simpl; [reflexivity |].
  destruct (Overlay.handle_eqb h k); [reflexivity | exact IH].
Qed.

(** The dict built by [get_handle_positions] holds every handle of the
    priority list at its anchor. *)
Lemma positions_lookup ov h :
  Qt.isEmpty (Overlay.bounds ov) = false ->
  In h Spec.priority_order ->
  Overlay.lookup h (Overlay.get_handle_positions ov) = Some (Spec.anchor ov h).
Proof.
  intros Hne Hin. unfold Overlay.get_handle_positions. rewrite Hne.
  unfold Py.eqb. destruct (Req_dec_T (Overlay.rotation ov) 0) as [E0 | Hrot];
    cbn [negb].
  - rewrite (anchor_unrotated ov h E0).
    unfold Spec.priority_order in Hin. simpl in Hin.
    destruct Hin as [<- | [<- | [<- | [<- | [<- | [<- | [<- | [<- | [<- | []]]]]]]]]];
      simpl; f_equal; unfold Qt.topLeft, Qt.topRight, Qt.bottomLeft, Qt.bottomRight;
      simpl; f_equal; lra.
  - rewrite lookup_map. unfold Spec.anchor.
    unfold Spec.priority_order in Hin. simpl in Hin.
    destruct Hin as [<- | [<- | [<- | [<- | [<- | [<- | [<- | [<- | [<- | []]]]]]]]]];
      simpl; do 2 f_equal;
      unfold Qt.topLeft, Qt.topRight, Qt.bottomLeft, Qt.bottomRight;
      simpl; f_equal; lra.
Qed.

(** The loop over a list of handles finds the first one whose hit area
    holds the point. *)
Lemma first_hit_first_match ov p size hs :
  Qt.isEmpty (Overlay.bounds ov) = false ->
  (forall h, In h hs -> In h Spec.priority_order /\ Spec.hit_size h = size) ->
  Overlay.first_hit (Overlay.get_handle_positions ov) p size hs =
  Spec.first_match ov p hs.
Proof.
  intros Hne. induction hs as [| h rest IH]; intros Hall; simpl; [reflexivity |].
  destruct (Hall h (or_introl eq_refl)) as [Hin Hsize].
  rewrite (positions_lookup ov h Hne Hin).
  unfold Spec.in_hit_area. rewrite Hsize.
  rewrite IH by (intros k Hk; apply Hall; right; exact Hk). reflexivity.
Qed.

Lemma point_in_rotated_bounds_inside ov p :
  Qt.isEmpty (Overlay.bounds ov) = false ->
  Overlay._point_in_rotated_bounds ov p = Spec.inside_box ov p.
Proof.
  intros Hne. unfold Overlay._point_in_rotated_bounds, Spec.inside_box.
  rewrite Hne. reflexivity.
Qed.

(** [hit_test] follows the priority order of the specification. *)
Lemma hit_test_priority ov p :
  Overlay.handles_visible ov = true ->
  Qt.isEmpty (Overlay.bounds ov) = false ->
  Overlay.hit_test ov p = Spec.hit_priority ov p.
Proof.
  intros Hv Hne. unfold Overlay.hit_test, Spec.hit_priority.
  rewrite Hv, Hne. cbn [negb orb].
  rewrite !(first_hit_first_match ov p) by
    (try exact Hne; intros h Hh; simpl in Hh; unfold Spec.priority_order;
     simpl; intuition (subst; reflexivity)).
  rewrite (point_in_rotated_bounds_inside ov p Hne).
  unfold Spec.priority_order. simpl.
  destruct (Spec.in_hit_area ov Overlay.HANDLE_ROTATE p); [reflexivity |].
  destruct (Spec.in_hit_area ov Overlay.HANDLE_TL p); [reflexivity |].
  destruct (Spec.in_hit_area ov Overlay.HANDLE_TR p); [reflexivity |].
  destruct (Spec.in_hit_area ov Overlay.HANDLE_BL p); [reflexivity |].
  destruct (Spec.in_hit_area ov Overlay.HANDLE_BR p); [reflexivity |].
  reflexivity.
Qed.

(** With the handles hidden or the bounds empty, [hit_test] answers
    none, wherever the pointer is. *)
Theorem hit_test_hidden :
  forall ov p,
    Overlay.handles_visible ov = false \/ Qt.isEmpty (Overlay.bounds ov) = true ->
    Overlay.hit_test ov p = Overlay.HANDLE_NONE.
Proof.
  intros ov p [H | H]; unfold Overlay.hit_test; rewrite H; simpl; [reflexivity |].
  now rewrite orb_true_r.
Qed.

(** The overlay as created has null bounds. *)
Lemma hit_test_hidden_witness :
  Qt.isEmpty (Overlay.bounds Scenario.fresh_overlay) = true /\
  Overlay.hit_test Scenario.fresh_overlay (Qt.mkPoint 3 4) = Overlay.HANDLE_NONE.
Proof.
  assert (H : Qt.isEmpty (Overlay.bounds Scenario.fresh_overlay) = true).
  { unfold Qt.isEmpty; simpl. rewrite leb_true by lra. reflexivity. }
  split; [exact H |].
  apply (hit_test_hidden Scenario.fresh_overlay (Qt.mkPoint 3 4)). right. exact H.
Defined.

(** A point within 13 of a centre on both axes, seen from a frame turned
    about another centre, cannot lie 35 or more beyond it. *)
Lemma turned_offset_bound (C S e1 e2 : R) :
  C * C + S * S = 1 ->
  -13 <= e1 <= 13 -> -13 <= e2 <= 13 ->
  - S * e1 + C * e2 < 35.
Proof.
  intros Hcs H1 H2.
  assert (Hid : (- S * e1 + C * e2) * (- S * e1 + C * e2)
                + (S * e2 + C * e1) * (S * e2 + C * e1)
                = (e1 * e1 + e2 * e2) * (C * C + S * S)) by ring.
  rewrite Hcs in Hid.
  pose proof (Rle_0_sqr (S * e2 + C * e1)) as Hsq. unfold Rsqr in Hsq.
  assert (G1 : 0 <= (13 - e1) * (13 + e1)) by (apply Rmult_le_pos; lra).
  assert (G2 : 0 <= (13 - e2) * (13 + e2)) by (apply Rmult_le_pos; lra).
  destruct (Rlt_dec (- S * e1 + C * e2) 35) as [Hlt | Hge]; [exact Hlt |].
  exfalso.
  assert (G3 : 35 * 35 <= (- S * e1 + C * e2) * (- S * e1 + C * e2))
    by (apply Rmult_le_compat; lra).
  lra.
Qed.

(** The rotation handle is out of reach from inside the rotated box. *)
Lemma inside_excludes_rotate ov p :
  Qt.isEmpty (Overlay.bounds ov) = false ->
  Spec.inside_box ov p = true ->
  Spec.in_hit_area ov Overlay.HANDLE_ROTATE p = false.
Proof.
  intros Hne Hin.
  apply isEmpty_false in Hne. destruct Hne as [Hw Hh].
  unfold Spec.inside_box in Hin.
  apply (contains_iff _ _ Hw Hh) in Hin. destruct Hin as [_ [Htop _]].
  rewrite map_about in Htop. simpl in Htop.
  replace (- Overlay.rotation ov * PI / 180)
    with (- (Overlay.rotation ov * PI / 180)) in Htop by lra.
  rewrite sin_neg, cos_neg in Htop.
  destruct (Spec.in_hit_area ov Overlay.HANDLE_ROTATE p) eqn:E; [| reflexivity].
  exfalso. unfold Spec.in_hit_area in E. apply point_in_handle_iff in E.
  unfold Spec.anchor in E. rewrite map_about in E. simpl in E.
  unfold Overlay.rotation_handle_size, Overlay.rotation_handle_distance in E.
  destruct E as [Ex Ey].
  apply Rabs_le_bounds in Ex. apply Rabs_le_bounds in Ey.
  set (C := cos (Overlay.rotation ov * PI / 180)) in *.
  set (S := sin (Overlay.rotation ov * PI / 180)) in *.
  assert (Hcs : C * C + S * S = 1).
  { unfold C, S. pose proof (sin2_cos2 (Overlay.rotation ov * PI / 180)) as H.
    unfold Rsqr in H. lra. }
  pose proof (turned_offset_bound C S _ _ Hcs
                ltac:(replace (18 / 2 + 4) with 13 in Ex by lra; exact Ex)
                ltac:(replace (18 / 2 + 4) with 13 in Ey by lra; exact Ey)) as Hb.
  nra.
Qed.

(** C6, as amended.  With handles shown and non-empty bounds,
    [hit_test] tries the rotation handle, then the corners tl, tr, bl,
    br, then the edges t, b, l, r, then the inside of the rotated box
    (move), else none.  A point inside a corner's hit area and inside
    the rotated box resolves to a corner handle whose hit area holds it
    (the first such in the order tl, tr, bl, br), never to move; it
    resolves to that very corner when no earlier corner's area holds
    the point. *)
Theorem corner_beats_move :
  forall ov p,
    Overlay.handles_visible ov = true ->
    Qt.isEmpty (Overlay.bounds ov) = false ->
    Overlay.hit_test ov p = Spec.hit_priority ov p /\
    (forall c,
       Spec.is_corner c ->
       Spec.in_hit_area ov c p = true ->
       Overlay._point_in_rotated_bounds ov p = true ->
       Spec.is_corner (Overlay.hit_test ov p) /\
       Spec.in_hit_area ov (Overlay.hit_test ov p) p = true /\
       Overlay.hit_test ov p <> Overlay.HANDLE_MOVE /\
       ((forall c', In c' (Spec.corners_before c) ->
                    Spec.in_hit_area ov c' p = false) ->
        Overlay.hit_test ov p = c)).
Proof.
  intros ov p Hv Hne. split; [now apply hit_test_priority |].
  intros c Hc Hhit Hin.
  rewrite (point_in_rotated_bounds_inside ov p Hne) in Hin.
  rewrite (hit_test_priority ov p Hv Hne).
  unfold Spec.hit_priority, Spec.priority_order. simpl.
  rewrite (inside_excludes_rotate ov p Hne Hin).
  destruct (Spec.in_hit_area ov Overlay.HANDLE_TL p) eqn:Etl.
  { repeat split; [red; simpl; intuition | exact Etl | discriminate |].
    intros Hb. destruct (is_corner_cases c Hc) as [-> | [-> | [-> | ->]]];
      [reflexivity | | |];
      rewrite (Hb Overlay.HANDLE_TL) in Etl by (simpl; intuition); discriminate. }
  destruct (Spec.in_hit_area ov Overlay.HANDLE_TR p) eqn:Etr.
  { repeat split; [red; simpl; intuition | exact Etr | discriminate |].
    intros Hb. destruct (is_corner_cases c Hc) as [-> | [-> | [-> | ->]]];
      [congruence | reflexivity | |];
      rewrite (Hb Overlay.HANDLE_TR) in Etr by (simpl; intuition); discriminate. }
  destruct (Spec.in_hit_area ov Overlay.HANDLE_BL p) eqn:Ebl.
  { repeat split; [red; simpl; intuition | exact Ebl | discriminate |].
    intros Hb. destruct (is_corner_cases c Hc) as [-> | [-> | [-> | ->]]];
      [congruence | congruence | reflexivity |].
    rewrite (Hb Overlay.HANDLE_BL) in Ebl by (simpl; intuition); discriminate. }
  destruct (Spec.in_hit_area ov Overlay.HANDLE_BR p) eqn:Ebr.
  { repeat split; [red; simpl; intuition | exact Ebr | discriminate |].
    intros Hb. destruct (is_corner_cases c Hc) as [-> | [-> | [-> | ->]]];
      [congruence | congruence | congruence | reflexivity]. }
  destruct (is_corner_cases c Hc) as [-> | [-> | [-> | ->]]]; congruence.
Qed.

(** A 10 x 10 box: the point (5, 5) is in the box and in the hit area
    of every corner; the theorem names the corner it resolves to. *)
Lemma corner_beats_move_witness :
  Overlay.handles_visible Scenario.small_box = true /\
  Qt.isEmpty (Overlay.bounds Scenario.small_box) = false /\
  Overlay.hit_test Scenario.small_box (Qt.mkPoint 5 5) =
  Spec.hit_priority Scenario.small_box (Qt.mkPoint 5 5).
Proof.
  assert (Hne : Qt.isEmpty (Overlay.bounds Scenario.small_box) = false).
  { apply isEmpty_false; simpl; lra. }
  split; [reflexivity |]. split; [exact Hne |].
  exact (proj1 (corner_beats_move Scenario.small_box (Qt.mkPoint 5 5) eq_refl Hne)).
Defined.

(** C6, as stated, fails where corner hit areas overlap: in a 10 x 10
    box the point (5, 5) lies in the hit area of the bottom-right handle
    and inside the box, and [hit_test] answers top-left. *)
Lemma overlapping_corners_first_wins :
  Overlay.lookup Overlay.HANDLE_BR (Overlay.get_handle_positions Scenario.small_box)
    = Some (Qt.mkPoint 10 10) /\
  Overlay._point_in_handle (Qt.mkPoint 5 5) (Qt.mkPoint 10 10) Overlay.handle_size
    = true /\
  Overlay._point_in_rotated_bounds Scenario.small_box (Qt.mkPoint 5 5) = true /\
  Overlay.hit_test Scenario.small_box (Qt.mkPoint 5 5) = Overlay.HANDLE_TL /\
  Overlay.hit_test Scenario.small_box (Qt.mkPoint 5 5) <> Overlay.HANDLE_BR.
Proof.
  assert (Hne : Qt.isEmpty (Overlay.bounds Scenario.small_box) = false).
  { apply isEmpty_false; simpl; lra. }
  assert (Hrot : Overlay.rotation Scenario.small_box = 0) by reflexivity.
  assert (Htl : Overlay.hit_test Scenario.small_box (Qt.mkPoint 5 5)
                = Overlay.HANDLE_TL).
  { rewrite (hit_test_priority Scenario.small_box (Qt.mkPoint 5 5) eq_refl Hne).
    unfold Spec.hit_priority, Spec.priority_order. simpl.
    rewrite (in_hit_area_false _ Overlay.HANDLE_ROTATE).
    - rewrite (in_hit_area_true _ Overlay.HANDLE_TL); [reflexivity | |];
        rewrite (anchor_unrotated _ _ Hrot); simpl;
        unfold Overlay.handle_size; lra.
    - right. rewrite (anchor_unrotated _ _ Hrot). simpl.
      unfold Overlay.rotation_handle_size, Overlay.rotation_handle_distance.
      pose proof (Rle_abs (5 - (0 - 35))). lra. }
  split; [| split; [| split; [| split]]].
  - rewrite (positions_lookup _ _ Hne) by (unfold Spec.priority_order; simpl; intuition).
    rewrite (anchor_unrotated _ _ Hrot). simpl.
    unfold Qt.bottomRight; simpl. do 2 f_equal; lra.
  - apply point_in_handle_iff. unfold Overlay.handle_size; simpl.
    split; apply Rabs_le; lra.
  - rewrite (point_in_rotated_bounds_inside _ _ Hne). unfold Spec.inside_box.
    rewrite about_zero by (simpl; lra).
    apply contains_iff; simpl; lra.
  - exact Htl.
  - rewrite Htl. discriminate.
Qed.

(** ** A vertical edge drag without the aspect lock *)

Lemma Rabs_gt a b : b < a \/ a < - b -> b < Rabs a.
Proof.
  intros [H | H].
  - pose proof (Rle_abs a). lra.
  - pose proof (Rle_abs (- a)) as H1. rewrite Rabs_Ropp in H1. lra.
Qed.

(** Such a drag emits nothing or the pair (1, scale_y). *)
Lemma vertical_edge_unlocked_emits ov p :
  Overlay.active_handle ov = Overlay.HANDLE_T \/
  Overlay.active_handle ov = Overlay.HANDLE_B ->
  Overlay.lock_aspect_ratio ov = false ->
  Overlay.mouseMoveEvent ov p = Some (ov, []) \/
  exists scale_y,
    Overlay.mouseMoveEvent ov p = Some (ov, [Overlay.scale_changed 1 scale_y]).
Proof.
  intros Hh Hl.
  assert (He : Spec.is_edge (Overlay.active_handle ov))
    by (destruct Hh as [-> | ->]; red; simpl; intuition).
  rewrite move_event_edge by exact He.
  destruct (Rlt_dec 0 (Spec.half0 (Overlay.active_handle ov) (Overlay.drag_start_bounds ov)))
    as [H0 | H0].
  - destruct (Rlt_dec 0 (Spec.half1 (Overlay.active_handle ov)
                           (Overlay.drag_start_bounds ov) p)) as [H1 | H1].
    + right. rewrite (edge_scale_emits ov p _ eq_refl He H0 H1), Hl.
      destruct Hh as [-> | ->]; eexists; reflexivity.
    + left. rewrite (edge_scale_silent ov p _ eq_refl He); [reflexivity | lra].
  - left. rewrite (edge_scale_silent ov p _ eq_refl He); [reflexivity | lra].
Qed.

(** Applying the factor 1 stores the clamped baseline as the active
    layer's scale and writes no other attribute: the tab is unchanged
    exactly when its scale already is the clamped baseline. *)
Lemma handle_scale_one tab scale_y :
  Tab._on_handle_scale tab 1 scale_y
    = Spec.with_active_scale tab
        (Spec.clamp_active_scale tab (Spec.active_baseline tab)) /\
  Spec.active_scale (Tab._on_handle_scale tab 1 scale_y)
    = Spec.clamp_active_scale tab (Spec.active_baseline tab) /\
  (Tab._on_handle_scale tab 1 scale_y = tab <->
   Spec.active_scale tab = Spec.clamp_active_scale tab (Spec.active_baseline tab)).
Proof.
  unfold Spec.with_active_scale, Spec.active_scale, Spec.clamp_active_scale,
    Spec.active_baseline, Tab._on_handle_scale.
  destruct tab as [bg lg rot zm ox oy ls lx ly op al tz tr tl]; simpl.
  destruct al; simpl.
  - replace (tz * 1) with tz by lra. unfold Tab.set_zoom; simpl.
    split; [reflexivity |]. split; [reflexivity |]. split.
    + intros E. injection E as E. symmetry. exact E.
    + intros E. rewrite <- E. reflexivity.
  - replace (tl * 1) with tl by lra. unfold Tab.set_logo_scale; simpl.
    split; [reflexivity |]. split; [reflexivity |]. split.
    + intros E. injection E as E. symmetry. exact E.
    + intros E. rewrite <- E. reflexivity.
Qed.

(** C10, as amended.  The scale slot stores clamp(baseline * scale_x)
    on the active layer and never reads scale_y.  A top- or bottom-edge
    drag with the aspect lock off emits nothing or (1, scale_y).  So,
    from every state of the overlay and the tab, a move event of such a
    drag does not raise and leaves the overlay as it was; it leaves the
    tab as it was when nothing is emitted; and when (1, scale_y) is
    emitted it runs the scale slot once, which sets the active layer's
    scale to the clamped baseline, whatever scale_y is, and leaves every
    other attribute alone.  The tab is then unchanged exactly when its
    scale already is the clamped baseline: in particular when the
    baseline lies within the layer's clamp range and the scale still is
    the baseline.  That is the case right after the drag-start
    snapshot, which makes scale and baseline equal, if the scale lies
    within the range then.  A scale that differs from the clamped
    baseline - set out of range by the scale box before the drag, or
    changed by the wheel or the scale box during it - is replaced by
    the clamped baseline. *)
Theorem unlocked_vertical_edge_stores_baseline :
  (forall tab scale_x scale_y scale_y',
     Spec.active_scale (Tab._on_handle_scale tab scale_x scale_y)
       = Spec.clamp_active_scale tab (Spec.active_baseline tab * scale_x) /\
     Tab._on_handle_scale tab scale_x scale_y
       = Tab._on_handle_scale tab scale_x scale_y') /\
  (forall ov p,
     Overlay.active_handle ov = Overlay.HANDLE_T \/
     Overlay.active_handle ov = Overlay.HANDLE_B ->
     Overlay.lock_aspect_ratio ov = false ->
     Overlay.mouseMoveEvent ov p = Some (ov, []) \/
     exists scale_y,
       Overlay.mouseMoveEvent ov p = Some (ov, [Overlay.scale_changed 1 scale_y])) /\
  (forall fuel ov tab p,
     Overlay.active_handle ov = Overlay.HANDLE_T \/
     Overlay.active_handle ov = Overlay.HANDLE_B ->
     Overlay.lock_aspect_ratio ov = false ->
     exists tab',
       App.pointer_move fuel (ov, tab) p = Some (ov, tab') /\
       (Overlay.mouseMoveEvent ov p = Some (ov, []) -> tab' = tab) /\
       (forall scale_y,
          Overlay.mouseMoveEvent ov p
            = Some (ov, [Overlay.scale_changed 1 scale_y]) ->
          tab' = Tab._on_handle_scale tab 1 scale_y /\
          tab' = Spec.with_active_scale tab
                   (Spec.clamp_active_scale tab (Spec.active_baseline tab)) /\
          Spec.active_scale tab'
            = Spec.clamp_active_scale tab (Spec.active_baseline tab) /\
          (tab' = tab <->
           Spec.active_scale tab
             = Spec.clamp_active_scale tab (Spec.active_baseline tab))) /\
       (Spec.active_scale tab
          = Spec.clamp_active_scale tab (Spec.active_baseline tab) ->
        tab' = tab) /\
       (Spec.active_scale_range tab (Spec.active_baseline tab) ->
        Spec.active_scale tab = Spec.active_baseline tab ->
        tab' = tab)) /\
  (forall fuel ov tab0 p,
     Spec.active_scale (Tab._on_transform_started tab0)
       = Spec.active_baseline (Tab._on_transform_started tab0) /\
     (Overlay.active_handle ov = Overlay.HANDLE_T \/
      Overlay.active_handle ov = Overlay.HANDLE_B ->
      Overlay.lock_aspect_ratio ov = false ->
      Spec.active_scale_range tab0 (Spec.active_scale tab0) ->
      App.pointer_move fuel (ov, Tab._on_transform_started tab0) p
        = Some (ov, Tab._on_transform_started tab0))).
Proof.
  assert (Hin : forall tab,
            Spec.active_scale_range tab (Spec.active_baseline tab) ->
            Spec.active_scale tab = Spec.active_baseline tab ->
            Spec.active_scale tab
              = Spec.clamp_active_scale tab (Spec.active_baseline tab)).
  { intros tab. unfold Spec.active_scale_range, Spec.clamp_active_scale,
      Spec.zoom_range, Spec.logo_scale_range.
    intros Hr ->. destruct (Tab.active_layer tab);
      rewrite clamp_id by lra; reflexivity. }
  assert (Hmain : forall fuel ov tab p,
            Overlay.active_handle ov = Overlay.HANDLE_T \/
            Overlay.active_handle ov = Overlay.HANDLE_B ->
            Overlay.lock_aspect_ratio ov = false ->
            Spec.active_scale tab
              = Spec.clamp_active_scale tab (Spec.active_baseline tab) ->
            App.pointer_move fuel (ov, tab) p = Some (ov, tab)).
  { intros fuel ov tab p Hh Hl Heq.
    destruct (vertical_edge_unlocked_emits ov p Hh Hl) as [E | [scale_y E]].
    - now apply pointer_move_silent.
    - rewrite (pointer_move_scale fuel ov _ p 1 scale_y E).
      destruct (handle_scale_one tab scale_y) as (_ & _ & Hiff).
      now rewrite (proj2 Hiff Heq). }
  split; [| split; [| split]].
  - intros tab scale_x scale_y scale_y'. split.
    + apply handle_scale_value.
    + apply handle_scale_ignores_y.
  - apply vertical_edge_unlocked_emits.
  - intros fuel ov tab p Hh Hl.
    destruct (vertical_edge_unlocked_emits ov p Hh Hl) as [E | [scale_y E]].
    + exists tab. split; [now apply pointer_move_silent |].
      split; [reflexivity |].
      split; [| split; reflexivity].
      intros scale_y E'. rewrite E in E'. discriminate E'.
    + exists (Tab._on_handle_scale tab 1 scale_y).
      split; [now apply pointer_move_scale |].
      split; [intros E'; rewrite E in E'; discriminate E' |].
      destruct (handle_scale_one tab scale_y) as (Hw & Hv & Hiff).
      split; [| split].
      * intros scale_y' E'. rewrite E in E'. injection E' as <-.
        split; [reflexivity |]. split; [exact Hw |].
        split; [exact Hv | exact Hiff].
      * apply Hiff.
      * intros Hr Hb. apply Hiff. now apply Hin.
  - intros fuel ov tab0 p.
    assert (Hsnap : Spec.active_scale (Tab._on_transform_started tab0)
                    = Spec.active_baseline (Tab._on_transform_started tab0)).
    { unfold Spec.active_scale, Spec.active_baseline, Tab._on_transform_started.
      simpl. destruct (Tab.active_layer tab0); reflexivity. }
    split; [exact Hsnap |].
    intros Hh Hl Hr. apply Hmain; try assumption.
    apply Hin; [| exact Hsnap].
    rewrite <- Hsnap.
    unfold Spec.active_scale_range, Spec.active_scale, Tab._on_transform_started in *.
    simpl. exact Hr.
Qed.

(** From the initial tab (zoom 1, baseline 1), a pull on the top edge
    of a box with the lock off leaves overlay and tab as they were. *)
Lemma unlocked_vertical_edge_stores_baseline_witness :
  App.pointer_move 0 (Scenario.top_edge_drag, Tab._on_transform_started Tab.init)
    (Qt.mkPoint 400 370)
  = Some (Scenario.top_edge_drag, Tab._on_transform_started Tab.init).
Proof.
  destruct (proj1 (proj2 (proj2 unlocked_vertical_edge_stores_baseline)) 0%nat
              Scenario.top_edge_drag (Tab._on_transform_started Tab.init)
              (Qt.mkPoint 400 370) (or_introl eq_refl) eq_refl)
    as [tab' [E [_ [_ [_ Hsame]]]]].
  rewrite E. rewrite Hsame; [reflexivity | | reflexivity].
  unfold Spec.active_scale_range, Spec.active_baseline, Spec.zoom_range; simpl. lra.
Defined.

(** A wheel notch in the middle of such a drag is undone by the next
    move event.  The drag starts over a loaded background at zoom 1 (so
    the baseline is 1); the wheel, which is not held back during a drag
    and does not touch the baseline, raises the zoom to 1.05; the move
    event then emits (1, 1.5) and the slot stores clamp(1 * 1) = 1. *)
Example wheel_in_mid_drag_is_undone :
  let tab1 := Tab._on_transform_started Scenario.tab_loaded in
  let tab2 := Ui.deliver tab1 (View.wheelEvent true 120) in
  Tab.zoom tab1 = 1 /\
  Tab.zoom tab2 = 105 / 100 /\
  Spec.active_scale_range tab2 (Spec.active_baseline tab2) /\
  exists tab3,
    App.pointer_move 0 (Scenario.top_edge_drag, tab2) (Qt.mkPoint 400 370)
      = Some (Scenario.top_edge_drag, tab3) /\
    Tab.zoom tab3 = 1.
Proof.
  cbv zeta.
  assert (Hz : Tab.zoom (Ui.deliver (Tab._on_transform_started Scenario.tab_loaded)
                           (View.wheelEvent true 120)) = 105 / 100).
  { unfold View.wheelEvent, Ui.deliver, Tab._on_wheel_zoom; simpl.
    rewrite clamp_id by lra. lra. }
  split; [reflexivity |]. split; [exact Hz |]. split.
  { unfold Spec.active_scale_range, Spec.active_baseline, Spec.zoom_range; simpl. lra. }
  assert (Hmove :
    Overlay.mouseMoveEvent Scenario.top_edge_drag (Qt.mkPoint 400 370)
    = Some (Scenario.top_edge_drag, [Overlay.scale_changed 1 ((400 - 370) / (40 / 2))])).
  { rewrite move_event_edge by (red; simpl; intuition).
    rewrite (edge_scale_emits Scenario.top_edge_drag (Qt.mkPoint 400 370)
               Overlay.HANDLE_T eq_refl);
      [simpl; f_equal; f_equal; f_equal; f_equal; lra | red; simpl; intuition
      | simpl; lra | simpl; lra]. }
  eexists. split; [apply pointer_move_scale; exact Hmove |].
  unfold Tab._on_handle_scale; simpl. rewrite clamp_id by lra. lra.
Qed.

(** A press that lands on a handle starts a drag and takes the snapshot. *)
Lemma press_on_handle fuel ov tab p h :
  Overlay.hit_test ov p = h -> h <> Overlay.HANDLE_NONE ->
  App.pointer_press fuel (ov, tab) true p =
  Some (Overlay.begin_drag ov h p, Tab._on_transform_started tab).
Proof.
  intros Hh Hn. unfold App.pointer_press, Overlay.mousePressEvent; simpl.
  rewrite Hh. unfold Overlay.handle_eqb.
  destruct (Overlay.Handle_eq_dec h Overlay.HANDLE_NONE); [contradiction |].
  reflexivity.
Qed.

(** C10, as stated, fails once the spinbox has put the scale outside the
    clamp range.  A background is loaded and the spinbox set to 5%, so
    zoom is 0.05; in an 800 x 800 viewport the box is 40 x 40 at
    (380, 380).  A press at (400, 380) takes the top edge; with the lock
    off, a move to (400, 370) emits (1, 1.5), and the stored zoom goes
    from 0.05 to 0.1. *)
Lemma unlocked_vertical_edge_moves_scale :
  exists ov1 st2 st3,
    Tab._update_handle_bounds Scenario.tab_five_percent 800 800
      Scenario.fresh_overlay = Some ov1 /\
    App.pointer_press 0 (ov1, Scenario.tab_five_percent) true (Qt.mkPoint 400 380)
      = Some st2 /\
    Overlay.active_handle (fst st2) = Overlay.HANDLE_T /\
    Overlay.lock_aspect_ratio (fst st2) = false /\
    Tab.zoom (snd st2) = 5 / 100 /\
    (exists scale_y,
       Overlay.mouseMoveEvent (fst st2) (Qt.mkPoint 400 370)
         = Some (fst st2, [Overlay.scale_changed 1 scale_y]) /\ scale_y = 3 / 2) /\
    App.pointer_move 0 st2 (Qt.mkPoint 400 370) = Some st3 /\
    Tab.zoom (snd st3) = 1 / 10 /\
    Tab.zoom (snd st3) <> Tab.zoom (snd st2).
Proof.
  destruct (Tab._update_handle_bounds Scenario.tab_five_percent 800 800
              Scenario.fresh_overlay) as [ov1 |] eqn:Eov; [| discriminate Eov].
  unfold Tab._update_handle_bounds in Eov.
  change (Z.min 800 800) with 800%Z in Eov. simpl in Eov.
  injection Eov as Eov.
  assert (Hl : Qt.left (Overlay.bounds ov1) = 380) by (subst ov1; simpl; lra).
  assert (Ht : Qt.top (Overlay.bounds ov1) = 380) by (subst ov1; simpl; lra).
  assert (Hw : Qt.width (Overlay.bounds ov1) = 40) by (subst ov1; simpl; lra).
  assert (Hh : Qt.height (Overlay.bounds ov1) = 40) by (subst ov1; simpl; lra).
  assert (Hrot : Overlay.rotation ov1 = 0) by (subst ov1; reflexivity).
  assert (Hvis : Overlay.handles_visible ov1 = true) by (subst ov1; reflexivity).
  assert (Hlock : Overlay.lock_aspect_ratio ov1 = false) by (subst ov1; reflexivity).
  clear Eov.
  assert (Hne : Qt.isEmpty (Overlay.bounds ov1) = false)
    by (apply isEmpty_false; lra).
  assert (Hhit : Overlay.hit_test ov1 (Qt.mkPoint 400 380) = Overlay.HANDLE_T).
  { rewrite (hit_test_priority ov1 _ Hvis Hne).
    unfold Spec.hit_priority, Spec.priority_order. simpl.
    rewrite (in_hit_area_false ov1 Overlay.HANDLE_ROTATE),
            (in_hit_area_false ov1 Overlay.HANDLE_TL),
            (in_hit_area_false ov1 Overlay.HANDLE_TR),
            (in_hit_area_false ov1 Overlay.HANDLE_BL),
            (in_hit_area_false ov1 Overlay.HANDLE_BR),
            (in_hit_area_true ov1 Overlay.HANDLE_T);
      try reflexivity;
      rewrite (anchor_unrotated ov1 _ Hrot); simpl;
      unfold Overlay.handle_size, Overlay.rotation_handle_size,
        Overlay.rotation_handle_distance;
      rewrite ?Hl, ?Ht, ?Hw, ?Hh; try lra.
    - left. apply Rabs_gt. lra.
    - left. apply Rabs_gt. lra.
    - left. apply Rabs_gt. lra.
    - left. apply Rabs_gt. lra.
    - right. apply Rabs_gt. lra. }
  exists ov1.
  exists (Overlay.begin_drag ov1 Overlay.HANDLE_T (Qt.mkPoint 400 380),
          Tab._on_transform_started Scenario.tab_five_percent).
  assert (Hmove :
    Overlay.mouseMoveEvent
      (Overlay.begin_drag ov1 Overlay.HANDLE_T (Qt.mkPoint 400 380))
      (Qt.mkPoint 400 370)
    = Some (Overlay.begin_drag ov1 Overlay.HANDLE_T (Qt.mkPoint 400 380),
            [Overlay.scale_changed 1
               ((Qt.top (Overlay.bounds ov1) + Qt.height (Overlay.bounds ov1) / 2 - 370)
                / (Qt.height (Overlay.bounds ov1) / 2))])).
  { rewrite move_event_edge by (red; simpl; intuition).
    rewrite (edge_scale_emits
               (Overlay.begin_drag ov1 Overlay.HANDLE_T (Qt.mkPoint 400 380))
               (Qt.mkPoint 400 370) Overlay.HANDLE_T eq_refl);
      [simpl; rewrite Hlock; reflexivity | red; simpl; intuition
      | simpl; lra | simpl; lra]. }
  eexists. split; [reflexivity |].
  split; [apply press_on_handle; [exact Hhit | discriminate] |].
  split; [reflexivity |]. split; [exact Hlock |]. split; [simpl; lra |].
  split.
  { eexists. split; [exact Hmove |]. rewrite Ht, Hh. lra. }
  split; [apply pointer_move_scale; exact Hmove |].
  assert (Hz : Tab.zoom
                 (Tab._on_handle_scale
                    (Tab._on_transform_started Scenario.tab_five_percent) 1
                    ((Qt.top (Overlay.bounds ov1)
                      + Qt.height (Overlay.bounds ov1) / 2 - 370)
                     / (Qt.height (Overlay.bounds ov1) / 2))) = 1 / 10).
  { unfold Tab._on_handle_scale; simpl. apply clamp_low; lra. }
  split; [exact Hz |].
  cbn [snd]. rewrite Hz. simpl. lra.
Qed.

(** ** Preview and export place the layers alike *)

(** [int] moves a number by less than one, toward zero. *)
Lemma int_near r : r - 1 < IZR (Py.int r) < r + 1.
Proof.
  unfold Py.int, Py.leb. destruct (Rle_dec 0 r) as [H | H].
  - destruct (base_Int_part r). lra.
  - destruct (base_Int_part (- r)). rewrite opp_IZR. lra.
Qed.

Lemma int_floor r : 0 <= r -> IZR (Py.int r) <= r < IZR (Py.int r) + 1.
Proof.
  intros H. unfold Py.int. rewrite leb_true by exact H.
  destruct (base_Int_part r). lra.
Qed.

(** Moves [IZR] inside sums, differences, products and opposites. *)
Ltac push_IZR :=
  repeat (rewrite minus_IZR in * || rewrite plus_IZR in *
          || rewrite mult_IZR in * || rewrite opp_IZR in *).

(** Halving a non-negative width loses at most one pixel. *)
Lemma int_half (w : Z) :
  (0 <= w)%Z ->
  (2 * Py.int (IZR w * (IZR Tab.preview_size / 1024)) <= w
   <= 2 * Py.int (IZR w * (IZR Tab.preview_size / 1024)) + 1)%Z.
Proof.
  intros Hw. apply IZR_le in Hw.
  unfold Tab.preview_size.
  destruct (int_floor (IZR w * (512 / 1024)) ltac:(lra)) as [H1 H2].
  set (i := Py.int (IZR w * (512 / 1024))) in *.
  assert (G1 : (2 * i - 1 < w)%Z) by (apply lt_IZR; push_IZR; lra).
  assert (G2 : (w < 2 * i + 2)%Z) by (apply lt_IZR; push_IZR; lra).
  lia.
Qed.

(** Pasting at half size: twice the preview position is within three
    pixels of the export position. *)
Lemma paste_half (w wp : Z) (c : R) :
  (2 * wp <= w <= 2 * wp + 1)%Z -> 0 <= c <= 1 ->
  (Z.abs (2 * - Py.int (IZR (wp - Tab.preview_size) * c)
          - - Py.int (IZR (w - 1024) * c)) <= 3)%Z.
Proof.
  intros Hw Hc. unfold Tab.preview_size.
  pose proof (int_near (IZR (wp - 512) * c)) as Hp.
  pose proof (int_near (IZR (w - 1024) * c)) as He.
  set (ip := Py.int (IZR (wp - 512) * c)) in *.
  set (ie := Py.int (IZR (w - 1024) * c)) in *.
  assert (Hd : w = (2 * wp)%Z \/ w = (2 * wp + 1)%Z) by lia.
  assert (G1 : (-4 < 2 * - ip - - ie)%Z).
  { apply lt_IZR. destruct Hd as [Hd | Hd]; rewrite Hd in He; push_IZR; nra. }
  assert (G2 : (2 * - ip - - ie < 4)%Z).
  { apply lt_IZR. destruct Hd as [Hd | Hd]; rewrite Hd in He; push_IZR; nra. }
  lia.
Qed.

(** Preview (512) and export (1024) start from the same transformed
    background; the preview halves it, losing at most one pixel per
    side, and pastes it so that twice its position is within three
    pixels of the export position. *)
Theorem background_placement_agrees :
  forall rotated tab size P E,
    Tab.background_image tab = Some size ->
    (0 <= fst (Render._apply_transformations rotated tab size))%Z ->
    (0 <= snd (Render._apply_transformations rotated tab size))%Z ->
    0 <= Tab.offset_x tab <= 1 -> 0 <= Tab.offset_y tab <= 1 ->
    Render.preview_background rotated tab = Some P ->
    Render.export_background rotated tab = Some E ->
    (2 * Render.size_w P <= Render.size_w E <= 2 * Render.size_w P + 1)%Z /\
    (2 * Render.size_h P <= Render.size_h E <= 2 * Render.size_h P + 1)%Z /\
    (Z.abs (2 * Render.paste_x P - Render.paste_x E) <= 3)%Z /\
    (Z.abs (2 * Render.paste_y P - Render.paste_y E) <= 3)%Z.
Proof.
  intros rotated tab size P E Hbg Hw Hh Hx Hy HP HE.
  unfold Render.preview_background in HP. unfold Render.export_background in HE.
  rewrite Hbg in HP, HE.
  assert (Hsf : Py.eqb (IZR Tab.preview_size / 1024) 1 = false)
    by (apply eqb_false; unfold Tab.preview_size; lra).
  rewrite Hsf in HP. cbn [negb fst snd] in HP. cbn [fst snd] in HE.
  injection HP as <-. injection HE as <-. cbn [Render.size_w Render.size_h
    Render.paste_x Render.paste_y].
  pose proof (int_half _ Hw) as Gw. pose proof (int_half _ Hh) as Gh.
  repeat split; try apply Gw; try apply Gh.
  - apply paste_half; assumption.
  - apply paste_half; assumption.
Qed.

(** The loaded background at the default transform: both pipelines see
    the 1024 x 1024 canvas. *)
Lemma background_placement_agrees_witness :
  exists P E,
    Render.preview_background (fun _ s => s) Scenario.tab_loaded = Some P /\
    Render.export_background (fun _ s => s) Scenario.tab_loaded = Some E /\
    (Z.abs (2 * Render.paste_x P - Render.paste_x E) <= 3)%Z.
Proof.
  eexists _, _. split; [reflexivity |]. split; [reflexivity |].
  assert (Ht : Render._apply_transformations (fun _ s => s) Scenario.tab_loaded
                 (1024, 1024)%Z = (1024, 1024)%Z).
  { unfold Render._apply_transformations; simpl.
    rewrite !eqb_true by reflexivity. reflexivity. }
  refine (proj1 (proj2 (proj2
    (background_placement_agrees (fun _ s => s) Scenario.tab_loaded
       (1024, 1024)%Z _ _ eq_refl _ _ _ _ eq_refl eq_refl)))).
  - rewrite Ht. simpl. lia.
  - rewrite Ht. simpl. lia.
  - simpl. lra.
  - simpl. lra.
Defined.

(** Fitting a logo of [lw] x [lh] into a square of side [m]: the longer
    side takes [m], the other one its share. *)
Lemma fit_ratio (m lw lh : R) :
  0 <= m -> 0 < lw -> 0 < lh ->
  lw * Py.min (m / lw) (m / lh) = m * (if Rlt_dec lw lh then lw / lh else 1).
Proof.
  intros Hm Hw Hh.
  assert (Hiw : 0 < / lw) by now apply Rinv_0_lt_compat.
  assert (Hih : 0 < / lh) by now apply Rinv_0_lt_compat.
  destruct (Rlt_dec lw lh) as [Hlt | Hge].
  - assert (Hinv : / lh < / lw) by (apply Rinv_lt_contravar; nra).
    destruct (min_spec (m / lw) (m / lh)) as [[_ ->] | [Hle ->]].
    + field. lra.
    + unfold Rdiv in Hle. assert (m = 0) by nra. subst m. field. lra.
  - assert (Hinv : / lw <= / lh) by (apply Rinv_le_contravar; lra).
    destruct (min_spec (m / lw) (m / lh)) as [[Hlt' _] | [_ ->]].
    + unfold Rdiv in Hlt'. nra.
    + field. lra.
Qed.

Lemma fit_share (lw lh : R) :
  0 < lw -> 0 < lh -> 0 <= (if Rlt_dec lw lh then lw / lh else 1) <= 1.
Proof.
  intros Hw Hh. destruct (Rlt_dec lw lh) as [Hlt | Hge]; [| lra].
  assert (0 < / lh) by now apply Rinv_0_lt_compat.
  unfold Rdiv. split; [nra |].
  apply Rmult_le_reg_r with lh; [exact Hh |].
  rewrite Rmult_assoc, Rinv_l by lra. lra.
Qed.

Lemma min_comm a b : Py.min a b = Py.min b a.
Proof.
  destruct (min_spec a b) as [[? ->] | [? ->]];
    destruct (min_spec b a) as [[? ->] | [? ->]]; lra.
Qed.

(** * The overlay: handle geometry and hit testing *)

(** ** Rotation about the centre *)

Lemma about_inverse c a p :
  Qt.map (Qt.about c (- a)) (Qt.map (Qt.about c a) p) = p.
Proof.
  rewrite !map_about. simpl.
  replace (- a * PI / 180) with (- (a * PI / 180)) by lra.
  rewrite sin_neg, cos_neg.
  pose proof (sin2_cos2 (a * PI / 180)) as H. unfold Rsqr in H.
  set (C := cos (a * PI / 180)) in *. set (S := sin (a * PI / 180)) in *.
  destruct p as [u v]; simpl. f_equal.
  - replace (Qt.x c + C * (Qt.x c + C * (u - Qt.x c) - S * (v - Qt.y c) - Qt.x c)
             - - S * (Qt.y c + S * (u - Qt.x c) + C * (v - Qt.y c) - Qt.y c))
      with (Qt.x c + (S * S + C * C) * (u - Qt.x c)) by ring.
    rewrite H. ring.
  - replace (Qt.y c + - S * (Qt.x c + C * (u - Qt.x c) - S * (v - Qt.y c) - Qt.x c)
             + C * (Qt.y c + S * (u - Qt.x c) + C * (v - Qt.y c) - Qt.y c))
      with (Qt.y c + (S * S + C * C) * (v - Qt.y c)) by ring.
    rewrite H. ring.
Qed.

(** The transform [_point_in_rotated_bounds] builds undoes the one
    [get_handle_positions] builds, and the other way round. *)
Theorem rotation_round_trip :
  forall c a p,
    Qt.map (Qt.about c (- a)) (Qt.map (Qt.about c a) p) = p /\
    Qt.map (Qt.about c a) (Qt.map (Qt.about c (- a)) p) = p.
Proof.
  intros c a p. split; [apply about_inverse |].
  pose proof (about_inverse c (- a) p) as H.
  replace (- - a) with a in H by lra. exact H.
Qed.

(** The rotated box is the box turned about its centre: a turned point
    is inside it exactly when the point it comes from is in the bounds. *)
Theorem rotated_box_is_turned_box :
  forall ov q,
    Qt.isEmpty (Overlay.bounds ov) = false ->
    Overlay._point_in_rotated_bounds ov (Props.turned ov q) =
    Qt.contains (Overlay.bounds ov) q.
Proof.
  intros ov q Hne. unfold Overlay._point_in_rotated_bounds, Props.turned.
  rewrite Hne, about_inverse. reflexivity.
Qed.

(** A 10 x 10 box: its centre, turned or not, is inside. *)
Lemma rotated_box_is_turned_box_witness :
  Overlay._point_in_rotated_bounds Scenario.small_box
    (Props.turned Scenario.small_box (Qt.mkPoint 5 5)) = true.
Proof.
  rewrite (rotated_box_is_turned_box Scenario.small_box (Qt.mkPoint 5 5)).
  - apply contains_iff; simpl; lra.
  - apply isEmpty_false; simpl; lra.
Defined.

(** ** Where the handles sit *)

Lemma turn_distance c a p q :
  Spec.distance (Qt.map (Qt.about c a) p) (Qt.map (Qt.about c a) q) =
  Spec.distance p q.
Proof.
  unfold Spec.distance. rewrite !map_about. simpl.
  pose proof (sin2_cos2 (a * PI / 180)) as H. unfold Rsqr in H.
  set (C := cos (a * PI / 180)) in *. set (S := sin (a * PI / 180)) in *.
  f_equal.
  transitivity ((S * S + C * C) * ((Qt.x q - Qt.x p) ^ 2 + (Qt.y q - Qt.y p) ^ 2));
    [ring | rewrite H; ring].
Qed.

Lemma turn_midpoint c a p q :
  Props.midpoint (Qt.map (Qt.about c a) p) (Qt.map (Qt.about c a) q) =
  Qt.map (Qt.about c a) (Props.midpoint p q).
Proof.
  unfold Props.midpoint. rewrite !map_about. simpl. f_equal; field.
Qed.

Lemma turn_center c a : Qt.map (Qt.about c a) c = c.
Proof. rewrite map_about. destruct c as [u v]; simpl. f_equal; ring. Qed.

Lemma distance_horizontal p q :
  Qt.y p = Qt.y q -> Qt.x p <= Qt.x q -> Spec.distance p q = Qt.x q - Qt.x p.
Proof.
  intros Ey Hx. unfold Spec.distance. rewrite Ey.
  replace ((Qt.x q - Qt.x p) ^ 2 + (Qt.y q - Qt.y q) ^ 2)
    with ((Qt.x q - Qt.x p) ^ 2) by ring.
  apply sqrt_pow2. lra.
Qed.

Lemma distance_vertical p q :
  Qt.x p = Qt.x q -> Qt.y p <= Qt.y q -> Spec.distance p q = Qt.y q - Qt.y p.
Proof.
  intros Ex Hy. unfold Spec.distance. rewrite Ex.
  replace ((Qt.x q - Qt.x q) ^ 2 + (Qt.y q - Qt.y p) ^ 2)
    with ((Qt.y q - Qt.y p) ^ 2) by ring.
  apply sqrt_pow2. lra.
Qed.

(** Whatever the rotation, the nine handles form a rigid copy of the
    box: each edge handle is the midpoint of its two corners, opposite
    corners are symmetric about the centre of the bounds, the sides
    keep the width and height of the bounds, and the rotation handle
    stays 35 pixels from the top-edge handle, beyond it as seen from
    the centre. *)
Theorem handle_frame_is_rigid :
  forall ov,
    Qt.isEmpty (Overlay.bounds ov) = false ->
    exists tl tr bl br t b l r rot,
      Overlay.lookup Overlay.HANDLE_TL (Overlay.get_handle_positions ov) = Some tl /\
      Overlay.lookup Overlay.HANDLE_TR (Overlay.get_handle_positions ov) = Some tr /\
      Overlay.lookup Overlay.HANDLE_BL (Overlay.get_handle_positions ov) = Some bl /\
      Overlay.lookup Overlay.HANDLE_BR (Overlay.get_handle_positions ov) = Some br /\
      Overlay.lookup Overlay.HANDLE_T (Overlay.get_handle_positions ov) = Some t /\
      Overlay.lookup Overlay.HANDLE_B (Overlay.get_handle_positions ov) = Some b /\
      Overlay.lookup Overlay.HANDLE_L (Overlay.get_handle_positions ov) = Some l /\
      Overlay.lookup Overlay.HANDLE_R (Overlay.get_handle_positions ov) = Some r /\
      Overlay.lookup Overlay.HANDLE_ROTATE (Overlay.get_handle_positions ov) = Some rot /\
      t = Props.midpoint tl tr /\ b = Props.midpoint bl br /\
      l = Props.midpoint tl bl /\ r = Props.midpoint tr br /\
      Props.midpoint tl br = Qt.center (Overlay.bounds ov) /\
      Props.midpoint tr bl = Qt.center (Overlay.bounds ov) /\
      Spec.distance tl tr = Qt.width (Overlay.bounds ov) /\
      Spec.distance tl bl = Qt.height (Overlay.bounds ov) /\
      Spec.distance t rot = Overlay.rotation_handle_distance /\
      Spec.distance (Qt.center (Overlay.bounds ov)) rot =
        Qt.height (Overlay.bounds ov) / 2 + Overlay.rotation_handle_distance.
Proof.
  intros ov Hne.
  assert (Hin : forall h, In h Spec.priority_order ->
            Overlay.lookup h (Overlay.get_handle_positions ov) = Some (Spec.anchor ov h))
    by (intros h Hh; now apply positions_lookup).
  apply isEmpty_false in Hne. destruct Hne as [Hw Hh].
  exists (Spec.anchor ov Overlay.HANDLE_TL), (Spec.anchor ov Overlay.HANDLE_TR),
         (Spec.anchor ov Overlay.HANDLE_BL), (Spec.anchor ov Overlay.HANDLE_BR),
         (Spec.anchor ov Overlay.HANDLE_T), (Spec.anchor ov Overlay.HANDLE_B),
         (Spec.anchor ov Overlay.HANDLE_L), (Spec.anchor ov Overlay.HANDLE_R),
         (Spec.anchor ov Overlay.HANDLE_ROTATE).
  repeat (split; [apply Hin; unfold Spec.priority_order; simpl; tauto |]).
  unfold Spec.anchor.
  set (c := Qt.center (Overlay.bounds ov)).
  rewrite !turn_midpoint.
  assert (Hc : forall q, q = c -> Qt.map (Qt.about c (Overlay.rotation ov)) q = c)
    by (intros q ->; apply turn_center).
  repeat split.
  - f_equal. unfold Props.midpoint, Spec.box_point; simpl. f_equal; lra.
  - f_equal. unfold Props.midpoint, Spec.box_point; simpl. f_equal; lra.
  - f_equal. unfold Props.midpoint, Spec.box_point; simpl. f_equal; lra.
  - f_equal. unfold Props.midpoint, Spec.box_point; simpl. f_equal; lra.
  - apply Hc. unfold c, Props.midpoint, Qt.center; simpl. f_equal; lra.
  - apply Hc. unfold c, Props.midpoint, Qt.center; simpl. f_equal; lra.
  - rewrite turn_distance, distance_horizontal; simpl; lra.
  - rewrite turn_distance, distance_vertical; simpl; lra.
  - rewrite turn_distance. unfold Spec.distance; simpl.
    unfold Overlay.rotation_handle_distance.
    match goal with |- sqrt ?e = _ => replace e with (35 ^ 2) by ring end.
    apply sqrt_pow2; lra.
  - rewrite <- (turn_center c (Overlay.rotation ov)) at 1.
    rewrite turn_distance. unfold Spec.distance, c; simpl.
    unfold Overlay.rotation_handle_distance.
    match goal with |- sqrt ?e = _ =>
      replace e with ((Qt.height (Overlay.bounds ov) / 2 + 35) ^ 2) by field end.
    apply sqrt_pow2; lra.
Qed.

(** The fresh 10 x 10 box. *)
Lemma handle_frame_is_rigid_witness :
  exists tl tr,
    Overlay.lookup Overlay.HANDLE_TL
      (Overlay.get_handle_positions Scenario.small_box) = Some tl /\
    Overlay.lookup Overlay.HANDLE_TR
      (Overlay.get_handle_positions Scenario.small_box) = Some tr /\
    Spec.distance tl tr = 10.
Proof.
  destruct (handle_frame_is_rigid Scenario.small_box)
    as (tl & tr & bl & br & t & b & l & r & rot & H1 & H2 & _ & _ & _ & _ & _ & _ & _
        & _ & _ & _ & _ & _ & _ & Hd & _).
  - apply isEmpty_false; simpl; lra.
  - exists tl, tr. repeat split; [exact H1 | exact H2 | exact Hd].
Defined.

(** ** What [hit_test] answers *)

Lemma first_match_some ov p hs h :
  Spec.first_match ov p hs = Some h ->
  In h hs /\ Spec.in_hit_area ov h p = true.
Proof.
  induction hs as [| k rest IH]; simpl; [discriminate |].
  destruct (Spec.in_hit_area ov k p) eqn:E.
  - intros [= <-]. split; [left; reflexivity | exact E].
  - intros H. destruct (IH H) as [Hin Hhit]. split; [right; exact Hin | exact Hhit].
Qed.

Lemma first_match_none ov p hs :
  Spec.first_match ov p hs = None ->
  forall k, In k hs -> Spec.in_hit_area ov k p = false.
Proof.
  induction hs as [| h rest IH]; simpl; [intros _ k [] |].
  destruct (Spec.in_hit_area ov h p) eqn:E; [discriminate |].
  intros H k [<- | Hk]; [exact E | now apply IH].
Qed.

Lemma handle_hit_area ov k p :
  Qt.isEmpty (Overlay.bounds ov) = false -> In k Spec.priority_order ->
  Props.handle_hit ov k p = Spec.in_hit_area ov k p.
Proof.
  intros Hne Hin. unfold Props.handle_hit.
  rewrite (positions_lookup ov k Hne Hin). reflexivity.
Qed.

Lemma move_not_listed : ~ In Overlay.HANDLE_MOVE Spec.priority_order.
Proof. unfold Spec.priority_order; simpl; intuition discriminate. Qed.

Lemma none_not_listed : ~ In Overlay.HANDLE_NONE Spec.priority_order.
Proof. unfold Spec.priority_order; simpl; intuition discriminate. Qed.

(** The answer of [hit_test] on a visible, non-empty box, read both
    ways.  A handle of the nine is answered only if the pointer is in
    its clickable area, and some handle of the nine is answered as soon
    as the pointer is in any clickable area; move is answered exactly
    when the pointer is in no clickable area but inside the rotated
    box, none exactly when it is in neither. *)
Theorem hit_test_answer :
  forall ov p,
    Overlay.handles_visible ov = true ->
    Qt.isEmpty (Overlay.bounds ov) = false ->
    (forall k, In k Spec.priority_order ->
       Overlay.hit_test ov p = k -> Props.handle_hit ov k p = true) /\
    (forall k, In k Spec.priority_order ->
       Props.handle_hit ov k p = true -> In (Overlay.hit_test ov p) Spec.priority_order) /\
    (Overlay.hit_test ov p = Overlay.HANDLE_MOVE <->
       (forall k, In k Spec.priority_order -> Props.handle_hit ov k p = false) /\
       Overlay._point_in_rotated_bounds ov p = true) /\
    (Overlay.hit_test ov p = Overlay.HANDLE_NONE <->
       (forall k, In k Spec.priority_order -> Props.handle_hit ov k p = false) /\
       Overlay._point_in_rotated_bounds ov p = false).
Proof.
  intros ov p Hv Hne.
  rewrite (hit_test_priority ov p Hv Hne), (point_in_rotated_bounds_inside ov p Hne).
  unfold Spec.hit_priority.
  assert (Hall : (forall k, In k Spec.priority_order -> Props.handle_hit ov k p = false)
                 <-> Spec.first_match ov p Spec.priority_order = None).
  { split.
    - intros Hno. destruct (Spec.first_match ov p Spec.priority_order) as [h |] eqn:E;
        [| reflexivity].
      destruct (first_match_some _ _ _ _ E) as [Hin Hhit].
      rewrite <- (handle_hit_area ov h p Hne Hin), (Hno h Hin) in Hhit. discriminate.
    - intros E k Hk. rewrite (handle_hit_area ov k p Hne Hk).
      exact (first_match_none _ _ _ E k Hk). }
  destruct (Spec.first_match ov p Spec.priority_order) as [h |] eqn:E.
  - destruct (first_match_some _ _ _ _ E) as [Hin Hhit].
    split; [| split; [| split; split]].
    + intros k Hk <-. now rewrite handle_hit_area.
    + intros; exact Hin.
    + intros Hm. exfalso. rewrite Hm in Hin. exact (move_not_listed Hin).
    + intros [Hno _]. apply Hall in Hno. discriminate.
    + intros Hm. exfalso. rewrite Hm in Hin. exact (none_not_listed Hin).
    + intros [Hno _]. apply Hall in Hno. discriminate.
  - pose proof (proj2 Hall eq_refl) as Hno.
    split; [| split; [| split; split]].
    + intros k Hk Hk'. exfalso.
      destruct (Spec.inside_box ov p); subst k;
        [exact (move_not_listed Hk) | exact (none_not_listed Hk)].
    + intros k Hk Hhit. rewrite (Hno k Hk) in Hhit. discriminate.
    + intros Hm. split; [exact Hno |].
      destruct (Spec.inside_box ov p); [reflexivity | discriminate].
    + intros [_ ->]. reflexivity.
    + intros Hm. split; [exact Hno |].
      destruct (Spec.inside_box ov p); [discriminate | reflexivity].
    + intros [_ ->]. reflexivity.
Qed.

(** In the 10 x 10 box, the point (5, 5) is in a clickable area. *)
Lemma hit_test_answer_witness :
  In (Overlay.hit_test Scenario.small_box (Qt.mkPoint 5 5)) Spec.priority_order.
Proof.
  assert (Hne : Qt.isEmpty (Overlay.bounds Scenario.small_box) = false)
    by (apply isEmpty_false; simpl; lra).
  apply (proj1 (proj2 (hit_test_answer Scenario.small_box (Qt.mkPoint 5 5) eq_refl Hne))
           Overlay.HANDLE_TL).
  - unfold Spec.priority_order; simpl; tauto.
  - rewrite (handle_hit_area _ _ _ Hne) by (unfold Spec.priority_order; simpl; tauto).
    apply in_hit_area_true; rewrite anchor_unrotated by reflexivity;
      unfold Spec.hit_size, Overlay.handle_size; simpl; lra.
Defined.

(** A press with the left button inside the rotated box of a visible,
    non-empty overlay always starts a drag, and never one of the
    rotation handle. *)
Theorem press_inside_box_starts_drag :
  forall ov p,
    Overlay.handles_visible ov = true ->
    Qt.isEmpty (Overlay.bounds ov) = false ->
    Overlay._point_in_rotated_bounds ov p = true ->
    exists h,
      h <> Overlay.HANDLE_NONE /\ h <> Overlay.HANDLE_ROTATE /\
      Overlay.hit_test ov p = h /\
      Overlay.mousePressEvent ov true p =
        (Overlay.begin_drag ov h p, [Overlay.transform_started]).
Proof.
  intros ov p Hv Hne Hin.
  assert (Hh : Overlay.hit_test ov p <> Overlay.HANDLE_NONE /\
               Overlay.hit_test ov p <> Overlay.HANDLE_ROTATE).
  { rewrite (hit_test_priority ov p Hv Hne).
    rewrite (point_in_rotated_bounds_inside ov p Hne) in Hin.
    unfold Spec.hit_priority, Spec.priority_order. simpl.
    rewrite (inside_excludes_rotate ov p Hne Hin), Hin.
    repeat match goal with
           | |- context [if ?b then _ else _] => destruct b
           end; split; discriminate. }
  destruct Hh as [Hn Hr].
  exists (Overlay.hit_test ov p). repeat split; try assumption.
  unfold Overlay.mousePressEvent, Overlay.handle_eqb.
  destruct (Overlay.Handle_eq_dec (Overlay.hit_test ov p) Overlay.HANDLE_NONE);
    [contradiction | reflexivity].
Qed.

(** The centre of the 10 x 10 box. *)
Lemma press_inside_box_starts_drag_witness :
  exists h,
    h <> Overlay.HANDLE_NONE /\
    Overlay.mousePressEvent Scenario.small_box true (Qt.mkPoint 5 5) =
      (Overlay.begin_drag Scenario.small_box h (Qt.mkPoint 5 5),
       [Overlay.transform_started]).
Proof.
  destruct (press_inside_box_starts_drag Scenario.small_box (Qt.mkPoint 5 5))
    as (h & Hn & _ & _ & Hp).
  - reflexivity.
  - apply isEmpty_false; simpl; lra.
  - rewrite point_in_rotated_bounds_inside by (apply isEmpty_false; simpl; lra).
    unfold Spec.inside_box. rewrite about_zero by (simpl; lra).
    apply contains_iff; simpl; lra.
  - exists h. split; [exact Hn | exact Hp].
Defined.

(** * A drag, event by event *)

(** ** One move event *)

Lemma ltb_inv a b : Py.ltb a b = true -> a < b.
Proof. unfold Py.ltb. destruct (Rlt_dec a b); [trivial | discriminate]. Qed.

Lemma corner_scale_total ov p :
  Overlay._handle_corner_scale ov p = Some [] \/
  exists sx sy, Overlay._handle_corner_scale ov p = Some [Overlay.scale_changed sx sy].
Proof.
  unfold Overlay._handle_corner_scale.
  match goal with |- context [Py.ltb 0 ?d] => destruct (Py.ltb 0 d) eqn:E end.
  - apply ltb_inv in E. rewrite div_some by lra. right. do 2 eexists. reflexivity.
  - left. reflexivity.
Qed.

Lemma edge_scale_total ov p :
  Overlay._handle_edge_scale ov p = Some [] \/
  exists sx sy, Overlay._handle_edge_scale ov p = Some [Overlay.scale_changed sx sy].
Proof.
  unfold Overlay._handle_edge_scale.
  destruct (Overlay.active_handle ov);
    match goal with
    | |- context [Py.ltb 0 ?d && _] => destruct (Py.ltb 0 d) eqn:E; simpl
    end; try (left; reflexivity);
    match goal with
    | |- context [if Py.ltb 0 ?d then _ else _] => destruct (Py.ltb 0 d); simpl
    end; try (left; reflexivity);
    apply ltb_inv in E; rewrite div_some by lra;
    destruct (Overlay.lock_aspect_ratio ov); right; do 2 eexists; reflexivity.
Qed.

Lemma move_drag_emits ov p :
  Overlay.active_handle ov = Overlay.HANDLE_MOVE ->
  (0 < Z.min (Overlay.widget_width ov) (Overlay.widget_height ov))%Z ->
  Overlay.mouseMoveEvent ov p =
  Some (Overlay.set_drag_start_pos ov p,
        [Overlay.position_changed
           (- ((Qt.x p - Qt.x (Overlay.drag_start_pos ov))
               / IZR (Z.min (Overlay.widget_width ov) (Overlay.widget_height ov))))
           (- ((Qt.y p - Qt.y (Overlay.drag_start_pos ov))
               / IZR (Z.min (Overlay.widget_width ov) (Overlay.widget_height ov))))]).
Proof.
  intros Ha Hw. unfold Overlay.mouseMoveEvent, Overlay._handle_drag.
  rewrite Ha. simpl.
  rewrite (proj2 (Z.ltb_lt _ _) Hw).
  assert (IZR (Z.min (Overlay.widget_width ov) (Overlay.widget_height ov)) <> 0).
  { apply not_0_IZR. lia. }
  rewrite !div_some by assumption. reflexivity.
Qed.

(** The facts about one move event, once the overlay after it and the
    signals are known. *)
Ltac move_facts :=
  repeat split; try reflexivity; try assumption; try (simpl; lia);
  try (intros [? | []]; discriminate); try tauto; try (intros; congruence).

(** A corner or edge drag: nothing is emitted, or one [scale_changed],
    and the overlay is left as it is. *)
Ltac scale_drag ov Hshape Hevent Ha :=
  let E := fresh "E" in
  let sx := fresh "sx" in
  let sy := fresh "sy" in
  destruct Hshape as [E | (sx & sy & E)];
  [ exists ov, [] | exists ov, [Overlay.scale_changed sx sy] ];
  (split; [rewrite Hevent by (rewrite Ha; red; simpl; tauto); rewrite E; reflexivity |]);
  move_facts.

(** What one move event does, in full. *)
Lemma move_event_facts :
  forall ov p,
    exists ov' emitted,
      Overlay.mouseMoveEvent ov p = Some (ov', emitted) /\
      Overlay.active_handle ov' = Overlay.active_handle ov /\
      Overlay.drag_start_bounds ov' = Overlay.drag_start_bounds ov /\
      Overlay.drag_start_rotation ov' = Overlay.drag_start_rotation ov /\
      Overlay.bounds ov' = Overlay.bounds ov /\
      Overlay.rotation ov' = Overlay.rotation ov /\
      Overlay.handles_visible ov' = Overlay.handles_visible ov /\
      Overlay.lock_aspect_ratio ov' = Overlay.lock_aspect_ratio ov /\
      (length emitted <= 1)%nat /\
      ~ In Overlay.transform_started emitted /\
      ~ In Overlay.transform_finished emitted /\
      (Overlay.active_handle ov = Overlay.HANDLE_NONE -> emitted = []) /\
      (Overlay.active_handle ov <> Overlay.HANDLE_NONE ->
       Overlay.hovered_handle ov' = Overlay.hovered_handle ov) /\
      (Overlay.active_handle ov <> Overlay.HANDLE_MOVE ->
       Overlay.drag_start_pos ov' = Overlay.drag_start_pos ov).
Proof.
  intros ov p.
  destruct (Overlay.active_handle ov) eqn:Ha.
  - (* no handle held: hover *)
    exists (if negb (Overlay.handle_eqb (Overlay.hit_test ov p) (Overlay.hovered_handle ov))
            then Overlay.set_hovered_handle ov (Overlay.hit_test ov p) else ov), [].
    unfold Overlay.mouseMoveEvent. rewrite Ha. simpl.
    destruct (negb (Overlay.handle_eqb (Overlay.hit_test ov p) (Overlay.hovered_handle ov)));
      simpl; move_facts.
  - scale_drag ov (corner_scale_total ov p) (move_event_corner ov p) Ha.
  - scale_drag ov (corner_scale_total ov p) (move_event_corner ov p) Ha.
  - scale_drag ov (corner_scale_total ov p) (move_event_corner ov p) Ha.
  - scale_drag ov (corner_scale_total ov p) (move_event_corner ov p) Ha.
  - scale_drag ov (edge_scale_total ov p) (move_event_edge ov p) Ha.
  - scale_drag ov (edge_scale_total ov p) (move_event_edge ov p) Ha.
  - scale_drag ov (edge_scale_total ov p) (move_event_edge ov p) Ha.
  - scale_drag ov (edge_scale_total ov p) (move_event_edge ov p) Ha.
  - (* rotation handle *)
    eexists ov, [_].
    split; [unfold Overlay.mouseMoveEvent, Overlay._handle_drag; rewrite Ha; reflexivity |].
    move_facts.
  - (* move handle *)
    destruct (Z.ltb_spec 0 (Z.min (Overlay.widget_width ov) (Overlay.widget_height ov)))
      as [Hw | Hw].
    + eexists _, _. split; [apply move_drag_emits; assumption |]. move_facts.
    + exists ov, []. unfold Overlay.mouseMoveEvent, Overlay._handle_drag.
      rewrite Ha. simpl. rewrite (proj2 (Z.ltb_ge _ _) Hw). move_facts.
Qed.

(** A move event never raises, whatever the overlay holds: every
    division is guarded.  The handler itself writes nothing but
    [drag_start_pos] (a move drag) or [hovered_handle] (no drag); it
    leaves the handle held and the drag-start snapshot as they are,
    emits at most one signal, a delta, never [transform_started] or
    [transform_finished], and emits nothing when no handle is held. *)
Theorem move_event_is_safe :
  forall ov p,
    exists ov' emitted,
      Overlay.mouseMoveEvent ov p = Some (ov', emitted) /\
      Overlay.active_handle ov' = Overlay.active_handle ov /\
      Overlay.drag_start_bounds ov' = Overlay.drag_start_bounds ov /\
      Overlay.drag_start_rotation ov' = Overlay.drag_start_rotation ov /\
      Overlay.bounds ov' = Overlay.bounds ov /\
      Overlay.rotation ov' = Overlay.rotation ov /\
      Overlay.handles_visible ov' = Overlay.handles_visible ov /\
      Overlay.lock_aspect_ratio ov' = Overlay.lock_aspect_ratio ov /\
      (length emitted <= 1)%nat /\
      ~ In Overlay.transform_started emitted /\
      ~ In Overlay.transform_finished emitted /\
      (Overlay.active_handle ov = Overlay.HANDLE_NONE -> emitted = []) /\
      (Overlay.active_handle ov <> Overlay.HANDLE_NONE ->
       Overlay.hovered_handle ov' = Overlay.hovered_handle ov) /\
      (Overlay.active_handle ov <> Overlay.HANDLE_MOVE ->
       Overlay.drag_start_pos ov' = Overlay.drag_start_pos ov).
Proof. exact move_event_facts. Qed.

(** ** Deltas are measured against the drag-start snapshot *)

Lemma move_event_refreshed ov b r visible p :
  Overlay.active_handle ov <> Overlay.HANDLE_NONE ->
  Overlay.mouseMoveEvent (Props.refreshed ov b r visible) p =
  match Overlay.mouseMoveEvent ov p with
  | Some (ov', emitted) => Some (Props.refreshed ov' b r visible, emitted)
  | None => None
  end.
Proof.
  intros Hn. unfold Overlay.mouseMoveEvent, Overlay._handle_drag,
    Overlay._handle_corner_scale, Overlay._handle_edge_scale.
  destruct ov as [b0 r0 v0 hov act sp sb sr lock ww wh]. simpl in *.
  destruct act; try contradiction; simpl;
    repeat match goal with
           | |- context [Py.ltb ?a ?c] => destruct (Py.ltb a c); simpl
           | |- context [(?a <? ?c)%Z] => destruct (a <? c)%Z; simpl
           end;
    repeat match goal with
           | |- context [Py.div ?a ?c] => destruct (Py.div a c); simpl
           end;
    try destruct lock; reflexivity.
Qed.

(** While a handle is held, what a move event emits does not depend on
    the bounds, the rotation or the visibility the overlay holds at that
    moment: a refresh between two move events (the slots end with one)
    changes neither the next delta nor what the handler writes. *)
Theorem drag_reads_only_the_snapshot :
  forall ov b r visible p,
    Overlay.active_handle ov <> Overlay.HANDLE_NONE ->
    Overlay.mouseMoveEvent (Props.refreshed ov b r visible) p =
    match Overlay.mouseMoveEvent ov p with
    | Some (ov', emitted) => Some (Props.refreshed ov' b r visible, emitted)
    | None => None
    end.
Proof. intros. now apply move_event_refreshed. Qed.

(** Scenario B, with the box moved away and hidden in mid-drag. *)
Lemma drag_reads_only_the_snapshot_witness :
  Overlay.mouseMoveEvent
    (Props.refreshed Scenario.B (Qt.mkRect 0 0 1 1) 90 false) (Qt.mkPoint 700 700) =
  match Overlay.mouseMoveEvent Scenario.B (Qt.mkPoint 700 700) with
  | Some (ov', emitted) => Some (Props.refreshed ov' (Qt.mkRect 0 0 1 1) 90 false, emitted)
  | None => None
  end.
Proof.
  apply (drag_reads_only_the_snapshot Scenario.B (Qt.mkRect 0 0 1 1) 90 false
           (Qt.mkPoint 700 700)).
  simpl. discriminate.
Defined.

(** ** A move event of the move handle *)

(** It rebases [drag_start_pos] and runs the position slot once. *)
Lemma pointer_move_position fuel ov tab p :
  Overlay.active_handle ov = Overlay.HANDLE_MOVE ->
  (0 < Z.min (Overlay.widget_width ov) (Overlay.widget_height ov))%Z ->
  App.pointer_move fuel (ov, tab) p =
  Some (Overlay.set_drag_start_pos ov p,
        Tab._on_handle_position tab (fst (Props.move_delta ov p))
          (snd (Props.move_delta ov p))).
Proof.
  intros Ha Hw. unfold App.pointer_move. simpl.
  rewrite (move_drag_emits ov p Ha Hw). reflexivity.
Qed.

(** ** Scale and rotation deltas are relative to the baseline *)

Lemma handle_scale_twice tab s1 y1 s2 y2 :
  Tab._on_handle_scale (Tab._on_handle_scale tab s1 y1) s2 y2 =
  Tab._on_handle_scale tab s2 y2.
Proof.
  unfold Tab._on_handle_scale.
  destruct tab as [bg lg rot z ox oy ls lox loy op layer sz sr sl]. simpl.
  destruct layer; reflexivity.
Qed.

Lemma handle_rotation_twice fuel tab a1 a2 tab1 :
  Tab._on_handle_rotation fuel tab a1 = Some tab1 ->
  Tab._on_handle_rotation fuel tab1 a2 = Tab._on_handle_rotation fuel tab a2.
Proof.
  unfold Tab._on_handle_rotation.
  destruct tab as [bg lg rot z ox oy ls lox loy op layer sz sr sl]. simpl.
  destruct layer.
  - destruct (Tab.normalize fuel (sr + a1)); [| discriminate].
    intros [= <-]. simpl. destruct (Tab.normalize fuel (sr + a2)); reflexivity.
  - intros [= <-]. reflexivity.
Qed.

(** The deltas of a scale or rotation drag do not accumulate: each is
    applied to the baseline taken at [transform_started], so after two
    deltas the tab is as after the second alone. *)
Theorem drag_deltas_do_not_accumulate :
  forall fuel tab,
    (forall s1 y1 s2 y2,
       Tab._on_handle_scale (Tab._on_handle_scale tab s1 y1) s2 y2 =
       Tab._on_handle_scale tab s2 y2) /\
    (forall a1 a2 tab1,
       Tab._on_handle_rotation fuel tab a1 = Some tab1 ->
       Tab._on_handle_rotation fuel tab1 a2 = Tab._on_handle_rotation fuel tab a2).
Proof.
  intros fuel tab. split.
  - intros. apply handle_scale_twice.
  - intros a1 a2 tab1 H. exact (handle_rotation_twice fuel tab a1 a2 tab1 H).
Qed.

(** Ten degrees, then twenty: the rotation is twenty, not thirty. *)
Lemma drag_deltas_do_not_accumulate_witness :
  Tab._on_handle_rotation 0 (Tab.set_rotation Tab.init 10) 20 =
  Tab._on_handle_rotation 0 Tab.init 20.
Proof.
  apply (proj2 (drag_deltas_do_not_accumulate 0 Tab.init) 10 20).
  unfold Tab._on_handle_rotation. simpl.
  rewrite normalize_fixed by lra.
  unfold Tab.set_rotation. simpl. do 2 f_equal. lra.
Defined.

(** ** Bringing the pointer back *)

Lemma clamp_active_id tab v :
  Spec.active_scale_range tab v -> Spec.clamp_active_scale tab v = v.
Proof.
  unfold Spec.active_scale_range, Spec.clamp_active_scale, Spec.zoom_range,
    Spec.logo_scale_range.
  destruct (Tab.active_layer tab); intros H; apply clamp_id; lra.
Qed.

(** A corner dragged anywhere and brought back to where it was grabbed
    restores the scale the drag started from, provided that scale lies
    in the layer's range. *)
Theorem corner_drag_back_restores :
  forall fuel ov tab p h,
    Overlay.active_handle ov = h -> Spec.is_corner h ->
    0 < Spec.distance (Spec.box_point (Spec.opposite h) (Overlay.drag_start_bounds ov))
          (Overlay.drag_start_pos ov) ->
    Spec.active_scale_range tab (Spec.active_baseline tab) ->
    exists tab1 tab2,
      App.pointer_move fuel (ov, tab) p = Some (ov, tab1) /\
      App.pointer_move fuel (ov, tab1) (Overlay.drag_start_pos ov) = Some (ov, tab2) /\
      Spec.active_scale tab2 = Spec.active_baseline tab.
Proof.
  intros fuel ov tab p h Ha Hc Hd Hr.
  assert (Hmove : forall q tab0,
            App.pointer_move fuel (ov, tab0) q =
            Some (ov, Tab._on_handle_scale tab0
                        (Spec.distance (Spec.box_point (Spec.opposite h)
                                          (Overlay.drag_start_bounds ov)) q
                         / Spec.distance (Spec.box_point (Spec.opposite h)
                                            (Overlay.drag_start_bounds ov))
                             (Overlay.drag_start_pos ov))
                        (Spec.distance (Spec.box_point (Spec.opposite h)
                                          (Overlay.drag_start_bounds ov)) q
                         / Spec.distance (Spec.box_point (Spec.opposite h)
                                            (Overlay.drag_start_bounds ov))
                             (Overlay.drag_start_pos ov)))).
  { intros q tab0. apply pointer_move_scale.
    rewrite move_event_corner by (rewrite Ha; exact Hc).
    rewrite (corner_scale_emits ov q h Ha Hc Hd). reflexivity. }
  eexists _, _. split; [apply Hmove |]. split; [apply Hmove |].
  rewrite handle_scale_twice, handle_scale_value.
  unfold Rdiv. rewrite Rinv_r by lra. rewrite Rmult_1_r.
  now apply clamp_active_id.
Qed.

(** Scenario B: out to (700, 700) and back to (600, 600). *)
Lemma corner_drag_back_restores_witness :
  exists tab1 tab2,
    App.pointer_move 0 (Scenario.B, Tab.init) (Qt.mkPoint 700 700)
      = Some (Scenario.B, tab1) /\
    App.pointer_move 0 (Scenario.B, tab1) (Qt.mkPoint 600 600) = Some (Scenario.B, tab2) /\
    Spec.active_scale tab2 = 1.
Proof.
  apply (corner_drag_back_restores 0 Scenario.B Tab.init (Qt.mkPoint 700 700)
           Overlay.HANDLE_BR eq_refl).
  - red; simpl; tauto.
  - unfold Spec.distance. apply sqrt_lt_R0. simpl. lra.
  - unfold Spec.active_scale_range, Spec.active_baseline, Spec.zoom_range; simpl; lra.
Defined.

(** ** The rotation handle *)

Lemma atan_nonpos t : t <= 0 -> atan t <= 0.
Proof.
  intros [H | ->]; [| rewrite atan_0; lra].
  pose proof (atan_increasing t 0 H) as Hi. rewrite atan_0 in Hi. lra.
Qed.

Lemma atan_pos t : 0 < t -> 0 < atan t.
Proof. intros H. pose proof (atan_increasing 0 t H) as Hi. rewrite atan_0 in Hi. lra. Qed.

(** [math.atan2] answers in (-pi, pi]. *)
Lemma atan2_range y x : - PI < Py.atan2 y x <= PI.
Proof.
  pose proof PI_RGT_0 as Hpi. pose proof (atan_bound (y / x)) as Hb.
  unfold Py.atan2, Py.ltb, Py.leb.
  destruct (Rlt_dec 0 x) as [Hx | Hx]; [lra |].
  destruct (Rlt_dec x 0) as [Hx' | Hx'].
  - assert (Hi : / x < 0) by (apply Rinv_lt_0_compat; exact Hx').
    destruct (Rle_dec 0 y) as [Hy | Hy].
    + assert (y / x <= 0) by (unfold Rdiv; nra).
      pose proof (atan_nonpos _ H). lra.
    + assert (0 < y / x) by (unfold Rdiv; nra).
      pose proof (atan_pos _ H). lra.
  - destruct (Rlt_dec 0 y); [lra |]. destruct (Rlt_dec y 0); lra.
Qed.

(** A vector that is not null points where its [atan2] says. *)
Lemma atan2_direction y x :
  x <> 0 \/ y <> 0 ->
  exists k, 0 < k /\ x = k * cos (Py.atan2 y x) /\ y = k * sin (Py.atan2 y x).
Proof.
  intros Hnz.
  pose proof (atan_bound (y / x)) as Hb.
  assert (Hc : 0 < cos (atan (y / x))) by (apply cos_gt_0; lra).
  assert (Hs : sin (atan (y / x)) = y / x * cos (atan (y / x))).
  { pose proof (tan_atan (y / x)) as Ht. unfold tan in Ht.
    rewrite <- Ht at 2. field. lra. }
  unfold Py.atan2, Py.ltb, Py.leb.
  destruct (Rlt_dec 0 x) as [Hx | Hx].
  - exists (x / cos (atan (y / x))). split; [apply Rdiv_lt_0_compat; assumption |].
    split; [field; lra |]. rewrite Hs. field. first [lra | split; lra].
  - destruct (Rlt_dec x 0) as [Hx' | Hx'].
    + exists (- x / cos (atan (y / x))).
      split; [apply Rdiv_lt_0_compat; [lra | assumption] |].
      destruct (Rle_dec 0 y) as [Hy | Hy].
      * rewrite neg_cos, neg_sin, Hs. split; field; first [lra | split; lra].
      * rewrite cos_minus, sin_minus, cos_PI, sin_PI, Hs.
        split; field; first [lra | split; lra].
    + assert (x = 0) by lra. subst x.
      destruct (Rlt_dec 0 y) as [Hy | Hy].
      * exists y. rewrite cos_PI2, sin_PI2. repeat split; lra.
      * destruct (Rlt_dec y 0) as [Hy' | Hy'].
        -- exists (- y). rewrite cos_neg, sin_neg, cos_PI2, sin_PI2. repeat split; lra.
        -- exfalso. destruct Hnz; lra.
Qed.

Lemma degrees_radians a : Py.degrees a * PI / 180 = a.
Proof. unfold Py.degrees. field. pose proof PI_RGT_0. lra. Qed.

Lemma rotate_drag_emits ov p :
  Overlay.active_handle ov = Overlay.HANDLE_ROTATE ->
  Overlay.mouseMoveEvent ov p =
  Some (ov, [Overlay.rotation_changed
               (Py.degrees
                  (Py.atan2 (Qt.y p - Qt.y (Qt.center (Overlay.drag_start_bounds ov)))
                            (Qt.x p - Qt.x (Qt.center (Overlay.drag_start_bounds ov)))
                   - Py.atan2
                       (Qt.y (Overlay.drag_start_pos ov)
                        - Qt.y (Qt.center (Overlay.drag_start_bounds ov)))
                       (Qt.x (Overlay.drag_start_pos ov)
                        - Qt.x (Qt.center (Overlay.drag_start_bounds ov)))))]).
Proof.
  intros Ha. unfold Overlay.mouseMoveEvent, Overlay._handle_drag. rewrite Ha.
  reflexivity.
Qed.

Lemma degrees_bound a b :
  - PI < a <= PI -> - PI < b <= PI -> -360 < Py.degrees (a - b) < 360.
Proof.
  intros Ha Hb. pose proof PI_RGT_0 as Hpi. unfold Py.degrees.
  assert (E : (a - b) * 180 / PI = (a - b) / PI * 180) by (field; lra).
  rewrite E.
  assert (Ht : (a - b) / PI * PI = a - b) by (field; lra).
  set (t := (a - b) / PI) in *. nra.
Qed.

(** The angle a rotation drag emits turns the grab point onto the ray
    from the centre of the drag-start box through the pointer: the
    handle follows the pointer.  The angle lies strictly between -360
    and 360 degrees. *)
Theorem rotation_delta_follows_pointer :
  forall ov p,
    Overlay.active_handle ov = Overlay.HANDLE_ROTATE ->
    Qt.x (Overlay.drag_start_pos ov) <> Qt.x (Qt.center (Overlay.drag_start_bounds ov)) \/
    Qt.y (Overlay.drag_start_pos ov) <> Qt.y (Qt.center (Overlay.drag_start_bounds ov)) ->
    Qt.x p <> Qt.x (Qt.center (Overlay.drag_start_bounds ov)) \/
    Qt.y p <> Qt.y (Qt.center (Overlay.drag_start_bounds ov)) ->
    exists angle_delta k,
      Overlay.mouseMoveEvent ov p = Some (ov, [Overlay.rotation_changed angle_delta]) /\
      -360 < angle_delta < 360 /\
      0 < k /\
      Qt.map (Qt.about (Qt.center (Overlay.drag_start_bounds ov)) angle_delta)
             (Overlay.drag_start_pos ov) =
      Qt.mkPoint
        (Qt.x (Qt.center (Overlay.drag_start_bounds ov))
         + k * (Qt.x p - Qt.x (Qt.center (Overlay.drag_start_bounds ov))))
        (Qt.y (Qt.center (Overlay.drag_start_bounds ov))
         + k * (Qt.y p - Qt.y (Qt.center (Overlay.drag_start_bounds ov)))).
Proof.
  intros ov p Ha Hs Hp.
  set (c := Qt.center (Overlay.drag_start_bounds ov)) in *.
  destruct (atan2_direction (Qt.y (Overlay.drag_start_pos ov) - Qt.y c)
              (Qt.x (Overlay.drag_start_pos ov) - Qt.x c)) as (k0 & Hk0 & Hx0 & Hy0);
    [destruct Hs; [left | right]; lra |].
  destruct (atan2_direction (Qt.y p - Qt.y c) (Qt.x p - Qt.x c))
    as (k1 & Hk1 & Hx1 & Hy1); [destruct Hp; [left | right]; lra |].
  eexists _, (k0 / k1).
  split; [apply rotate_drag_emits; exact Ha |].
  split; [apply degrees_bound; apply atan2_range |].
  split; [apply Rdiv_lt_0_compat; assumption |].
  rewrite map_about, degrees_radians. fold c.
  rewrite cos_minus, sin_minus.
  set (a1 := Py.atan2 (Qt.y p - Qt.y c) (Qt.x p - Qt.x c)) in *.
  set (a0 := Py.atan2 (Qt.y (Overlay.drag_start_pos ov) - Qt.y c)
               (Qt.x (Overlay.drag_start_pos ov) - Qt.x c)) in *.
  pose proof (sin2_cos2 a0) as H0. unfold Rsqr in H0.
  rewrite Hx0, Hy0, Hx1, Hy1.
  f_equal.
  - transitivity (Qt.x c + k0 * cos a1 * (sin a0 * sin a0 + cos a0 * cos a0));
      [ring | rewrite H0; field; lra].
  - transitivity (Qt.y c + k0 * sin a1 * (sin a0 * sin a0 + cos a0 * cos a0));
      [ring | rewrite H0; field; lra].
Qed.

(** The rotation handle of a 100 x 100 box grabbed above the centre,
    the pointer brought to the right of the centre. *)
Lemma rotation_delta_follows_pointer_witness :
  exists angle_delta k,
    Overlay.mouseMoveEvent
      (Scenario.dragging Overlay.HANDLE_ROTATE (Qt.mkPoint 550 465)
         (Qt.mkRect 500 500 100 100) true) (Qt.mkPoint 640 550)
    = Some (Scenario.dragging Overlay.HANDLE_ROTATE (Qt.mkPoint 550 465)
              (Qt.mkRect 500 500 100 100) true,
            [Overlay.rotation_changed angle_delta]) /\
    -360 < angle_delta < 360 /\ 0 < k.
Proof.
  destruct (rotation_delta_follows_pointer
              (Scenario.dragging Overlay.HANDLE_ROTATE (Qt.mkPoint 550 465)
                 (Qt.mkRect 500 500 100 100) true) (Qt.mkPoint 640 550))
    as (angle_delta & k & He & Hr & Hk & _).
  - reflexivity.
  - right. simpl. lra.
  - left. simpl. lra.
  - exists angle_delta, k. split; [exact He |]. split; [exact Hr | exact Hk].
Defined.

(** For an angle within one and a half turns of zero, each loop of the
    normalisation runs at most once. *)
Lemma normalize_one_turn fuel r :
  -540 < r < 540 -> (1 <= fuel)%nat ->
  Tab.normalize fuel r =
  Some (if Rlt_dec 180 r then r - 360 else if Rlt_dec r (-180) then r + 360 else r).
Proof.
  intros Hr Hf. destruct fuel as [| fuel]; [lia |].
  unfold Tab.normalize.
  destruct (Rlt_dec 180 r) as [Hhi | Hhi].
  - rewrite while_above_unfold, gtb_true by lra.
    rewrite while_above_unfold, gtb_false by lra.
    rewrite while_below_unfold, ltb_false by lra. reflexivity.
  - rewrite while_above_unfold, gtb_false by lra.
    destruct (Rlt_dec r (-180)) as [Hlo | Hlo].
    + rewrite while_below_unfold, ltb_true by lra.
      rewrite while_below_unfold, ltb_false by lra. reflexivity.
    + rewrite while_below_unfold, ltb_false by lra. reflexivity.
Qed.

(** A rotation drag never needs more than one pass of either loop: with
    the drag-start rotation within [-180, 180], every move event of the
    rotation handle is delivered, stores a background rotation within
    [-180, 180] that differs from baseline + delta by a whole number of
    turns (-1, 0 or 1), and leaves a tab whose active layer is the logo
    as it is. *)
Theorem rotate_drag_needs_one_turn :
  forall fuel ov tab p,
    Overlay.active_handle ov = Overlay.HANDLE_ROTATE ->
    -180 <= Tab.transform_start_rotation tab <= 180 ->
    (1 <= fuel)%nat ->
    exists angle_delta tab',
      Overlay.mouseMoveEvent ov p = Some (ov, [Overlay.rotation_changed angle_delta]) /\
      App.pointer_move fuel (ov, tab) p = Some (ov, tab') /\
      (Tab.active_layer tab = Tab.logo -> tab' = tab) /\
      (Tab.active_layer tab = Tab.background ->
       tab' = Tab.set_rotation tab (Tab.rotation tab') /\
       -180 <= Tab.rotation tab' <= 180 /\
       (Tab.rotation tab' = Tab.transform_start_rotation tab + angle_delta - 360 \/
        Tab.rotation tab' = Tab.transform_start_rotation tab + angle_delta \/
        Tab.rotation tab' = Tab.transform_start_rotation tab + angle_delta + 360)).
Proof.
  intros fuel ov tab p Ha Hb Hf.
  pose proof (rotate_drag_emits ov p Ha) as He.
  match type of He with
  | _ = Some (_, [Overlay.rotation_changed ?d]) => set (delta := d) in *
  end.
  assert (Hd : -360 < delta < 360) by (apply degrees_bound; apply atan2_range).
  unfold App.pointer_move. simpl. rewrite He. simpl.
  unfold Tab._on_handle_rotation.
  destruct (Tab.active_layer tab) eqn:El.
  - rewrite normalize_one_turn by (try lra; exact Hf).
    eexists delta, _. split; [reflexivity |]. split; [reflexivity |].
    split; [discriminate |]. intros _. simpl.
    split; [reflexivity |].
    destruct (Rlt_dec 180 (Tab.transform_start_rotation tab + delta));
      [| destruct (Rlt_dec (Tab.transform_start_rotation tab + delta) (-180))];
      split; lra.
  - exists delta, tab. split; [reflexivity |]. split; [reflexivity |].
    split; [reflexivity | discriminate].
Qed.

(** The same drag of the rotation handle, with the fuel for one pass. *)
Lemma rotate_drag_needs_one_turn_witness :
  exists angle_delta tab',
    App.pointer_move 1
      (Scenario.dragging Overlay.HANDLE_ROTATE (Qt.mkPoint 550 465)
         (Qt.mkRect 500 500 100 100) true, Tab.init) (Qt.mkPoint 640 550)
    = Some (Scenario.dragging Overlay.HANDLE_ROTATE (Qt.mkPoint 550 465)
              (Qt.mkRect 500 500 100 100) true, tab') /\
    -180 <= Tab.rotation tab' <= 180 /\
    (Tab.rotation tab' = 0 + angle_delta - 360 \/
     Tab.rotation tab' = 0 + angle_delta \/
     Tab.rotation tab' = 0 + angle_delta + 360).
Proof.
  destruct (rotate_drag_needs_one_turn 1
              (Scenario.dragging Overlay.HANDLE_ROTATE (Qt.mkPoint 550 465)
                 (Qt.mkRect 500 500 100 100) true) Tab.init (Qt.mkPoint 640 550))
    as (angle_delta & tab' & _ & Hm & _ & Hbg).
  - reflexivity.
  - simpl. lra.
  - lia.
  - destruct (Hbg eq_refl) as (_ & Hr & Hk).
    exists angle_delta, tab'. split; [exact Hm |]. split; [exact Hr | exact Hk].
Defined.

(** * The view and the controls of the tab *)

(** ** The event filter and the overlay's own handlers *)

(** The filter, event by event. *)
Lemma event_filter_facts :
  forall ov,
    (forall left_button pos,
       View.eventFilter ov (View.MouseButtonPress left_button pos) =
       Some (fst (Overlay.mousePressEvent ov left_button pos),
             snd (Overlay.mousePressEvent ov left_button pos),
             negb (Overlay.handle_eqb (Overlay.hit_test ov pos) Overlay.HANDLE_NONE))) /\
    (forall pos,
       View.eventFilter ov (View.MouseMove pos) =
       match Overlay.mouseMoveEvent ov pos with
       | Some (ov', emitted) =>
           Some (ov', emitted,
                 negb (Overlay.handle_eqb (Overlay.active_handle ov) Overlay.HANDLE_NONE))
       | None => None
       end) /\
    (forall left_button,
       View.eventFilter ov (View.MouseButtonRelease left_button) =
       Some (fst (Overlay.mouseReleaseEvent ov left_button),
             snd (Overlay.mouseReleaseEvent ov left_button),
             negb (Overlay.handle_eqb (Overlay.active_handle ov) Overlay.HANDLE_NONE))).
Proof.
  intros ov. split; [| split].
  - intros left_button pos. unfold View.eventFilter, Overlay.mousePressEvent.
    destruct (negb (Overlay.handle_eqb (Overlay.hit_test ov pos) Overlay.HANDLE_NONE));
      destruct left_button; reflexivity.
  - intros pos. unfold View.eventFilter, Overlay.mouseMoveEvent.
    destruct (negb (Overlay.handle_eqb (Overlay.active_handle ov) Overlay.HANDLE_NONE)).
    + destruct (Overlay._handle_drag ov pos) as [[ov' emitted] |]; reflexivity.
    + destruct (negb (Overlay.handle_eqb (Overlay.hit_test ov pos)
                        (Overlay.hovered_handle ov))); reflexivity.
  - intros left_button. unfold View.eventFilter, Overlay.mouseReleaseEvent.
    destruct (negb (Overlay.handle_eqb (Overlay.active_handle ov) Overlay.HANDLE_NONE));
      destruct left_button; reflexivity.
Qed.

(** The event filter of the view and the handlers of the overlay agree:
    whichever of the two an event of the viewport goes through, the
    overlay ends in the same state and the same signals are emitted.
    The filter consumes a press exactly when it lands on a handle (also
    a press of another button, which starts nothing), and a move or a
    release exactly when a handle is held. *)
Theorem event_filter_agrees_with_overlay :
  forall ov,
    (forall left_button pos,
       View.eventFilter ov (View.MouseButtonPress left_button pos) =
       Some (fst (Overlay.mousePressEvent ov left_button pos),
             snd (Overlay.mousePressEvent ov left_button pos),
             negb (Overlay.handle_eqb (Overlay.hit_test ov pos) Overlay.HANDLE_NONE))) /\
    (forall pos,
       View.eventFilter ov (View.MouseMove pos) =
       match Overlay.mouseMoveEvent ov pos with
       | Some (ov', emitted) =>
           Some (ov', emitted,
                 negb (Overlay.handle_eqb (Overlay.active_handle ov) Overlay.HANDLE_NONE))
       | None => None
       end) /\
    (forall left_button,
       View.eventFilter ov (View.MouseButtonRelease left_button) =
       Some (fst (Overlay.mouseReleaseEvent ov left_button),
             snd (Overlay.mouseReleaseEvent ov left_button),
             negb (Overlay.handle_eqb (Overlay.active_handle ov) Overlay.HANDLE_NONE))).
Proof. exact event_filter_facts. Qed.

(** ** What the inputs can do to the transforms *)

Lemma while_above_le fuel : forall r r', Tab.while_above fuel r = Some r' -> r' <= 180.
Proof.
  induction fuel as [| fuel IH]; intros r r'; rewrite while_above_unfold;
    unfold Py.gtb, Py.ltb; destruct (Rlt_dec 180 r); try discriminate;
    try (intros [= <-]; lra).
  apply IH.
Qed.

Lemma while_below_ge fuel :
  forall r r', r <= 180 -> Tab.while_below fuel r = Some r' -> -180 <= r' <= 180.
Proof.
  induction fuel as [| fuel IH]; intros r r' Hr; rewrite while_below_unfold;
    unfold Py.ltb; destruct (Rlt_dec r (-180)); try discriminate;
    try (intros [= <-]; lra).
  apply IH. lra.
Qed.

Lemma normalize_in_range fuel r r' :
  Tab.normalize fuel r = Some r' -> -180 <= r' <= 180.
Proof.
  unfold Tab.normalize. destruct (Tab.while_above fuel r) as [a |] eqn:E;
    [| discriminate].
  intros H. apply (while_below_ge fuel a r'); [| exact H].
  exact (while_above_le fuel r a E).
Qed.

Lemma react_total tab i :
  exists n tab', forall fuel, (n <= fuel)%nat -> Ui.react fuel tab i = Some tab'.
Proof.
  assert (Hany : forall t, (forall fuel, Ui.react fuel tab i = Some t) ->
            exists n tab', forall fuel, (n <= fuel)%nat -> Ui.react fuel tab i = Some tab').
  { intros t Ht. exists 0%nat, t. intros fuel _. apply Ht. }
  destruct i as [s | s | layer | value | | value | | size | |];
    try (eapply Hany; intros; reflexivity).
  - destruct s as [sx sy | angle_delta | dx dy | |];
      try (eapply Hany; intros; reflexivity).
    simpl. unfold Tab._on_handle_rotation.
    destruct (Tab.active_layer tab).
    + destruct (normalize_total (Tab.transform_start_rotation tab + angle_delta))
        as (n & r' & Hn & _).
      exists n, (Tab.set_rotation tab r'). intros fuel Hf. now rewrite (Hn fuel Hf).
    + exists 0%nat, tab. reflexivity.
  - destruct s; eapply Hany; intros; reflexivity.
Qed.

Ltac in_range :=
  first [ assumption
        | apply clamp_range; lra
        | lra
        | split; [apply clamp_range; lra | apply clamp_range; lra] ].

Ltac logo_size Hlg :=
  match goal with
  | H : _ = Some (_, _) |- _ => destruct (Hlg _ _ H); assumption
  end.

Lemma opacity_in_range value :
  (0 <= value <= 100)%Z -> 0 <= IZR value / 100 <= 1.
Proof.
  intros [H0 H1]. apply IZR_le in H0. apply IZR_le in H1. lra.
Qed.

Lemma react_keeps_well_formed fuel tab i tab' :
  Props.well_formed tab -> Props.admissible tab i ->
  Ui.react fuel tab i = Some tab' -> Props.well_formed tab'.
Proof.
  intros Hw Ha Hr.
  destruct tab as [bg lg rot z ox oy ls lox loy op layer sz sr sl].
  unfold Props.well_formed, Spec.scales_in_range, Spec.offsets_in_range,
    Spec.zoom_range, Spec.logo_scale_range, Spec.unit_range in *.
  simpl in Hw. destruct Hw as ((Hz & Hls) & (Hox & Hoy & Hlox & Hloy) & Hrot & Hop & Hbg & Hlg).
  destruct i as [s | s | l | value | | value | | [w h] | |]; simpl in Hr.
  - destruct s as [sx sy | angle_delta | dx dy | |]; simpl in Hr.
    + injection Hr as <-. unfold Tab._on_handle_scale. simpl.
      destruct layer; simpl; repeat split; try in_range; try logo_size Hlg.
    + unfold Tab._on_handle_rotation in Hr. simpl in Hr. destruct layer.
      * destruct (Tab.normalize fuel (sr + angle_delta)) as [r' |] eqn:E;
          [| discriminate].
        injection Hr as <-. simpl. pose proof (normalize_in_range _ _ _ E).
        repeat split; try in_range; try logo_size Hlg.
      * injection Hr as <-. simpl. repeat split; try in_range; try logo_size Hlg.
    + injection Hr as <-. unfold Tab._on_handle_position. simpl.
      destruct layer; simpl; repeat split; try in_range; try logo_size Hlg.
    + injection Hr as <-. simpl. repeat split; try in_range; try logo_size Hlg.
    + injection Hr as <-. simpl. repeat split; try in_range; try logo_size Hlg.
  - destruct s as [zoom_step | dx dy]; injection Hr as <-.
    + unfold Tab._on_wheel_zoom. simpl.
      destruct layer; simpl; repeat split; try in_range; try logo_size Hlg.
    + unfold Tab._on_handle_position. simpl.
      destruct layer; simpl; repeat split; try in_range; try logo_size Hlg.
  - injection Hr as <-. simpl. repeat split; try in_range; try logo_size Hlg.
  - injection Hr as <-. unfold Tab._on_scale_spinbox_changed.
    unfold Props.admissible, Spec.active_scale_range, Spec.zoom_range,
      Spec.logo_scale_range in Ha. simpl in *.
    destruct layer; simpl; repeat split; try in_range; try logo_size Hlg.
  - injection Hr as <-. unfold Tab._reset_current_layer. simpl.
    destruct layer; simpl; repeat split; try in_range; try logo_size Hlg.
  - injection Hr as <-. simpl in Ha. pose proof (opacity_in_range value Ha).
    simpl. repeat split; try in_range; try logo_size Hlg.
  - injection Hr as <-. simpl. repeat split; try in_range; try logo_size Hlg.
    right. reflexivity.
  - injection Hr as <-. simpl in Ha. simpl. repeat split; try in_range;
      match goal with H : Some _ = Some _ |- _ => injection H as <- <-; tauto end.
  - injection Hr as <-. simpl. repeat split; try in_range; try logo_size Hlg.
    left. reflexivity.
  - injection Hr as <-. simpl. repeat split; try in_range; discriminate.
Qed.

(** From the initial state, no sequence of gestures, wheel steps, arrow
    keys, layer switches, resets, uploads and opacity changes takes a
    transform out of its range: zoom stays in [0.1, 10], the logo scale
    in [0.05, 2], the four offsets and the opacity in [0, 1], the
    rotation in [-180, 180].  The scale box is included as long as the
    value it hands over lies in the range of the active layer.  Every
    such input is served: its slot returns, and the state it leaves is
    again one of these. *)
Theorem gestures_keep_the_tab_well_formed :
  forall tab,
    Props.reachable Props.admissible tab ->
    Props.well_formed tab /\
    (forall i, Props.admissible tab i ->
       exists n tab',
         (forall fuel, (n <= fuel)%nat -> Ui.react fuel tab i = Some tab') /\
         Props.reachable Props.admissible tab').
Proof.
  intros tab Hreach.
  assert (Hwf : Props.well_formed tab).
  { induction Hreach as [| tab i fuel tab' _ IH Ha Hr].
    - unfold Props.well_formed, Spec.scales_in_range, Spec.offsets_in_range,
        Spec.zoom_range, Spec.logo_scale_range, Spec.unit_range. simpl.
      repeat split; try lra; try (left; reflexivity); discriminate.
    - exact (react_keeps_well_formed fuel tab i tab' IH Ha Hr). }
  split; [exact Hwf |].
  intros i Ha. destruct (react_total tab i) as (n & tab' & Hn).
  exists n, tab'. split; [exact Hn |].
  apply (Props.reach_step Props.admissible tab i n tab' Hreach Ha).
  apply Hn. lia.
Qed.

(** The logo layer selected, a wheel step, then a scale drag by 3. *)
Lemma gestures_keep_the_tab_well_formed_witness :
  Props.well_formed
    (Tab._on_handle_scale
       (Tab._on_wheel_zoom (Tab._select_layer Tab.init Tab.logo) (5 / 100)) 3 3).
Proof.
  refine (proj1 (gestures_keep_the_tab_well_formed _ _)).
  apply (Props.reach_step Props.admissible
           (Tab._on_wheel_zoom (Tab._select_layer Tab.init Tab.logo) (5 / 100))
           (Ui.overlay_signal (Overlay.scale_changed 3 3)) 0%nat);
    [| exact I | reflexivity].
  apply (Props.reach_step Props.admissible (Tab._select_layer Tab.init Tab.logo)
           (Ui.view_signal (View.zoom_changed (5 / 100))) 0%nat);
    [| exact I | reflexivity].
  apply (Props.reach_step Props.admissible Tab.init (Ui.layer_button Tab.logo) 0%nat);
    [| exact I | reflexivity].
  apply Props.reach_init.
Defined.

Ltac in_loose_range :=
  first [ assumption
        | lra
        | match goal with
          | |- context [Py.max ?lo (Py.min ?hi ?v)] =>
              pose proof (clamp_range lo hi v ltac:(lra)); lra
          end ].

Lemma react_keeps_loosely_formed fuel tab i tab' :
  Props.loosely_formed tab -> Props.widget_range tab i ->
  Ui.react fuel tab i = Some tab' -> Props.loosely_formed tab'.
Proof.
  intros Hw Ha Hr.
  destruct tab as [bg lg rot z ox oy ls lox loy op layer sz sr sl].
  unfold Props.loosely_formed, Spec.offsets_in_range, Spec.unit_range in *.
  simpl in Hw. destruct Hw as (Hz & Hls & (Hox & Hoy & Hlox & Hloy) & Hrot & Hop).
  destruct i as [s | s | l | value | | value | | [w h] | |]; simpl in Hr.
  - destruct s as [sx sy | angle_delta | dx dy | |]; simpl in Hr.
    + injection Hr as <-. unfold Tab._on_handle_scale. simpl.
      destruct layer; simpl; repeat split; in_loose_range.
    + unfold Tab._on_handle_rotation in Hr. simpl in Hr. destruct layer.
      * destruct (Tab.normalize fuel (sr + angle_delta)) as [r' |] eqn:E;
          [| discriminate].
        injection Hr as <-. simpl. pose proof (normalize_in_range _ _ _ E).
        repeat split; in_loose_range.
      * injection Hr as <-. simpl. repeat split; in_loose_range.
    + injection Hr as <-. unfold Tab._on_handle_position. simpl.
      destruct layer; simpl; repeat split; in_loose_range.
    + injection Hr as <-. simpl. repeat split; in_loose_range.
    + injection Hr as <-. simpl. repeat split; in_loose_range.
  - destruct s as [zoom_step | dx dy]; injection Hr as <-.
    + unfold Tab._on_wheel_zoom. simpl.
      destruct layer; simpl; repeat split; in_loose_range.
    + unfold Tab._on_handle_position. simpl.
      destruct layer; simpl; repeat split; in_loose_range.
  - injection Hr as <-. simpl. repeat split; in_loose_range.
  - injection Hr as <-. unfold Tab._on_scale_spinbox_changed.
    unfold Props.widget_range, Tab.scale_spinbox_value in Ha. simpl in *.
    destruct layer; simpl; repeat split; in_loose_range.
  - injection Hr as <-. unfold Tab._reset_current_layer. simpl.
    destruct layer; simpl; repeat split; in_loose_range.
  - injection Hr as <-. simpl in Ha. pose proof (opacity_in_range value Ha).
    simpl. repeat split; in_loose_range.
  - injection Hr as <-. simpl. repeat split; in_loose_range.
  - injection Hr as <-. simpl. repeat split; in_loose_range.
  - injection Hr as <-. simpl. repeat split; in_loose_range.
  - injection Hr as <-. simpl. repeat split; in_loose_range.
Qed.

(** With the scale box used over its whole range, 1 to 1000, the scales
    can leave the ranges of the gestures, but never [0.01, 10]; the
    offsets, the rotation and the opacity keep their ranges. *)
Theorem scale_box_escape_is_bounded :
  forall tab,
    Props.reachable Props.widget_range tab -> Props.loosely_formed tab.
Proof.
  intros tab Hreach. induction Hreach as [| tab i fuel tab' _ IH Ha Hr].
  - unfold Props.loosely_formed, Spec.offsets_in_range, Spec.unit_range. simpl.
    repeat split; lra.
  - exact (react_keeps_loosely_formed fuel tab i tab' IH Ha Hr).
Qed.

(** The scale box at 1 with the background active. *)
Lemma scale_box_escape_is_bounded_witness :
  Props.loosely_formed (Tab._on_scale_spinbox_changed Tab.init 1).
Proof.
  apply scale_box_escape_is_bounded.
  apply (Props.reach_step Props.widget_range Tab.init (Ui.scale_spinbox 1) 0%nat);
    [apply Props.reach_init | | reflexivity].
  unfold Props.widget_range, Tab.scale_spinbox_value. lra.
Defined.

(** ** One layer at a time *)

(** Gestures, wheel steps, arrow keys, the scale box, the reset button
    and the layer buttons act on the active layer only: the transform
    of the other layer and both images are left as they are.  With the
    logo active, a rotation delta changes nothing at all. *)
Theorem inactive_layer_is_untouched :
  forall fuel tab i tab',
    Props.acts_on_active_layer i ->
    Ui.react fuel tab i = Some tab' ->
    Tab.background_image tab' = Tab.background_image tab /\
    Tab.logo_image tab' = Tab.logo_image tab /\
    (Tab.active_layer tab = Tab.logo ->
     Props.background_transform tab' = Props.background_transform tab) /\
    (Tab.active_layer tab = Tab.background ->
     Props.logo_transform tab' = Props.logo_transform tab) /\
    (Tab.active_layer tab = Tab.logo ->
     forall angle_delta,
       i = Ui.overlay_signal (Overlay.rotation_changed angle_delta) -> tab' = tab).
Proof.
  intros fuel tab i tab' Hi Hr.
  destruct tab as [bg lg rot z ox oy ls lox loy op layer sz sr sl].
  unfold Props.background_transform, Props.logo_transform.
  destruct i as [s | s | l | value | | value | | size | |]; simpl in Hi; try contradiction;
    simpl in Hr.
  - destruct s as [sx sy | angle_delta | dx dy | |]; simpl in Hr.
    + injection Hr as <-. destruct layer; simpl; repeat split; congruence.
    + unfold Tab._on_handle_rotation in Hr. simpl in Hr. destruct layer.
      * destruct (Tab.normalize fuel (sr + angle_delta)); [| discriminate].
        injection Hr as <-. simpl. repeat split; congruence.
      * injection Hr as <-. simpl. repeat split; congruence.
    + injection Hr as <-. destruct layer; simpl; repeat split; congruence.
    + injection Hr as <-. destruct layer; simpl; repeat split; congruence.
    + injection Hr as <-. destruct layer; simpl; repeat split; congruence.
  - destruct s as [zoom_step | dx dy]; injection Hr as <-;
      destruct layer; simpl; repeat split; congruence.
  - injection Hr as <-. simpl. repeat split; congruence.
  - injection Hr as <-. destruct layer; simpl; repeat split; congruence.
  - injection Hr as <-. destruct layer; simpl; repeat split; congruence.
Qed.

(** A scale drag with the logo active leaves the background as it is. *)
Lemma inactive_layer_is_untouched_witness :
  Props.background_transform
    (Tab._on_handle_scale (Tab._select_layer Tab.init Tab.logo) 3 3) =
  Props.background_transform (Tab._select_layer Tab.init Tab.logo).
Proof.
  refine (proj1 (proj2 (proj2
            (inactive_layer_is_untouched 0 (Tab._select_layer Tab.init Tab.logo)
               (Ui.overlay_signal (Overlay.scale_changed 3 3)) _ I eq_refl))) eq_refl).
Defined.

(** ** The wheel *)




(** * Placement on the canvas *)

(** ** Truncation *)

Lemma int_ceil r : r <= 0 -> r <= IZR (Py.int r) < r + 1.
Proof.
  intros H. unfold Py.int, Py.leb. destruct (Rle_dec 0 r) as [H0 | H0].
  - assert (r = 0) by lra. subst r.
    destruct (base_Int_part 0) as [Hle Hgt].
    assert (Hlt : IZR (-1) < IZR (Int_part 0)) by lra.
    apply lt_IZR in Hlt.
    assert (Hge : IZR 0 <= IZR (Int_part 0)) by (apply IZR_le; lia).
    lra.
  - destruct (base_Int_part (- r)). rewrite opp_IZR. lra.
Qed.

Lemma int_le_IZR r (n : Z) : r <= IZR n -> (Py.int r <= n)%Z.
Proof.
  intros H. pose proof (int_near r) as [_ Hn].
  assert (Hlt : IZR (Py.int r) < IZR (n + 1)) by (rewrite plus_IZR; lra).
  apply lt_IZR in Hlt. lia.
Qed.

Lemma int_ge_IZR r (n : Z) : IZR n <= r -> (n <= Py.int r)%Z.
Proof.
  intros H. pose proof (int_near r) as [Hn _].
  assert (Hlt : IZR (n - 1) < IZR (Py.int r)) by (rewrite minus_IZR; lra).
  apply lt_IZR in Hlt. lia.
Qed.

(** [int] is monotone. *)
Lemma int_mono r s : r <= s -> (Py.int r <= Py.int s)%Z.
Proof.
  intros H. destruct (Rle_dec 0 r) as [Hr | Hr].
  - pose proof (int_floor r Hr). apply int_ge_IZR. lra.
  - destruct (Rle_dec 0 s) as [Hs | Hs].
    + apply Z.le_trans with 0%Z; [apply int_le_IZR; lra | apply int_ge_IZR; lra].
    + pose proof (int_ceil s ltac:(lra)). apply int_le_IZR. lra.
Qed.

(** ** The background on the canvas *)

(** Where [-int((img_w - canvas) * cx)] puts an image of width [w]: an
    image at least as wide as the canvas covers it from edge to edge, a
    narrower one lies within it. *)
Lemma paste_covers (w canvas : Z) (c : R) :
  0 <= c <= 1 ->
  ((canvas <= w)%Z ->
   (- Py.int (IZR (w - canvas) * c) <= 0)%Z /\
   (canvas <= - Py.int (IZR (w - canvas) * c) + w)%Z) /\
  ((w <= canvas)%Z ->
   (0 <= - Py.int (IZR (w - canvas) * c))%Z /\
   (- Py.int (IZR (w - canvas) * c) + w <= canvas)%Z).
Proof.
  intros Hc. split; intros Hw.
  - assert (Ha : 0 <= IZR (w - canvas)) by (apply IZR_le; lia).
    assert (H0 : (0 <= Py.int (IZR (w - canvas) * c))%Z) by (apply int_ge_IZR; nra).
    assert (H1 : (Py.int (IZR (w - canvas) * c) <= w - canvas)%Z)
      by (apply int_le_IZR; nra).
    lia.
  - assert (Ha : IZR (w - canvas) <= 0) by (apply IZR_le; lia).
    assert (H0 : (Py.int (IZR (w - canvas) * c) <= 0)%Z) by (apply int_le_IZR; nra).
    assert (H1 : (w - canvas <= Py.int (IZR (w - canvas) * c))%Z)
      by (apply int_ge_IZR; nra).
    lia.
Qed.

Lemma zoomed_size z :
  (1 <= z -> (1024 <= Py.int (IZR 1024 * z))%Z) /\
  (z < 1 -> (Py.int (IZR 1024 * z) <= 1024)%Z).
Proof.
  split; intros H; [apply int_ge_IZR | apply int_le_IZR]; lra.
Qed.

(** The exported background leaves no gap and no overhang it could
    avoid: on each axis, a transformed background at least as large as
    the 1024-pixel canvas is pasted so that it covers the canvas from
    edge to edge, and a smaller one so that it lies within the canvas,
    for every offset in [0, 1].  Without rotation the first case is
    zoom >= 1 and the second zoom < 1. *)
Theorem background_covers_or_fits :
  forall rotated tab P,
    0 <= Tab.offset_x tab <= 1 -> 0 <= Tab.offset_y tab <= 1 ->
    Render.export_background rotated tab = Some P ->
    ((1024 <= Render.size_w P)%Z ->
     (Render.paste_x P <= 0)%Z /\ (1024 <= Render.paste_x P + Render.size_w P)%Z) /\
    ((Render.size_w P <= 1024)%Z ->
     (0 <= Render.paste_x P)%Z /\ (Render.paste_x P + Render.size_w P <= 1024)%Z) /\
    ((1024 <= Render.size_h P)%Z ->
     (Render.paste_y P <= 0)%Z /\ (1024 <= Render.paste_y P + Render.size_h P)%Z) /\
    ((Render.size_h P <= 1024)%Z ->
     (0 <= Render.paste_y P)%Z /\ (Render.paste_y P + Render.size_h P <= 1024)%Z) /\
    (Tab.background_image tab = Some (1024, 1024)%Z -> Tab.rotation tab = 0 ->
     (1 <= Tab.zoom tab -> (1024 <= Render.size_w P)%Z /\ (1024 <= Render.size_h P)%Z) /\
     (Tab.zoom tab < 1 -> (Render.size_w P <= 1024)%Z /\ (Render.size_h P <= 1024)%Z)).
Proof.
  intros rotated tab P Hx Hy HP. unfold Render.export_background in HP.
  destruct (Tab.background_image tab) as [size |] eqn:Ebg; [| discriminate].
  injection HP as <-. cbn [Render.size_w Render.size_h Render.paste_x Render.paste_y].
  set (w := fst (Render._apply_transformations rotated tab size)).
  set (h := snd (Render._apply_transformations rotated tab size)).
  destruct (paste_covers w 1024 (Tab.offset_x tab) Hx) as [Cx Fx].
  destruct (paste_covers h 1024 (Tab.offset_y tab) Hy) as [Cy Fy].
  split; [exact Cx |]. split; [exact Fx |]. split; [exact Cy |]. split; [exact Fy |].
  intros Es Hrot. injection Es as ->. unfold w, h, Render._apply_transformations.
  rewrite Hrot, (eqb_true 0 0 eq_refl). cbn [negb fst snd].
  destruct (zoomed_size (Tab.zoom tab)) as [Hbig Hsmall].
  unfold Py.eqb. destruct (Req_dec_T (Tab.zoom tab) 1) as [E1 | E1]; cbn [negb fst snd].
  - split; intros; [lia | lra].
  - split; intros Hz; [pose proof (Hbig Hz) | pose proof (Hsmall Hz)]; lia.
Qed.

(** The background loaded, zoomed to 150% by the scale box. *)
Lemma background_covers_or_fits_witness :
  exists P,
    Render.export_background (fun _ s => s)
      (Tab._on_scale_spinbox_changed Scenario.tab_loaded 150) = Some P /\
    (Render.paste_x P <= 0)%Z /\ (1024 <= Render.paste_x P + Render.size_w P)%Z.
Proof.
  eexists. split; [reflexivity |].
  assert (Hx : 0 <= Tab.offset_x (Tab._on_scale_spinbox_changed Scenario.tab_loaded 150) <= 1)
    by (simpl; lra).
  destruct (background_covers_or_fits (fun _ s => s)
              (Tab._on_scale_spinbox_changed Scenario.tab_loaded 150) _ Hx Hx eq_refl)
    as (Cx & _ & _ & _ & Hz).
  apply Cx.
  destruct (Hz eq_refl eq_refl) as [Hbig _].
  apply Hbig. simpl. lra.
Defined.

(** ** The logo on the canvas *)

(** *** What is used of the rounding *)

Lemma Rabs_bound a b : Rabs a <= b -> - b <= a <= b.
Proof.
  intros H. pose proof (Rle_abs a). pose proof (Rle_abs (- a)) as H1.
  rewrite Rabs_Ropp in H1. lra.
Qed.

Lemma within_limit x : - 2 ^ 53 <= x <= 2 ^ 53 -> Rabs x <= Rounding.limit.
Proof. intros H. apply Rabs_le. unfold Rounding.limit. lra. Qed.

(** Without rounding the three facts hold trivially. *)
Lemma exact_is_binary64_like : Rounding.binary64_like Rounding.exact.
Proof.
  split; unfold Rounding.exact.
  - intros x _. replace (x - x) with 0 by lra. rewrite Rabs_R0.
    pose proof (Rabs_pos x). unfold Rounding.u, Rounding.eta. nra.
  - intros x y _ _ H. exact H.
  - reflexivity.
Qed.

(** A share of [m]: [k / l] of it, for [1 <= k <= l]. *)
Lemma share_bounds (m k l : R) :
  0 <= m -> 1 <= k <= l -> 0 <= k * m / l <= m.
Proof.
  intros Hm [Hk Hl].
  assert (Hi : 0 < / l) by (apply Rinv_0_lt_compat; lra).
  assert (Hkl : k * / l <= 1).
  { apply Rmult_le_reg_r with l; [lra |].
    rewrite Rmult_assoc, Rinv_l by lra. lra. }
  unfold Rdiv. split.
  - apply Rmult_le_pos; [apply Rmult_le_pos; lra | lra].
  - replace (k * m * / l) with (m * (k * / l)) by ring.
    rewrite <- (Rmult_1_r m) at 2. apply Rmult_le_compat_l; lra.
Qed.

Section Rounded.

Variable fl : R -> R.
Hypothesis binary64 : Rounding.binary64_like fl.

Lemma fl_integer (n : Z) : (Z.abs n <= 2 ^ 53)%Z -> fl (IZR n) = IZR n.
Proof. apply (Rounding.fl_int fl binary64). Qed.

(** A result between two integers is rounded to a value between them. *)
Lemma fl_between (lo hi : Z) x :
  (- 2 ^ 53 <= lo)%Z -> (hi <= 2 ^ 53)%Z -> IZR lo <= x <= IZR hi ->
  IZR lo <= fl x <= IZR hi.
Proof.
  intros Hlo Hhi [H1 H2].
  assert (Hle : (lo <= hi)%Z) by (apply le_IZR; lra).
  change (2 ^ 53)%Z with 9007199254740992%Z in *.
  assert (Rlo : -9007199254740992 <= IZR lo) by (apply IZR_le in Hlo; exact Hlo).
  assert (Rhi : IZR hi <= 9007199254740992) by (apply IZR_le in Hhi; exact Hhi).
  assert (Elo : fl (IZR lo) = IZR lo)
    by (apply fl_integer; change (2 ^ 53)%Z with 9007199254740992%Z; lia).
  assert (Ehi : fl (IZR hi) = IZR hi)
    by (apply fl_integer; change (2 ^ 53)%Z with 9007199254740992%Z; lia).
  assert (G1 : fl (IZR lo) <= fl x)
    by (apply (Rounding.fl_mono fl binary64); try apply within_limit; lra).
  assert (G2 : fl x <= fl (IZR hi))
    by (apply (Rounding.fl_mono fl binary64); try apply within_limit; lra).
  lra.
Qed.

Lemma int_fl_between (lo hi : Z) x :
  (- 2 ^ 53 <= lo)%Z -> (hi <= 2 ^ 53)%Z -> IZR lo <= x <= IZR hi ->
  (lo <= Py.int (fl x) <= hi)%Z.
Proof.
  intros Hlo Hhi Hx. destruct (fl_between lo hi x Hlo Hhi Hx).
  split; [now apply int_ge_IZR | now apply int_le_IZR].
Qed.

(** The error of one operation, relative for a result that is not
    negative, absolute for a result of magnitude at most [b]. *)
Lemma fl_close x :
  0 <= x <= 2 ^ 53 ->
  x - (Rounding.u * x + Rounding.eta) <= fl x <= x + (Rounding.u * x + Rounding.eta).
Proof.
  intros H.
  pose proof (Rounding.fl_error fl binary64 x (within_limit x ltac:(lra))) as E.
  rewrite (Rabs_pos_eq x) in E by lra. apply Rabs_bound in E. lra.
Qed.

Lemma fl_near x b :
  - b <= x <= b -> b <= 2 ^ 53 ->
  x - (Rounding.u * b + Rounding.eta) <= fl x <= x + (Rounding.u * b + Rounding.eta).
Proof.
  intros H Hb.
  pose proof (Rounding.fl_error fl binary64 x (within_limit x ltac:(lra))) as E.
  assert (Ha : Rabs x <= b) by (apply Rabs_le; lra).
  assert (Hu : Rounding.u * Rabs x <= Rounding.u * b).
  { apply Rmult_le_compat_l; [unfold Rounding.u; lra | exact Ha]. }
  apply Rabs_bound in E. lra.
Qed.

(** [min(m / logo_w, m / logo_h)] is the quotient for the longer side. *)
Lemma fit_ratio_rounded (m lw lh : Z) :
  (0 <= m <= 2 ^ 21)%Z -> (1 <= lw <= 2 ^ 31)%Z -> (1 <= lh <= 2 ^ 31)%Z ->
  Py.min (fl (IZR m / IZR lw)) (fl (IZR m / IZR lh)) = fl (IZR m / IZR (Z.max lw lh)).
Proof.
  intros Hm Hw Hh.
  change (2 ^ 21)%Z with 2097152%Z in *. change (2 ^ 31)%Z with 2147483648%Z in *.
  assert (Rm : 0 <= IZR m <= 2097152) by (split; [apply (IZR_le 0) | apply IZR_le]; lia).
  assert (Rw : 1 <= IZR lw) by (apply (IZR_le 1); lia).
  assert (Rh : 1 <= IZR lh) by (apply (IZR_le 1); lia).
  assert (Bw : 0 <= IZR m / IZR lw <= IZR m).
  { replace (IZR m / IZR lw) with (1 * IZR m / IZR lw) by (field; lra).
    pose proof (share_bounds (IZR m) 1 (IZR lw)). lra. }
  assert (Bh : 0 <= IZR m / IZR lh <= IZR m).
  { replace (IZR m / IZR lh) with (1 * IZR m / IZR lh) by (field; lra).
    pose proof (share_bounds (IZR m) 1 (IZR lh)). lra. }
  destruct (Z_le_gt_dec lw lh) as [Hle | Hgt].
  - rewrite Z.max_r by exact Hle.
    assert (Hq : IZR m / IZR lh <= IZR m / IZR lw).
    { unfold Rdiv. apply Rmult_le_compat_l; [lra |].
      apply Rinv_le_contravar; [lra | apply IZR_le; exact Hle]. }
    assert (Hf : fl (IZR m / IZR lh) <= fl (IZR m / IZR lw))
      by (apply (Rounding.fl_mono fl binary64); try apply within_limit; lra).
    destruct (min_spec (fl (IZR m / IZR lw)) (fl (IZR m / IZR lh)))
      as [[_ ->] | [Hc ->]]; lra.
  - rewrite Z.max_l by lia.
    assert (Hq : IZR m / IZR lw <= IZR m / IZR lh).
    { unfold Rdiv. apply Rmult_le_compat_l; [lra |].
      apply Rinv_le_contravar; [lra | apply IZR_le; lia]. }
    assert (Hf : fl (IZR m / IZR lw) <= fl (IZR m / IZR lh))
      by (apply (Rounding.fl_mono fl binary64); try apply within_limit; lra).
    destruct (min_spec (fl (IZR m / IZR lw)) (fl (IZR m / IZR lh)))
      as [[Hc _] | [_ ->]]; lra.
Qed.

(** A side [k] of the logo, resized: [k * fl(m / l)], rounded, is the
    share [k * m / l] up to three relative roundings. *)
Lemma fit_side (m k l : Z) :
  (0 <= m <= 2 ^ 21)%Z -> (1 <= k <= l)%Z -> (l <= 2 ^ 31)%Z ->
  0 <= fl (IZR k * fl (IZR m / IZR l)) /\
  IZR k * IZR m / IZR l
    - (3 * Rounding.u * (IZR k * IZR m / IZR l) + 2 ^ 33 * Rounding.eta)
  <= fl (IZR k * fl (IZR m / IZR l))
  <= IZR k * IZR m / IZR l
    + (3 * Rounding.u * (IZR k * IZR m / IZR l) + 2 ^ 33 * Rounding.eta).
Proof.
  intros Hm Hk Hl.
  change (2 ^ 21)%Z with 2097152%Z in *. change (2 ^ 31)%Z with 2147483648%Z in *.
  assert (Rm : 0 <= IZR m <= 2097152) by (split; [apply (IZR_le 0) | apply IZR_le]; lia).
  assert (Rk : 1 <= IZR k) by (apply (IZR_le 1); lia).
  assert (Rkl : IZR k <= IZR l) by (apply IZR_le; lia).
  assert (Rl : IZR l <= 2147483648) by (apply IZR_le; lia).
  pose proof (share_bounds (IZR m) (IZR k) (IZR l) ltac:(lra) ltac:(lra)) as Ht.
  assert (Hx : 0 <= IZR m / IZR l <= IZR m).
  { replace (IZR m / IZR l) with (1 * IZR m / IZR l) by (field; lra).
    pose proof (share_bounds (IZR m) 1 (IZR l)). lra. }
  pose proof (fl_close (IZR m / IZR l) ltac:(lra)) as Hq.
  assert (Hq0 : 0 <= fl (IZR m / IZR l)).
  { pose proof (fl_between 0 2097152 (IZR m / IZR l)) as H.
    simpl in H. apply H; try lia. lra. }
  set (x := IZR m / IZR l) in *. set (q := fl x) in *.
  set (t := IZR k * IZR m / IZR l) in *.
  assert (Hkx : IZR k * x = t) by (unfold x, t; field; lra).
  assert (Hy1 : IZR k * q <= IZR k * (x + (Rounding.u * x + Rounding.eta)))
    by (apply Rmult_le_compat_l; lra).
  assert (Hy2 : IZR k * (x - (Rounding.u * x + Rounding.eta)) <= IZR k * q)
    by (apply Rmult_le_compat_l; lra).
  assert (Hy0 : 0 <= IZR k * q) by (apply Rmult_le_pos; lra).
  replace (IZR k * (x + (Rounding.u * x + Rounding.eta)))
    with (t + (Rounding.u * t + IZR k * Rounding.eta)) in Hy1
    by (rewrite <- Hkx; ring).
  replace (IZR k * (x - (Rounding.u * x + Rounding.eta)))
    with (t - (Rounding.u * t + IZR k * Rounding.eta)) in Hy2
    by (rewrite <- Hkx; ring).
  set (y := IZR k * q) in *.
  assert (Hyb : 0 <= y <= 2 ^ 53).
  { unfold Rounding.u, Rounding.eta in *. split; lra. }
  pose proof (fl_close y Hyb) as Hr.
  assert (Hr0 : 0 <= fl y).
  { pose proof (fl_between 0 9007199254740992 y) as H.
    simpl in H. apply H; try lia. lra. }
  split; [exact Hr0 |].
  unfold Rounding.u, Rounding.eta in *. split; lra.
Qed.

(** One side [k] of the logo after the resize to fit a square of side
    [m], the longer side being [l]: it is within [m]; the longer side
    itself loses at most one pixel; a share below one pixel gives an
    empty side, a share of two pixels or more does not. *)
Lemma resized_side (m k l : Z) :
  (0 <= m <= 2 ^ 21)%Z -> (1 <= k <= l)%Z -> (l <= 2 ^ 31)%Z ->
  (0 <= Py.int (fl (IZR k * fl (IZR m / IZR l))) <= m)%Z /\
  (k = l -> (m - 1 <= Py.int (fl (IZR k * fl (IZR m / IZR l))))%Z) /\
  ((m * k < l)%Z -> Py.int (fl (IZR k * fl (IZR m / IZR l))) = 0%Z) /\
  ((2 * l <= m * k)%Z -> (1 <= Py.int (fl (IZR k * fl (IZR m / IZR l))))%Z) /\
  IZR k * IZR m / IZR l - 1 - 1 / 10 ^ 9
    < IZR (Py.int (fl (IZR k * fl (IZR m / IZR l))))
    <= IZR k * IZR m / IZR l + 1 / 10 ^ 9.
Proof.
  intros Hm Hk Hl.
  destruct (fit_side m k l Hm Hk Hl) as [Hr0 Hr].
  change (2 ^ 21)%Z with 2097152%Z in *. change (2 ^ 31)%Z with 2147483648%Z in *.
  assert (Rm : 0 <= IZR m <= 2097152) by (split; [apply (IZR_le 0) | apply IZR_le]; lia).
  assert (Rk : 1 <= IZR k) by (apply (IZR_le 1); lia).
  assert (Rkl : IZR k <= IZR l) by (apply IZR_le; lia).
  assert (Rl : IZR l <= 2147483648) by (apply IZR_le; lia).
  pose proof (share_bounds (IZR m) (IZR k) (IZR l) ltac:(lra) ltac:(lra)) as Ht.
  pose proof (int_floor _ Hr0) as Hn.
  set (t := IZR k * IZR m / IZR l) in *.
  set (r := fl (IZR k * fl (IZR m / IZR l))) in *.
  set (n := Py.int r) in *.
  unfold Rounding.u, Rounding.eta in Hr.
  assert (Hn0 : (0 <= n)%Z) by (apply int_ge_IZR; exact Hr0).
  assert (Hn1 : (n <= m)%Z).
  { assert (H : IZR n < IZR (m + 1)) by (rewrite plus_IZR; lra).
    apply lt_IZR in H. lia. }
  split; [split; assumption |].
  split; [| split; [| split]].
  - intros ->.
    assert (Et : t = IZR m) by (unfold t; field; lra).
    assert (H : IZR (m - 2) < IZR n) by (rewrite minus_IZR; lra).
    apply lt_IZR in H. lia.
  - intros Hlt.
    assert (Hp : IZR k * IZR m <= IZR l - 1).
    { assert (H : (m * k <= l - 1)%Z) by lia.
      apply IZR_le in H. rewrite mult_IZR, minus_IZR in H. lra. }
    assert (Hi : / 2147483648 <= / IZR l) by (apply Rinv_le_contravar; lra).
    assert (Hi0 : 0 < / IZR l) by (apply Rinv_0_lt_compat; lra).
    assert (Ht1 : t <= (IZR l - 1) * / IZR l).
    { unfold t, Rdiv. apply Rmult_le_compat_r; lra. }
    replace ((IZR l - 1) * / IZR l) with (1 - / IZR l) in Ht1 by (field; lra).
    assert (H : IZR n < IZR 1) by lra.
    apply lt_IZR in H. lia.
  - intros Hge.
    assert (Hp : 2 * IZR l <= IZR k * IZR m).
    { apply IZR_le in Hge. rewrite !mult_IZR in Hge. lra. }
    assert (Hi0 : 0 < / IZR l) by (apply Rinv_0_lt_compat; lra).
    assert (Ht2 : 2 * IZR l * / IZR l <= t).
    { unfold t, Rdiv. apply Rmult_le_compat_r; lra. }
    replace (2 * IZR l * / IZR l) with 2 in Ht2 by (field; lra).
    apply int_ge_IZR. fold r. lra.
  - lra.
Qed.

(** The side of the square the logo is fitted into. *)
Lemma square_side (canvas_size n : Z) s :
  (1 <= canvas_size <= 2 ^ 20)%Z -> (1 <= n <= 2)%Z -> 0 <= s <= IZR n ->
  (0 <= Py.int (fl (IZR canvas_size * s)) <= n * canvas_size)%Z.
Proof.
  intros Hc Hn Hs. change (2 ^ 20)%Z with 1048576%Z in *.
  assert (Rc : 1 <= IZR canvas_size) by (apply (IZR_le 1); lia).
  apply int_fl_between.
  - change (2 ^ 53)%Z with 9007199254740992%Z. lia.
  - change (2 ^ 53)%Z with 9007199254740992%Z. nia.
  - rewrite mult_IZR. split; [apply Rmult_le_pos; lra |].
    rewrite (Rmult_comm (IZR n)). apply Rmult_le_compat_l; lra.
Qed.

(** [_composite_logo_on_canvas] for a logo of positive size: it never
    divides by zero, the resize decides between the two outcomes. *)
Lemma logo_outcome tab lw lh canvas_size :
  Tab.logo_image tab = Some (lw, lh) ->
  (1 <= lw <= 2 ^ 31)%Z -> (1 <= lh <= 2 ^ 31)%Z ->
  (1 <= canvas_size <= 2 ^ 20)%Z -> 0 <= Tab.logo_scale tab <= 2 ->
  Render._composite_logo_on_canvas fl tab canvas_size =
  let m := Py.int (fl (IZR canvas_size * Tab.logo_scale tab)) in
  let q := fl (IZR m / IZR (Z.max lw lh)) in
  let nw := Py.int (fl (IZR lw * q)) in
  let nh := Py.int (fl (IZR lh * q)) in
  if ((1 <=? nw) && (1 <=? nh))%Z then
    Render.composited
      (Some (Render.mkPlacement nw nh
               (Py.int (fl (IZR (canvas_size - nw) * Tab.logo_offset_x tab)))
               (Py.int (fl (IZR (canvas_size - nh) * Tab.logo_offset_y tab)))))
  else Render.raised Render.ValueError.
Proof.
  intros Hlogo Hw Hh Hc Hs.
  pose proof (square_side canvas_size 2 (Tab.logo_scale tab) Hc ltac:(lia) Hs) as Hm.
  unfold Render._composite_logo_on_canvas, Rounding.div. rewrite Hlogo.
  assert (Rw : IZR lw <> 0) by (apply not_0_IZR; lia).
  assert (Rh : IZR lh <> 0) by (apply not_0_IZR; lia).
  rewrite !eqb_false by assumption.
  rewrite fit_ratio_rounded;
    [| change (2 ^ 21)%Z with 2097152%Z; change (2 ^ 20)%Z with 1048576%Z in Hc; lia
     | assumption | assumption].
  cbv zeta. unfold Render.resize. cbn [fst snd].
  destruct ((1 <=? _) && (1 <=? _))%Z; reflexivity.
Qed.

(** A logo whose shorter side keeps two pixels or more is composited. *)
Lemma logo_composited tab lw lh canvas_size :
  Tab.logo_image tab = Some (lw, lh) ->
  (1 <= lw <= 2 ^ 31)%Z -> (1 <= lh <= 2 ^ 31)%Z ->
  (1 <= canvas_size <= 2 ^ 20)%Z -> 0 <= Tab.logo_scale tab <= 2 ->
  (2 * Z.max lw lh
   <= Py.int (fl (IZR canvas_size * Tab.logo_scale tab)) * Z.min lw lh)%Z ->
  exists P,
    Render._composite_logo_on_canvas fl tab canvas_size = Render.composited (Some P).
Proof.
  intros Hlogo Hw Hh Hc Hs Hge.
  pose proof (square_side canvas_size 2 (Tab.logo_scale tab) Hc ltac:(lia) Hs) as Hm.
  rewrite (logo_outcome tab lw lh canvas_size Hlogo Hw Hh Hc Hs). cbv zeta.
  set (m := Py.int (fl (IZR canvas_size * Tab.logo_scale tab))) in *.
  assert (Hm' : (0 <= m <= 2 ^ 21)%Z).
  { change (2 ^ 21)%Z with 2097152%Z. change (2 ^ 20)%Z with 1048576%Z in Hc. lia. }
  assert (Hl : (Z.max lw lh <= 2 ^ 31)%Z) by lia.
  destruct (resized_side m lw (Z.max lw lh) Hm' ltac:(lia) Hl) as (_ & _ & _ & Fw & _).
  destruct (resized_side m lh (Z.max lw lh) Hm' ltac:(lia) Hl) as (_ & _ & _ & Fh & _).
  assert (H1w : (1 <= Py.int (fl (IZR lw * fl (IZR m / IZR (Z.max lw lh)))))%Z)
    by (apply Fw; nia).
  assert (H1h : (1 <= Py.int (fl (IZR lh * fl (IZR m / IZR (Z.max lw lh)))))%Z)
    by (apply Fh; nia).
  apply Z.leb_le in H1w, H1h. rewrite H1w, H1h. eexists. reflexivity.
Qed.

End Rounded.

(** *** The logo stays on the canvas, or the resize refuses it *)

(** [_composite_logo_on_canvas], for a logo of positive size, a logo
    scale in [0, 1] and logo offsets in [0, 1], under binary64
    rounding.  It never divides by zero.  It raises [ValueError] when a
    side of the resized logo is empty, which happens whenever the
    shorter side's share of the square [m = int(canvas_size *
    logo_scale)] is below one pixel (a 600 x 2 logo at 512, or any logo
    when [m] is 0), and does not happen when that share is two pixels or
    more.  Otherwise the logo is pasted within the canvas: both sides
    are between 1 and [m <= canvas_size], the longer side is [m] or
    [m - 1], and the paste position keeps all of it on the canvas. *)
Theorem logo_stays_on_canvas :
  forall fl tab logo_w logo_h canvas_size,
    Rounding.binary64_like fl ->
    Tab.logo_image tab = Some (logo_w, logo_h) ->
    (1 <= logo_w <= 2 ^ 31)%Z -> (1 <= logo_h <= 2 ^ 31)%Z ->
    (1 <= canvas_size <= 2 ^ 20)%Z ->
    0 <= Tab.logo_scale tab <= 1 ->
    0 <= Tab.logo_offset_x tab <= 1 -> 0 <= Tab.logo_offset_y tab <= 1 ->
    let m := Py.int (fl (IZR canvas_size * Tab.logo_scale tab)) in
    let outcome := Render._composite_logo_on_canvas fl tab canvas_size in
    (0 <= m <= canvas_size)%Z /\
    (outcome = Render.raised Render.ValueError \/
     exists P,
       outcome = Render.composited (Some P) /\
       (1 <= Render.size_w P <= m)%Z /\ (1 <= Render.size_h P <= m)%Z /\
       ((logo_h <= logo_w)%Z -> (m - 1 <= Render.size_w P)%Z) /\
       ((logo_w <= logo_h)%Z -> (m - 1 <= Render.size_h P)%Z) /\
       (0 <= Render.paste_x P)%Z /\
       (Render.paste_x P + Render.size_w P <= canvas_size)%Z /\
       (0 <= Render.paste_y P)%Z /\
       (Render.paste_y P + Render.size_h P <= canvas_size)%Z) /\
    ((m * Z.min logo_w logo_h < Z.max logo_w logo_h)%Z ->
     outcome = Render.raised Render.ValueError) /\
    ((2 * Z.max logo_w logo_h <= m * Z.min logo_w logo_h)%Z ->
     exists P, outcome = Render.composited (Some P)).
Proof.
  intros fl tab lw lh c Hfl Hlogo Hw Hh Hc Hs Hx Hy m outcome.
  assert (Hm : (0 <= m <= c)%Z).
  { pose proof (square_side fl Hfl c 1 (Tab.logo_scale tab) Hc ltac:(lia) Hs) as H.
    fold m in H. lia. }
  assert (Hm' : (0 <= m <= 2 ^ 21)%Z).
  { change (2 ^ 21)%Z with 2097152%Z. change (2 ^ 20)%Z with 1048576%Z in Hc. lia. }
  assert (Hl : (Z.max lw lh <= 2 ^ 31)%Z) by lia.
  destruct (resized_side fl Hfl m lw (Z.max lw lh) Hm' ltac:(lia) Hl)
    as (Bw & Lw & Ew & Fw & _).
  destruct (resized_side fl Hfl m lh (Z.max lw lh) Hm' ltac:(lia) Hl)
    as (Bh & Lh & Eh & Fh & _).
  unfold outcome.
  rewrite (logo_outcome fl Hfl tab lw lh c Hlogo Hw Hh Hc ltac:(lra)).
  cbv zeta. fold m.
  set (q := fl (IZR m / IZR (Z.max lw lh))) in *.
  set (nw := Py.int (fl (IZR lw * q))) in *.
  set (nh := Py.int (fl (IZR lh * q))) in *.
  split; [exact Hm |]. split; [| split].
  - destruct ((1 <=? nw) && (1 <=? nh))%Z eqn:Eb; [right | left; reflexivity].
    apply andb_prop in Eb. destruct Eb as [Ew1 Eh1].
    apply Z.leb_le in Ew1, Eh1.
    eexists. split; [reflexivity |].
    cbn [Render.size_w Render.size_h Render.paste_x Render.paste_y].
    assert (Px : (0 <= Py.int (fl (IZR (c - nw) * Tab.logo_offset_x tab)%R) <= c - nw)%Z).
    { change (2 ^ 20)%Z with 1048576%Z in Hc.
      apply (int_fl_between fl Hfl);
        try (change (2 ^ 53)%Z with 9007199254740992%Z; lia).
      assert (0 <= IZR (c - nw)) by (apply (IZR_le 0); lia).
      split; [apply Rmult_le_pos; lra |].
      rewrite <- (Rmult_1_r (IZR (c - nw))) at 2. apply Rmult_le_compat_l; lra. }
    assert (Py : (0 <= Py.int (fl (IZR (c - nh) * Tab.logo_offset_y tab)%R) <= c - nh)%Z).
    { change (2 ^ 20)%Z with 1048576%Z in Hc.
      apply (int_fl_between fl Hfl);
        try (change (2 ^ 53)%Z with 9007199254740992%Z; lia).
      assert (0 <= IZR (c - nh)) by (apply (IZR_le 0); lia).
      split; [apply Rmult_le_pos; lra |].
      rewrite <- (Rmult_1_r (IZR (c - nh))) at 2. apply Rmult_le_compat_l; lra. }
    split; [lia |]. split; [lia |].
    split; [intros Hle; apply Lw; lia |].
    split; [intros Hle; apply Lh; lia |].
    lia.
  - intros Hlt.
    assert (Hz : nw = 0%Z \/ nh = 0%Z).
    { destruct (Z_le_gt_dec lw lh) as [Hle | Hgt].
      - left. apply Ew. rewrite Z.min_l, Z.max_r in Hlt by lia.
        rewrite Z.max_r by lia. exact Hlt.
      - right. apply Eh. rewrite Z.min_r, Z.max_l in Hlt by lia.
        rewrite Z.max_l by lia. exact Hlt. }
    destruct Hz as [-> | ->]; [reflexivity |].
    rewrite andb_false_r. reflexivity.
  - intros Hge.
    assert (H1w : (1 <= nw)%Z) by (apply Fw; nia).
    assert (H1h : (1 <= nh)%Z) by (apply Fh; nia).
    apply Z.leb_le in H1w, H1h. rewrite H1w, H1h. eexists. reflexivity.
Qed.

(** A 600 x 2 logo at the default scale of one half is refused by the
    resize on the preview canvas (its height would be 0); a 200 x 100
    logo is pasted within the export canvas. *)
Lemma logo_stays_on_canvas_witness :
  Render._composite_logo_on_canvas Rounding.exact
    (Tab.set_images Tab.init None (Some (600, 2)%Z)) 512
  = Render.raised Render.ValueError /\
  exists P,
    Render._composite_logo_on_canvas Rounding.exact
      (Tab.set_images Tab.init None (Some (200, 100)%Z)) 1024
    = Render.composited (Some P) /\
    (0 <= Render.paste_x P)%Z /\ (Render.paste_x P + Render.size_w P <= 1024)%Z.
Proof.
  assert (H256 : Py.int (Rounding.exact (IZR 512 * (1 / 2))) = 256%Z).
  { unfold Rounding.exact.
    apply Z.le_antisymm; [apply int_le_IZR | apply int_ge_IZR]; lra. }
  assert (H512 : Py.int (Rounding.exact (IZR 1024 * (1 / 2))) = 512%Z).
  { unfold Rounding.exact.
    apply Z.le_antisymm; [apply int_le_IZR | apply int_ge_IZR]; lra. }
  split.
  - refine (proj1 (proj2 (proj2
      (logo_stays_on_canvas Rounding.exact
         (Tab.set_images Tab.init None (Some (600, 2)%Z)) 600 2 512
         exact_is_binary64_like eq_refl _ _ _ _ _ _))) _);
      try (cbv; intuition discriminate); try (simpl; lra).
    cbn [Tab.logo_scale Tab.set_images Tab.init]. rewrite H256. reflexivity.
  - destruct (proj2 (proj2 (proj2
      (logo_stays_on_canvas Rounding.exact
         (Tab.set_images Tab.init None (Some (200, 100)%Z)) 200 100 1024
         exact_is_binary64_like eq_refl ltac:(cbv; intuition discriminate)
         ltac:(cbv; intuition discriminate) ltac:(cbv; intuition discriminate)
         ltac:(simpl; lra) ltac:(simpl; lra) ltac:(simpl; lra)))))
      as [P HP].
    { cbn [Tab.logo_scale Tab.set_images Tab.init]. rewrite H512. cbv. discriminate. }
    exists P. split; [exact HP |].
    destruct (proj1 (proj2
      (logo_stays_on_canvas Rounding.exact
         (Tab.set_images Tab.init None (Some (200, 100)%Z)) 200 100 1024
         exact_is_binary64_like eq_refl ltac:(cbv; intuition discriminate)
         ltac:(cbv; intuition discriminate) ltac:(cbv; intuition discriminate)
         ltac:(simpl; lra) ltac:(simpl; lra) ltac:(simpl; lra))))
      as [HV | (P' & HP' & _ & _ & _ & _ & Hx0 & Hx1 & _)].
    + rewrite HP in HV. discriminate HV.
    + rewrite HP in HP'. injection HP' as <-. split; assumption.
Defined.

(** *** Preview and export place the logo alike *)

Section RoundedPlacement.

Variable fl : R -> R.
Hypothesis binary64 : Rounding.binary64_like fl.

(** The square the logo is fitted into, at 512 and at 1024. *)
Lemma square_double s :
  0 <= s <= 2 ->
  (-1 <= Py.int (fl (IZR 1024 * s)) - 2 * Py.int (fl (IZR Tab.preview_size * s)) <= 2)%Z.
Proof.
  intros Hs. unfold Tab.preview_size.
  pose proof (fl_close fl binary64 (IZR 512 * s) ltac:(lra)) as Cp.
  pose proof (fl_close fl binary64 (IZR 1024 * s) ltac:(lra)) as Ce.
  assert (Hp0 : 0 <= fl (IZR 512 * s)).
  { pose proof (fl_between fl binary64 0 1024 (IZR 512 * s)) as H.
    simpl in H. apply H; try lia. lra. }
  assert (He0 : 0 <= fl (IZR 1024 * s)).
  { pose proof (fl_between fl binary64 0 2048 (IZR 1024 * s)) as H.
    simpl in H. apply H; try lia. lra. }
  pose proof (int_floor _ Hp0) as Fp. pose proof (int_floor _ He0) as Fe.
  set (mp := Py.int (fl (IZR 512 * s))) in *.
  set (me := Py.int (fl (IZR 1024 * s))) in *.
  unfold Rounding.u, Rounding.eta in *.
  assert (G1 : (-2 < me - 2 * mp)%Z) by (apply lt_IZR; push_IZR; lra).
  assert (G2 : (me - 2 * mp < 3)%Z) by (apply lt_IZR; push_IZR; lra).
  lia.
Qed.

(** One side of the logo, at 512 and at 1024. *)
Lemma side_double (mp me k l : Z) :
  (0 <= mp <= 2 ^ 21)%Z -> (0 <= me <= 2 ^ 21)%Z -> (-1 <= me - 2 * mp <= 2)%Z ->
  (1 <= k <= l)%Z -> (l <= 2 ^ 31)%Z ->
  (-2 <= Py.int (fl (IZR k * fl (IZR me / IZR l)))
         - 2 * Py.int (fl (IZR k * fl (IZR mp / IZR l))) <= 4)%Z.
Proof.
  intros Hp He Hd Hk Hl.
  destruct (resized_side fl binary64 mp k l Hp Hk Hl) as (_ & _ & _ & _ & Sp).
  destruct (resized_side fl binary64 me k l He Hk Hl) as (_ & _ & _ & _ & Se).
  set (np := Py.int (fl (IZR k * fl (IZR mp / IZR l)))) in *.
  set (ne := Py.int (fl (IZR k * fl (IZR me / IZR l)))) in *.
  change (2 ^ 31)%Z with 2147483648%Z in *.
  assert (Rk : 1 <= IZR k) by (apply (IZR_le 1); lia).
  assert (Rkl : IZR k <= IZR l) by (apply IZR_le; lia).
  assert (Rd : -1 <= IZR me - 2 * IZR mp <= 2).
  { destruct Hd as [D1 D2]. apply IZR_le in D1, D2.
    rewrite minus_IZR, mult_IZR in D1, D2. lra. }
  pose proof (share_bounds 1 (IZR k) (IZR l) ltac:(lra) ltac:(lra)) as Ha.
  set (a := IZR k * 1 / IZR l) in *.
  assert (Ep : IZR k * IZR mp / IZR l = a * IZR mp) by (unfold a; field; lra).
  assert (Ee : IZR k * IZR me / IZR l = a * IZR me) by (unfold a; field; lra).
  rewrite Ep in Sp. rewrite Ee in Se.
  assert (Hprod : -1 <= a * IZR me - 2 * (a * IZR mp) <= 2) by nra.
  assert (G1 : (-3 < ne - 2 * np)%Z) by (apply lt_IZR; push_IZR; lra).
  assert (G2 : (ne - 2 * np < 5)%Z) by (apply lt_IZR; push_IZR; lra).
  lia.
Qed.

(** Pasting the logo, at 512 and at 1024. *)
Lemma paste_double (np ne : Z) (c : R) :
  (0 <= np <= 1024)%Z -> (0 <= ne <= 2048)%Z -> (-2 <= ne - 2 * np <= 4)%Z ->
  0 <= c <= 1 ->
  (Z.abs (Py.int (fl (IZR (1024 - ne) * c))
          - 2 * Py.int (fl (IZR (Tab.preview_size - np) * c))) <= 7)%Z /\
  ((np <= Tab.preview_size)%Z -> (ne <= 1024)%Z ->
   (Z.abs (Py.int (fl (IZR (1024 - ne) * c))
           - 2 * Py.int (fl (IZR (Tab.preview_size - np) * c))) <= 5)%Z).
Proof.
  intros Hp He Hd Hc. unfold Tab.preview_size.
  assert (Rp : -512 <= IZR (512 - np) <= 512)
    by (split; [apply (IZR_le (-512)) | apply (IZR_le _ 512)]; lia).
  assert (Re : -1024 <= IZR (1024 - ne) <= 1024)
    by (split; [apply (IZR_le (-1024)) | apply (IZR_le _ 1024)]; lia).
  assert (Rd : -2 <= IZR (ne - 2 * np) <= 4)
    by (split; [apply (IZR_le (-2)) | apply (IZR_le _ 4)]; lia).
  assert (Bp : -1024 <= IZR (512 - np) * c <= 1024) by nra.
  assert (Be : -1024 <= IZR (1024 - ne) * c <= 1024) by nra.
  assert (Hx : IZR (1024 - ne) * c - 2 * (IZR (512 - np) * c) = - (IZR (ne - 2 * np) * c))
    by (push_IZR; ring).
  assert (Hdc : -2 <= IZR (ne - 2 * np) * c <= 4) by nra.
  pose proof (fl_near fl binary64 _ 1024 Bp ltac:(lra)) as Np.
  pose proof (fl_near fl binary64 _ 1024 Be ltac:(lra)) as Ne.
  pose proof (int_near (fl (IZR (512 - np) * c))) as Ip.
  pose proof (int_near (fl (IZR (1024 - ne) * c))) as Ie.
  unfold Rounding.u, Rounding.eta in Np, Ne.
  split.
  - set (xp := IZR (512 - np) * c) in *. set (xe := IZR (1024 - ne) * c) in *.
    set (ip := Py.int (fl xp)) in *. set (ie := Py.int (fl xe)) in *.
    assert (G1 : (-8 < ie - 2 * ip)%Z) by (apply lt_IZR; push_IZR; lra).
    assert (G2 : (ie - 2 * ip < 6)%Z) by (apply lt_IZR; push_IZR; lra).
    lia.
  - intros Hp1 He1.
    assert (Rp0 : 0 <= IZR (512 - np)) by (apply (IZR_le 0); lia).
    assert (Re0 : 0 <= IZR (1024 - ne)) by (apply (IZR_le 0); lia).
    assert (Fp0 : 0 <= fl (IZR (512 - np) * c)).
    { destruct (fl_between fl binary64 0 1024 (IZR (512 - np) * c)) as [H _];
        [cbv; discriminate | cbv; discriminate | | lra].
      split; [apply Rmult_le_pos; lra | lra]. }
    assert (Fe0 : 0 <= fl (IZR (1024 - ne) * c)).
    { destruct (fl_between fl binary64 0 1024 (IZR (1024 - ne) * c)) as [H _];
        [cbv; discriminate | cbv; discriminate | | lra].
      split; [apply Rmult_le_pos; lra | lra]. }
    pose proof (int_floor _ Fp0) as Jp. pose proof (int_floor _ Fe0) as Je.
    set (xp := IZR (512 - np) * c) in *. set (xe := IZR (1024 - ne) * c) in *.
    set (ip := Py.int (fl xp)) in *. set (ie := Py.int (fl xe)) in *.
    assert (G1 : (-6 < ie - 2 * ip)%Z) by (apply lt_IZR; push_IZR; lra).
    assert (G2 : (ie - 2 * ip < 5)%Z) by (apply lt_IZR; push_IZR; lra).
    lia.
Qed.

End RoundedPlacement.

(** The logo at 512 and at 1024, under binary64 rounding, whenever both
    resizes succeed: each side at 1024 is twice the side at 512 plus
    something between -2 and 4 pixels, and the paste position at 1024
    is within 7 pixels of twice the position at 512, within 5 when the
    logo scale is at most 1 (the logo then fits the canvas). *)
Theorem logo_placement_agrees :
  forall fl tab logo_w logo_h P E,
    Rounding.binary64_like fl ->
    Tab.logo_image tab = Some (logo_w, logo_h) ->
    (1 <= logo_w <= 2 ^ 31)%Z -> (1 <= logo_h <= 2 ^ 31)%Z ->
    0 <= Tab.logo_scale tab <= 2 ->
    0 <= Tab.logo_offset_x tab <= 1 -> 0 <= Tab.logo_offset_y tab <= 1 ->
    Render._composite_logo_on_canvas fl tab Tab.preview_size
      = Render.composited (Some P) ->
    Render._composite_logo_on_canvas fl tab 1024 = Render.composited (Some E) ->
    (-2 <= Render.size_w E - 2 * Render.size_w P <= 4)%Z /\
    (-2 <= Render.size_h E - 2 * Render.size_h P <= 4)%Z /\
    (Z.abs (Render.paste_x E - 2 * Render.paste_x P) <= 7)%Z /\
    (Z.abs (Render.paste_y E - 2 * Render.paste_y P) <= 7)%Z /\
    (Tab.logo_scale tab <= 1 ->
     (Z.abs (Render.paste_x E - 2 * Render.paste_x P) <= 5)%Z /\
     (Z.abs (Render.paste_y E - 2 * Render.paste_y P) <= 5)%Z).
Proof.
  intros fl tab lw lh P E Hfl Hlogo Hw Hh Hs Hx Hy HP HE.
  assert (Cp : (1 <= Tab.preview_size <= 2 ^ 20)%Z) by (cbv; intuition discriminate).
  assert (Ce : (1 <= 1024 <= 2 ^ 20)%Z) by (cbv; intuition discriminate).
  rewrite (logo_outcome fl Hfl tab lw lh _ Hlogo Hw Hh Cp Hs) in HP.
  rewrite (logo_outcome fl Hfl tab lw lh _ Hlogo Hw Hh Ce Hs) in HE.
  cbv zeta in HP, HE.
  pose proof (square_side fl Hfl _ 2 (Tab.logo_scale tab) Cp ltac:(lia) Hs) as Mp.
  pose proof (square_side fl Hfl _ 2 (Tab.logo_scale tab) Ce ltac:(lia) Hs) as Me.
  pose proof (square_double fl Hfl (Tab.logo_scale tab) Hs) as Md.
  set (mp := Py.int (fl (IZR Tab.preview_size * Tab.logo_scale tab))) in *.
  set (me := Py.int (fl (IZR 1024 * Tab.logo_scale tab))) in *.
  unfold Tab.preview_size in Mp.
  assert (Mp' : (0 <= mp <= 2 ^ 21)%Z) by (change (2 ^ 21)%Z with 2097152%Z; lia).
  assert (Me' : (0 <= me <= 2 ^ 21)%Z) by (change (2 ^ 21)%Z with 2097152%Z; lia).
  assert (Hl : (Z.max lw lh <= 2 ^ 31)%Z) by lia.
  pose proof (side_double fl Hfl mp me lw (Z.max lw lh) Mp' Me' Md ltac:(lia) Hl) as Dw.
  pose proof (side_double fl Hfl mp me lh (Z.max lw lh) Mp' Me' Md ltac:(lia) Hl) as Dh.
  destruct (resized_side fl Hfl mp lw (Z.max lw lh) Mp' ltac:(lia) Hl) as (Bpw & _).
  destruct (resized_side fl Hfl mp lh (Z.max lw lh) Mp' ltac:(lia) Hl) as (Bph & _).
  destruct (resized_side fl Hfl me lw (Z.max lw lh) Me' ltac:(lia) Hl) as (Bew & _).
  destruct (resized_side fl Hfl me lh (Z.max lw lh) Me' ltac:(lia) Hl) as (Beh & _).
  set (npw := Py.int (fl (IZR lw * fl (IZR mp / IZR (Z.max lw lh))))) in *.
  set (nph := Py.int (fl (IZR lh * fl (IZR mp / IZR (Z.max lw lh))))) in *.
  set (new := Py.int (fl (IZR lw * fl (IZR me / IZR (Z.max lw lh))))) in *.
  set (neh := Py.int (fl (IZR lh * fl (IZR me / IZR (Z.max lw lh))))) in *.
  destruct ((1 <=? npw) && (1 <=? nph))%Z; [| discriminate HP].
  destruct ((1 <=? new) && (1 <=? neh))%Z; [| discriminate HE].
  injection HP as <-. injection HE as <-.
  cbn [Render.size_w Render.size_h Render.paste_x Render.paste_y].
  destruct (paste_double fl Hfl npw new (Tab.logo_offset_x tab)
              ltac:(lia) ltac:(lia) Dw Hx) as [Px Px1].
  destruct (paste_double fl Hfl nph neh (Tab.logo_offset_y tab)
              ltac:(lia) ltac:(lia) Dh Hy) as [Py Py1].
  split; [exact Dw |]. split; [exact Dh |].
  split; [exact Px |]. split; [exact Py |].
  intros Hs1.
  pose proof (square_side fl Hfl Tab.preview_size 1 (Tab.logo_scale tab) Cp
                ltac:(lia) ltac:(lra)) as Mp1.
  pose proof (square_side fl Hfl 1024 1 (Tab.logo_scale tab) Ce
                ltac:(lia) ltac:(lra)) as Me1.
  fold mp in Mp1. fold me in Me1. unfold Tab.preview_size in *.
  split; [apply Px1 | apply Py1]; lia.
Qed.

(** A 200 x 100 logo at the default scale and position. *)
Lemma logo_placement_agrees_witness :
  exists P E,
    Render._composite_logo_on_canvas Rounding.exact
      (Tab.set_images Tab.init None (Some (200, 100)%Z)) Tab.preview_size
      = Render.composited (Some P) /\
    Render._composite_logo_on_canvas Rounding.exact
      (Tab.set_images Tab.init None (Some (200, 100)%Z)) 1024
      = Render.composited (Some E) /\
    (-2 <= Render.size_w E - 2 * Render.size_w P <= 4)%Z /\
    (Z.abs (Render.paste_x E - 2 * Render.paste_x P) <= 5)%Z.
Proof.
  set (tab := Tab.set_images Tab.init None (Some (200, 100)%Z)).
  assert (Hw : (1 <= 200 <= 2 ^ 31)%Z) by (cbv; intuition discriminate).
  assert (Hh : (1 <= 100 <= 2 ^ 31)%Z) by (cbv; intuition discriminate).
  assert (Cp : (1 <= Tab.preview_size <= 2 ^ 20)%Z) by (cbv; intuition discriminate).
  assert (Ce : (1 <= 1024 <= 2 ^ 20)%Z) by (cbv; intuition discriminate).
  assert (Hs1 : 0 <= Tab.logo_scale tab <= 1) by (simpl; lra).
  assert (Hs : 0 <= Tab.logo_scale tab <= 2) by (simpl; lra).
  assert (Hx : 0 <= Tab.logo_offset_x tab <= 1) by (simpl; lra).
  assert (Hy : 0 <= Tab.logo_offset_y tab <= 1) by (simpl; lra).
  assert (H256 : Py.int (Rounding.exact (IZR Tab.preview_size * Tab.logo_scale tab))
                 = 256%Z).
  { unfold Rounding.exact, Tab.preview_size. simpl.
    apply Z.le_antisymm; [apply int_le_IZR | apply int_ge_IZR]; lra. }
  assert (H512 : Py.int (Rounding.exact (IZR 1024 * Tab.logo_scale tab)) = 512%Z).
  { unfold Rounding.exact. simpl.
    apply Z.le_antisymm; [apply int_le_IZR | apply int_ge_IZR]; lra. }
  destruct (logo_composited Rounding.exact exact_is_binary64_like tab 200 100
              Tab.preview_size eq_refl Hw Hh Cp Hs) as [P HP].
  { rewrite H256. cbv. discriminate. }
  destruct (logo_composited Rounding.exact exact_is_binary64_like tab 200 100
              1024 eq_refl Hw Hh Ce Hs) as [E HE].
  { rewrite H512. cbv. discriminate. }
  exists P, E. split; [exact HP |]. split; [exact HE |].
  destruct (logo_placement_agrees Rounding.exact tab 200 100 P E
              exact_is_binary64_like eq_refl Hw Hh Hs Hx Hy HP HE)
    as (Hsw & _ & _ & _ & H5).
  split; [exact Hsw | apply (H5 ltac:(simpl; lra))].
Defined.

(** *** Three logos on binary64 values *)

(** What the bounds above leave open does happen on the floats the
    program computes with.  A 49 x 49 logo at scale 1 is resized to 511,
    not 512, on the preview canvas: 512 / 49 * 49 is rounded below 512.
    A 35 x 35 logo at scale 0.3 gets 152 pixels at 512 and 307 at 1024,
    three more than twice as many.  A 600 x 2 logo at the default scale
    gets a height of 0, which the resize refuses. *)
Example logo_sizes_on_binary64 :
  Float64.logo_size 512 Float64.one 49 49 = Some (511, 511)%Z /\
  Float64.logo_size 512 Float64.three_tenths 35 35 = Some (152, 152)%Z /\
  Float64.logo_size 1024 Float64.three_tenths 35 35 = Some (307, 307)%Z /\
  Float64.logo_size 512 Float64.half 600 2 = Some (256, 0)%Z /\
  Render.resize (256, 0)%Z = None.
Proof. repeat split; vm_compute; reflexivity. Qed.

(** ** The content follows the pointer *)

Lemma position_keeps_size rotated tab dx dy size :
  Render._apply_transformations rotated (Tab._on_handle_position tab dx dy) size =
  Render._apply_transformations rotated tab size.
Proof.
  unfold Render._apply_transformations, Tab._on_handle_position.
  destruct (Tab.active_layer tab); reflexivity.
Qed.

(** Truncating two numbers of the same sign changes their difference
    by less than one. *)
Lemma int_shift a b :
  (0 <= a /\ 0 <= b) \/ (a <= 0 /\ b <= 0) ->
  Rabs (IZR (Py.int b - Py.int a) - (b - a)) < 1.
Proof.
  intros [[Ha Hb] | [Ha Hb]]; rewrite minus_IZR; apply Rabs_def1.
  - pose proof (int_floor a Ha). pose proof (int_floor b Hb). lra.
  - pose proof (int_floor a Ha). pose proof (int_floor b Hb). lra.
  - pose proof (int_ceil a Ha). pose proof (int_ceil b Hb). lra.
  - pose proof (int_ceil a Ha). pose proof (int_ceil b Hb). lra.
Qed.

(** The background pasted at [-int(a * c)], before and after the offset
    goes from [c] to [c']. *)
Lemma background_shift (w : Z) (c c' d : R) :
  0 <= c <= 1 -> 0 <= c' <= 1 ->
  ((1024 <= w)%Z /\ c' = c + d) \/ ((w <= 1024)%Z /\ c' = c - d) ->
  Props.moved_by (- Py.int (IZR (w - 1024) * c)) (- Py.int (IZR (w - 1024) * c'))
    (- Props.slack 1024 w * d).
Proof.
  intros Hc Hc' Hcase. unfold Props.moved_by, Props.slack.
  set (a := IZR (w - 1024)).
  assert (Hs : (0 <= a * c /\ 0 <= a * c') \/ (a * c <= 0 /\ a * c' <= 0)).
  { destruct Hcase as [[Hw _] | [Hw _]].
    - left. assert (0 <= a) by (apply (IZR_le 0); lia). split; apply Rmult_le_pos; lra.
    - right. assert (a <= 0) by (apply (IZR_le _ 0); lia). split; nra. }
  pose proof (int_shift _ _ Hs) as Hi.
  replace (- Py.int (a * c') - - Py.int (a * c))%Z
    with (- (Py.int (a * c') - Py.int (a * c)))%Z by lia.
  rewrite opp_IZR.
  assert (Hd : a * c' - a * c = Rabs a * d).
  { destruct Hcase as [[Hw ->] | [Hw ->]].
    - rewrite Rabs_pos_eq by (apply (IZR_le 0); lia). ring.
    - rewrite Rabs_left1 by (apply (IZR_le _ 0); lia). ring. }
  rewrite Hd in Hi.
  apply Rabs_def2 in Hi. apply Rabs_def1; lra.
Qed.

Section RoundedShift.

Variable fl : R -> R.
Hypothesis binary64 : Rounding.binary64_like fl.

(** The logo pasted at [int(a * c)], before and after the offset goes
    from [c] to [c - d]. *)
Lemma logo_shift (canvas_size n : Z) (c d : R) :
  (1 <= canvas_size <= 2 ^ 20)%Z -> (0 <= n <= canvas_size)%Z ->
  0 <= c <= 1 -> 0 <= c - d <= 1 ->
  Props.moved_by (Py.int (fl (IZR (canvas_size - n) * c)))
    (Py.int (fl (IZR (canvas_size - n) * (c - d))))
    (- Props.slack canvas_size n * d).
Proof.
  intros Hcs Hn Hc Hc'. unfold Props.moved_by, Props.slack.
  change (2 ^ 20)%Z with 1048576%Z in Hcs.
  replace (IZR (n - canvas_size)) with (- IZR (canvas_size - n))
    by (rewrite !minus_IZR; ring).
  rewrite Rabs_Ropp.
  assert (Ra : 0 <= IZR (canvas_size - n) <= 1048576)
    by (split; [apply (IZR_le 0) | apply (IZR_le _ 1048576)]; lia).
  rewrite (Rabs_pos_eq (IZR (canvas_size - n))) by lra.
  set (a := IZR (canvas_size - n)) in *.
  assert (B : 0 <= a * c <= 1048576) by (split; [apply Rmult_le_pos; lra | nra]).
  assert (B' : 0 <= a * (c - d) <= 1048576)
    by (split; [apply Rmult_le_pos; lra | nra]).
  pose proof (fl_near fl binary64 (a * c) 1048576 ltac:(lra) ltac:(lra)) as N.
  pose proof (fl_near fl binary64 (a * (c - d)) 1048576 ltac:(lra) ltac:(lra)) as N'.
  assert (F : 0 <= fl (a * c)).
  { destruct (fl_between fl binary64 0 1048576 (a * c)) as [H _];
      [cbv; discriminate | cbv; discriminate | lra | lra]. }
  assert (F' : 0 <= fl (a * (c - d))).
  { destruct (fl_between fl binary64 0 1048576 (a * (c - d))) as [H _];
      [cbv; discriminate | cbv; discriminate | lra | lra]. }
  pose proof (int_shift _ _ (or_introl (conj F F'))) as Hi.
  apply Rabs_def2 in Hi.
  unfold Rounding.u, Rounding.eta in N, N'.
  apply Rabs_def1; lra.
Qed.

End RoundedShift.

(** The content follows the pointer and the arrow keys.

    The emitters: a move event of a drag of the move handle runs the
    position slot with minus the pointer displacement over the widget
    size; the Left key runs it with a positive step on x, Right with a
    negative one, Up with a positive step on y, Down with a negative one.

    The slot and the compositing, while the clamp is idle: a delta
    [(dx, dy)] leaves the size of the active layer as it is and moves
    its paste position by [-slack * dx] and [-slack * dy] pixels, to the
    pixel ([Props.moved_by]), where [slack] is the difference between
    the canvas and the layer on that axis.  This holds for the
    1024 x 1024 background without rotation at any zoom - the negation
    of the delta below zoom 1 is what makes it hold for a background
    smaller than the canvas - and, under binary64 rounding, for a logo
    with a scale in [0, 1].  So a pointer moved to the right moves the
    layer to the right, and the Left key moves it to the left. *)
Theorem content_follows_the_delta :
  (forall fuel ov tab p,
     Overlay.active_handle ov = Overlay.HANDLE_MOVE ->
     (0 < Z.min (Overlay.widget_width ov) (Overlay.widget_height ov))%Z ->
     App.pointer_move fuel (ov, tab) p =
     Some (Overlay.set_drag_start_pos ov p,
           Tab._on_handle_position tab
             (- ((Qt.x p - Qt.x (Overlay.drag_start_pos ov))
                 / IZR (Z.min (Overlay.widget_width ov) (Overlay.widget_height ov))))
             (- ((Qt.y p - Qt.y (Overlay.drag_start_pos ov))
                 / IZR (Z.min (Overlay.widget_width ov) (Overlay.widget_height ov)))))) /\
  (forall tab,
     Ui.deliver tab (View.keyPressEvent true View.Key_Left)
       = Tab._on_handle_position tab View.arrow_key_step 0 /\
     Ui.deliver tab (View.keyPressEvent true View.Key_Right)
       = Tab._on_handle_position tab (- View.arrow_key_step) 0 /\
     Ui.deliver tab (View.keyPressEvent true View.Key_Up)
       = Tab._on_handle_position tab 0 View.arrow_key_step /\
     Ui.deliver tab (View.keyPressEvent true View.Key_Down)
       = Tab._on_handle_position tab 0 (- View.arrow_key_step)) /\
  (forall rotated tab dx dy P,
     Tab.active_layer tab = Tab.background ->
     Tab.background_image tab = Some (1024, 1024)%Z ->
     Tab.rotation tab = 0 ->
     0 <= Tab.offset_x tab <= 1 -> 0 <= Tab.offset_y tab <= 1 ->
     Spec.clamp_idle tab dx dy ->
     Render.export_background rotated tab = Some P ->
     exists P',
       Render.export_background rotated (Tab._on_handle_position tab dx dy) = Some P' /\
       Render.size_w P' = Render.size_w P /\ Render.size_h P' = Render.size_h P /\
       Props.moved_by (Render.paste_x P) (Render.paste_x P')
         (- Props.slack 1024 (Render.size_w P) * dx) /\
       Props.moved_by (Render.paste_y P) (Render.paste_y P')
         (- Props.slack 1024 (Render.size_h P) * dy)) /\
  (forall fl tab logo_w logo_h canvas_size dx dy P,
     Rounding.binary64_like fl ->
     Tab.active_layer tab = Tab.logo ->
     Tab.logo_image tab = Some (logo_w, logo_h) ->
     (1 <= logo_w <= 2 ^ 31)%Z -> (1 <= logo_h <= 2 ^ 31)%Z ->
     (1 <= canvas_size <= 2 ^ 20)%Z ->
     0 <= Tab.logo_scale tab <= 1 ->
     0 <= Tab.logo_offset_x tab <= 1 -> 0 <= Tab.logo_offset_y tab <= 1 ->
     Spec.clamp_idle tab dx dy ->
     Render._composite_logo_on_canvas fl tab canvas_size = Render.composited (Some P) ->
     exists P',
       Render._composite_logo_on_canvas fl (Tab._on_handle_position tab dx dy) canvas_size
         = Render.composited (Some P') /\
       Render.size_w P' = Render.size_w P /\ Render.size_h P' = Render.size_h P /\
       Props.moved_by (Render.paste_x P) (Render.paste_x P')
         (- Props.slack canvas_size (Render.size_w P) * dx) /\
       Props.moved_by (Render.paste_y P) (Render.paste_y P')
         (- Props.slack canvas_size (Render.size_h P) * dy)).
Proof.
  split; [| split; [| split]].
  - intros fuel ov tab p Ha Hw. apply pointer_move_position; assumption.
  - intros tab. repeat split.
  - intros rotated tab dx dy P Hl Hbg Hrot Hx Hy Hidle HP.
    unfold Render.export_background in *.
    assert (Hbg' : Tab.background_image (Tab._on_handle_position tab dx dy)
                   = Some (1024, 1024)%Z).
    { unfold Tab._on_handle_position. rewrite Hl. exact Hbg. }
    rewrite Hbg'. rewrite Hbg in HP. rewrite position_keeps_size.
    injection HP as <-. eexists. split; [reflexivity |].
    cbn [Render.size_w Render.size_h Render.paste_x Render.paste_y].
    split; [reflexivity |]. split; [reflexivity |].
    assert (Hsize : Render._apply_transformations rotated tab (1024, 1024)%Z =
                    if negb (Py.eqb (Tab.zoom tab) 1)
                    then (Py.int (IZR 1024 * Tab.zoom tab), Py.int (IZR 1024 * Tab.zoom tab))
                    else (1024, 1024)%Z).
    { unfold Render._apply_transformations.
      rewrite Hrot, (eqb_true 0 0 eq_refl). reflexivity. }
    rewrite Hsize. clear Hsize.
    destruct (zoomed_size (Tab.zoom tab)) as [Hbig Hsmall].
    unfold Spec.clamp_idle, Spec.position_target, Spec.unit_range in Hidle.
    rewrite Hl in Hidle.
    unfold Tab._on_handle_position. rewrite Hl.
    cbn [Tab.offset_x Tab.offset_y Tab.set_offset].
    unfold Py.ltb in *. destruct (Rlt_dec (Tab.zoom tab) 1) as [Hz | Hz].
    + rewrite (eqb_false (Tab.zoom tab) 1) by lra. cbn [negb fst snd] in *.
      destruct Hidle as [Ix Iy].
      rewrite (clamp_id 0 1 (Tab.offset_x tab + - dx)) by lra.
      rewrite (clamp_id 0 1 (Tab.offset_y tab + - dy)) by lra.
      pose proof (Hsmall Hz) as Hw.
      split; apply background_shift; try lra; right; split; try exact Hw; lra.
    + assert (Hz1 : 1 <= Tab.zoom tab) by lra.
      cbn [fst snd] in Hidle. destruct Hidle as [Ix Iy].
      rewrite (clamp_id 0 1 (Tab.offset_x tab + dx)) by lra.
      rewrite (clamp_id 0 1 (Tab.offset_y tab + dy)) by lra.
      assert (Hw : (1024 <= fst (if negb (Py.eqb (Tab.zoom tab) 1)
                                 then (Py.int (IZR 1024 * Tab.zoom tab),
                                       Py.int (IZR 1024 * Tab.zoom tab))
                                 else (1024, 1024)%Z))%Z).
      { destruct (negb (Py.eqb (Tab.zoom tab) 1)); cbn [fst];
          [exact (Hbig Hz1) | lia]. }
      assert (Hh : (1024 <= snd (if negb (Py.eqb (Tab.zoom tab) 1)
                                 then (Py.int (IZR 1024 * Tab.zoom tab),
                                       Py.int (IZR 1024 * Tab.zoom tab))
                                 else (1024, 1024)%Z))%Z).
      { destruct (negb (Py.eqb (Tab.zoom tab) 1)); cbn [snd];
          [exact (Hbig Hz1) | lia]. }
      split; apply background_shift; try lra; left; split; try assumption; lra.
  - intros fl tab lw lh c dx dy P Hfl Hl Hlogo Hw Hh Hc Hs Hx Hy Hidle HP.
    assert (Hlogo' : Tab.logo_image (Tab._on_handle_position tab dx dy) = Some (lw, lh)).
    { unfold Tab._on_handle_position. rewrite Hl. exact Hlogo. }
    assert (Hscale : Tab.logo_scale (Tab._on_handle_position tab dx dy)
                     = Tab.logo_scale tab).
    { unfold Tab._on_handle_position. rewrite Hl. reflexivity. }
    assert (Hs2 : 0 <= Tab.logo_scale tab <= 2) by lra.
    rewrite (logo_outcome fl Hfl _ lw lh c Hlogo' Hw Hh Hc
               ltac:(rewrite Hscale; exact Hs2)).
    rewrite (logo_outcome fl Hfl tab lw lh c Hlogo Hw Hh Hc Hs2) in HP.
    rewrite Hscale. cbv zeta in *.
    pose proof (square_side fl Hfl c 1 (Tab.logo_scale tab) Hc ltac:(lia) Hs) as Hm.
    set (m := Py.int (fl (IZR c * Tab.logo_scale tab))) in *.
    assert (Hm' : (0 <= m <= 2 ^ 21)%Z).
    { change (2 ^ 21)%Z with 2097152%Z. change (2 ^ 20)%Z with 1048576%Z in Hc. lia. }
    assert (Hmax : (Z.max lw lh <= 2 ^ 31)%Z) by lia.
    destruct (resized_side fl Hfl m lw (Z.max lw lh) Hm' ltac:(lia) Hmax) as (Bw & _).
    destruct (resized_side fl Hfl m lh (Z.max lw lh) Hm' ltac:(lia) Hmax) as (Bh & _).
    set (nw := Py.int (fl (IZR lw * fl (IZR m / IZR (Z.max lw lh))))) in *.
    set (nh := Py.int (fl (IZR lh * fl (IZR m / IZR (Z.max lw lh))))) in *.
    destruct ((1 <=? nw) && (1 <=? nh))%Z; [| discriminate HP].
    injection HP as <-. eexists. split; [reflexivity |].
    cbn [Render.size_w Render.size_h Render.paste_x Render.paste_y].
    split; [reflexivity |]. split; [reflexivity |].
    unfold Spec.clamp_idle, Spec.position_target, Spec.unit_range in Hidle.
    rewrite Hl in Hidle. cbn [fst snd] in Hidle. destruct Hidle as [Ix Iy].
    unfold Tab._on_handle_position. rewrite Hl.
    cbn [Tab.logo_offset_x Tab.logo_offset_y Tab.set_logo_offset].
    rewrite (clamp_id 0 1 (Tab.logo_offset_x tab - dx)) by lra.
    rewrite (clamp_id 0 1 (Tab.logo_offset_y tab - dy)) by lra.
    split; apply (logo_shift fl Hfl); try assumption; lia.
Qed.

(** The Left key on a background at 150%: the exported background
    overhangs the canvas by 512 pixels, a step of 0.005 is 2.56 of them,
    and the background moves to the left by at least one pixel. *)
Lemma content_follows_the_delta_witness :
  let tab := Tab._on_scale_spinbox_changed Scenario.tab_loaded 150 in
  exists P P',
    Render.export_background (fun _ s => s) tab = Some P /\
    Render.export_background (fun _ s => s)
      (Ui.deliver tab (View.keyPressEvent true View.Key_Left)) = Some P' /\
    (Render.paste_x P' < Render.paste_x P)%Z.
Proof.
  intros tab.
  assert (Hx : 0 <= Tab.offset_x tab <= 1) by (simpl; lra).
  assert (Hy : 0 <= Tab.offset_y tab <= 1) by (simpl; lra).
  assert (Hidle : Spec.clamp_idle tab View.arrow_key_step 0).
  { unfold Spec.clamp_idle, Spec.position_target, Spec.unit_range, View.arrow_key_step.
    simpl. rewrite ltb_false by lra. simpl. lra. }
  assert (Hint : Py.int (IZR 1024 * (150 / 100)) = 1536%Z).
  { apply Z.le_antisymm; [apply int_le_IZR | apply int_ge_IZR]; lra. }
  assert (HP : Render.export_background (fun _ s => s) tab
               = Some (Render.mkPlacement 1536 1536
                         (- Py.int (IZR (1536 - 1024) * (1 / 2)))
                         (- Py.int (IZR (1536 - 1024) * (1 / 2))))).
  { unfold Render.export_background, Render._apply_transformations. simpl.
    rewrite (eqb_true 0 0 eq_refl), (eqb_false (150 / 100) 1) by lra. simpl.
    rewrite Hint. reflexivity. }
  destruct (proj1 (proj2 (proj2 content_follows_the_delta)) (fun _ s => s) tab
              View.arrow_key_step 0 _ eq_refl eq_refl eq_refl Hx Hy Hidle HP)
    as (P' & HP' & _ & _ & Hmove & _).
  eexists. exists P'. split; [exact HP |]. split; [exact HP' |].
  unfold Props.moved_by, Props.slack, View.arrow_key_step in Hmove.
  cbn [Render.size_w Render.paste_x] in Hmove |- *.
  set (px := (- Py.int (IZR (1536 - 1024) * (1 / 2)))%Z) in *.
  replace (IZR (1536 - 1024)) with 512 in Hmove by (rewrite minus_IZR; lra).
  rewrite (Rabs_pos_eq 512) in Hmove by lra.
  apply Rabs_def2 in Hmove. destruct Hmove as [Hlt _].
  apply lt_IZR. rewrite minus_IZR in Hlt. lra.
Defined.

(** ** A move drag is path independent, up to rounding *)

(** The clamp does not move two values apart. *)
Lemma clamp_close lo hi a b e :
  lo <= hi -> a - e <= b <= a + e ->
  Py.max lo (Py.min hi a) - e <= Py.max lo (Py.min hi b)
  <= Py.max lo (Py.min hi a) + e.
Proof.
  intros Hlh Hab.
  destruct (min_spec hi a) as [[? ->] | [? ->]];
    destruct (min_spec hi b) as [[? ->] | [? ->]];
    repeat match goal with
           | |- context [Py.max ?l ?v] =>
               destruct (max_spec l v) as [[? ->] | [? ->]]
           end; lra.
Qed.

(** Without rounding, the move event above is the overlay's handler
    followed by the tab's slot. *)
Lemma move_event_exact fuel ov tab p :
  Overlay.active_handle ov = Overlay.HANDLE_MOVE ->
  (0 < Z.min (Overlay.widget_width ov) (Overlay.widget_height ov))%Z ->
  App.pointer_move fuel (ov, tab) p
  = Some (Rounded.move_event Rounding.exact (ov, tab) p).
Proof.
  intros Ha Hw. rewrite pointer_move_position by assumption.
  unfold Rounded.move_event, Rounded.move_delta, Rounded._on_handle_position,
    Rounded.position_target, Tab._on_handle_position, Props.move_delta,
    Rounding.exact.
  cbn [fst snd]. destruct (Tab.active_layer tab); reflexivity.
Qed.

Section RoundedDrag.

Variable fl : R -> R.
Hypothesis binary64 : Rounding.binary64_like fl.

(** The normalised displacement [fl(fl(a) / widget_size)]. *)
Lemma norm_close (a ws : R) :
  - 2 ^ 17 <= a <= 2 ^ 17 -> 1 <= ws ->
  a / ws - 1 / 10 ^ 10 <= fl (fl a / ws) <= a / ws + 1 / 10 ^ 10 /\
  - 2 ^ 18 <= fl (fl a / ws) <= 2 ^ 18.
Proof.
  intros Ha Hws.
  pose proof (fl_near fl binary64 a (2 ^ 17) ltac:(lra) ltac:(lra)) as N1.
  assert (Hi : 0 < / ws <= 1).
  { split; [apply Rinv_0_lt_compat; lra |].
    rewrite <- Rinv_1. apply Rinv_le_contravar; lra. }
  unfold Rounding.u, Rounding.eta in N1.
  set (d := fl a) in *. unfold Rdiv. set (w := / ws) in *.
  assert (Hd : - (2 ^ 17 + 1) <= d <= 2 ^ 17 + 1) by lra.
  assert (Hdw : - (2 ^ 17 + 1) <= d * w <= 2 ^ 17 + 1) by nra.
  pose proof (fl_near fl binary64 (d * w) (2 ^ 18) ltac:(lra) ltac:(lra)) as N2.
  unfold Rounding.u, Rounding.eta in N2.
  assert (Hc : a * w - (/ 2 ^ 53 * 2 ^ 17 + / 2 ^ 1075) <= d * w
               <= a * w + (/ 2 ^ 53 * 2 ^ 17 + / 2 ^ 1075)) by nra.
  split; split; lra.
Qed.

(** One axis of the offsets after two events and after one. *)
Lemma axis_close (o n1 n2 n12 : R) :
  0 <= o <= 1 ->
  - 2 ^ 18 <= n1 <= 2 ^ 18 -> - 2 ^ 18 <= n2 <= 2 ^ 18 -> - 2 ^ 18 <= n12 <= 2 ^ 18 ->
  - (3 / 10 ^ 10) <= n1 + n2 - n12 <= 3 / 10 ^ 10 ->
  0 <= fl (o + n1) <= 1 ->
  Rabs (Py.max 0 (Py.min 1 (fl (fl (o + n1) + n2)))
        - Py.max 0 (Py.min 1 (fl (o + n12)))) <= 1 / 10 ^ 9.
Proof.
  intros Ho H1 H2 H12 Hs Hidle.
  pose proof (fl_near fl binary64 (o + n1) (2 ^ 19) ltac:(lra) ltac:(lra)) as N1.
  pose proof (fl_near fl binary64 (fl (o + n1) + n2) (2 ^ 19) ltac:(lra) ltac:(lra))
    as N2.
  pose proof (fl_near fl binary64 (o + n12) (2 ^ 19) ltac:(lra) ltac:(lra)) as N12.
  unfold Rounding.u, Rounding.eta in N1, N2, N12.
  pose proof (clamp_close 0 1 (fl (fl (o + n1) + n2)) (fl (o + n12)) (1 / 10 ^ 9)
                ltac:(lra) ltac:(lra)) as Hc.
  apply Rabs_le. lra.
Qed.

End RoundedDrag.

(** A drag of the move handle is path independent up to rounding.
    Without rounding the move event modelled in [Rounded] is the
    overlay's handler followed by the tab's slot.  Under binary64
    rounding, for pointer positions within 65536 pixels of the origin
    and a widget at least one pixel wide, two move events (to [p1],
    then to [p2]) leave the overlay exactly as one move event to [p2]
    does - the handler rebases [drag_start_pos], no arithmetic is
    involved - and leave the tab as it does except for the offsets of
    the active layer, which agree to within 1e-9, provided the first
    event does not engage the clamp.  The deltas are rounded one by
    one, so the offsets themselves need not be equal. *)
Theorem move_drag_is_path_independent :
  (forall fuel ov tab p,
     Overlay.active_handle ov = Overlay.HANDLE_MOVE ->
     (0 < Z.min (Overlay.widget_width ov) (Overlay.widget_height ov))%Z ->
     App.pointer_move fuel (ov, tab) p
     = Some (Rounded.move_event Rounding.exact (ov, tab) p)) /\
  (forall fl ov tab p1 p2,
     Rounding.binary64_like fl ->
     (1 <= Z.min (Overlay.widget_width ov) (Overlay.widget_height ov))%Z ->
     Props.on_screen (Overlay.drag_start_pos ov) ->
     Props.on_screen p1 -> Props.on_screen p2 ->
     Spec.offsets_in_range tab ->
     Rounded.clamp_idle fl tab (fst (Rounded.move_delta fl ov p1))
       (snd (Rounded.move_delta fl ov p1)) ->
     let two := Rounded.move_event fl (Rounded.move_event fl (ov, tab) p1) p2 in
     let one := Rounded.move_event fl (ov, tab) p2 in
     fst two = fst one /\
     Props.same_but_offsets (snd two) (snd one) /\
     Props.offsets_within (1 / 10 ^ 9) (snd two) (snd one)).
Proof.
  split; [intros; now apply move_event_exact |].
  intros fl ov tab p1 p2 Hfl Hw [S0x S0y] [S1x S1y] [S2x S2y] Hoff Hidle.
  assert (Rws : 1 <= IZR (Z.min (Overlay.widget_width ov) (Overlay.widget_height ov)))
    by (apply (IZR_le 1); exact Hw).
  set (ws := IZR (Z.min (Overlay.widget_width ov) (Overlay.widget_height ov))) in *.
  set (x0 := Qt.x (Overlay.drag_start_pos ov)) in *.
  set (y0 := Qt.y (Overlay.drag_start_pos ov)) in *.
  destruct (norm_close fl Hfl (Qt.x p1 - x0) ws ltac:(lra) Rws) as [Cx1 Bx1].
  destruct (norm_close fl Hfl (Qt.x p2 - Qt.x p1) ws ltac:(lra) Rws) as [Cx2 Bx2].
  destruct (norm_close fl Hfl (Qt.x p2 - x0) ws ltac:(lra) Rws) as [Cx12 Bx12].
  destruct (norm_close fl Hfl (Qt.y p1 - y0) ws ltac:(lra) Rws) as [Cy1 By1].
  destruct (norm_close fl Hfl (Qt.y p2 - Qt.y p1) ws ltac:(lra) Rws) as [Cy2 By2].
  destruct (norm_close fl Hfl (Qt.y p2 - y0) ws ltac:(lra) Rws) as [Cy12 By12].
  assert (Ex : (Qt.x p1 - x0) / ws + (Qt.x p2 - Qt.x p1) / ws = (Qt.x p2 - x0) / ws)
    by (field; lra).
  assert (Ey : (Qt.y p1 - y0) / ws + (Qt.y p2 - Qt.y p1) / ws = (Qt.y p2 - y0) / ws)
    by (field; lra).
  set (nx1 := fl (fl (Qt.x p1 - x0) / ws)) in *.
  set (nx2 := fl (fl (Qt.x p2 - Qt.x p1) / ws)) in *.
  set (nx12 := fl (fl (Qt.x p2 - x0) / ws)) in *.
  set (ny1 := fl (fl (Qt.y p1 - y0) / ws)) in *.
  set (ny2 := fl (fl (Qt.y p2 - Qt.y p1) / ws)) in *.
  set (ny12 := fl (fl (Qt.y p2 - y0) / ws)) in *.
  assert (Sx : - (3 / 10 ^ 10) <= nx1 + nx2 - nx12 <= 3 / 10 ^ 10) by lra.
  assert (Sy : - (3 / 10 ^ 10) <= ny1 + ny2 - ny12 <= 3 / 10 ^ 10) by lra.
  assert (Zero : Rabs 0 <= 1 / 10 ^ 9) by (rewrite Rabs_R0; lra).
  unfold Rounded.clamp_idle, Rounded.position_target, Rounded.move_delta,
    Spec.unit_range in Hidle.
  fold ws x0 y0 nx1 ny1 in Hidle. cbn [fst snd] in Hidle.
  destruct Hoff as (Ox & Oy & Lx & Ly). unfold Spec.unit_range in Ox, Oy, Lx, Ly.
  cbv zeta.
  unfold Rounded.move_event, Rounded.move_delta, Rounded._on_handle_position,
    Rounded.position_target, Props.same_but_offsets, Props.offsets_within.
  cbn [fst snd Overlay.set_drag_start_pos Overlay.drag_start_pos
       Overlay.widget_width Overlay.widget_height].
  fold ws x0 y0 nx1 ny1 nx2 ny2 nx12 ny12.
  split; [reflexivity |].
  destruct tab as [bg lg rot z ox oy ls lox loy op layer sz sr sl].
  cbn [Tab.active_layer Tab.zoom Tab.offset_x Tab.offset_y Tab.logo_offset_x
       Tab.logo_offset_y] in *.
  destruct layer.
  - (* the background *)
    destruct (Py.ltb z 1) eqn:Ez;
      cbn [Tab.set_offset Tab.active_layer Tab.zoom Tab.offset_x Tab.offset_y
           Tab.logo_offset_x Tab.logo_offset_y Tab.background_image Tab.logo_image
           Tab.rotation Tab.logo_scale Tab.logo_opacity Tab.transform_start_zoom
           Tab.transform_start_rotation Tab.transform_start_logo_scale];
      rewrite ?Ez;
      cbn [Tab.set_offset Tab.active_layer Tab.zoom Tab.offset_x Tab.offset_y
           Tab.logo_offset_x Tab.logo_offset_y Tab.background_image Tab.logo_image
           Tab.rotation Tab.logo_scale Tab.logo_opacity Tab.transform_start_zoom
           Tab.transform_start_rotation Tab.transform_start_logo_scale];
      (split; [repeat split |]);
      destruct Hidle as [Ix Iy].
    + cbn [fst snd] in *. rewrite !Ropp_involutive in *.
      rewrite (clamp_id 0 1 (fl (ox + nx1))) by exact Ix.
      rewrite (clamp_id 0 1 (fl (oy + ny1))) by exact Iy.
      replace (lox - lox) with 0 by ring. replace (loy - loy) with 0 by ring.
      repeat split; try exact Zero; apply (axis_close fl Hfl); assumption.
    + cbn [fst snd] in *.
      rewrite (clamp_id 0 1 (fl (ox + - nx1))) by exact Ix.
      rewrite (clamp_id 0 1 (fl (oy + - ny1))) by exact Iy.
      replace (lox - lox) with 0 by ring. replace (loy - loy) with 0 by ring.
      repeat split; try exact Zero; apply (axis_close fl Hfl); try assumption; lra.
  - (* the logo *)
    cbn [Tab.set_logo_offset Tab.active_layer Tab.zoom Tab.offset_x Tab.offset_y
         Tab.logo_offset_x Tab.logo_offset_y Tab.background_image Tab.logo_image
         Tab.rotation Tab.logo_scale Tab.logo_opacity Tab.transform_start_zoom
         Tab.transform_start_rotation Tab.transform_start_logo_scale].
    split; [repeat split |].
    destruct Hidle as [Ix Iy]. cbn [fst snd] in *.
    unfold Rminus in *. rewrite !Ropp_involutive in *.
    rewrite (clamp_id 0 1 (fl (lox + nx1))) by exact Ix.
    rewrite (clamp_id 0 1 (fl (loy + ny1))) by exact Iy.
    replace (ox + - ox) with 0 by ring. replace (oy + - oy) with 0 by ring.
    repeat split; try exact Zero; apply (axis_close fl Hfl); assumption.
Qed.

(** The 800-pixel widget at zoom 1: 80 pixels right, then to (500, 430). *)
Lemma move_drag_is_path_independent_witness :
  let ov := Scenario.dragging Overlay.HANDLE_MOVE (Qt.mkPoint 400 400)
              (Qt.mkRect 144 144 512 512) true in
  Props.offsets_within (1 / 10 ^ 9)
    (snd (Rounded.move_event Rounding.exact
            (Rounded.move_event Rounding.exact (ov, Tab.init) (Qt.mkPoint 480 400))
            (Qt.mkPoint 500 430)))
    (snd (Rounded.move_event Rounding.exact (ov, Tab.init) (Qt.mkPoint 500 430))).
Proof.
  intros ov.
  refine (proj2 (proj2 (proj2 move_drag_is_path_independent Rounding.exact ov Tab.init
                          (Qt.mkPoint 480 400) (Qt.mkPoint 500 430)
                          exact_is_binary64_like _ _ _ _ _ _))).
  - cbv. discriminate.
  - unfold Props.on_screen; simpl; lra.
  - unfold Props.on_screen; simpl; lra.
  - unfold Props.on_screen; simpl; lra.
  - unfold Spec.offsets_in_range, Spec.unit_range; simpl; lra.
  - unfold Rounded.clamp_idle, Rounded.position_target, Rounded.move_delta,
      Spec.unit_range, Rounding.exact. simpl.
    change (Z.min 800 800) with 800%Z. rewrite ltb_false by lra. simpl. lra.
Defined.

(** * The handle box and the layer it frames *)

Lemma view_side_pos view_w view_h :
  (0 < view_w)%Z -> (0 < view_h)%Z -> 0 < Props.view_side view_w view_h.
Proof. intros Hw Hh. unfold Props.view_side. apply IZR_lt. lia. Qed.

Lemma view_guard view_w view_h :
  (0 < view_w)%Z -> (0 < view_h)%Z -> (view_w <=? 0)%Z || (view_h <=? 0)%Z = false.
Proof.
  intros Hw Hh. rewrite (proj2 (Z.leb_gt _ _) Hw), (proj2 (Z.leb_gt _ _) Hh). reflexivity.
Qed.




(** The handle box of the logo.  For a viewport of positive size and a
    logo of positive size the refresh never divides by zero; the box is
    not rotated, keeps the aspect ratio of the logo, has its longer
    side equal to (preview side) * logo_scale, and for a scale of at
    most 1 and offsets in [0, 1] it lies within the preview square.
    With no image for the active layer the handles are hidden and the
    bounds left as they are. *)
Theorem logo_handle_box :
  forall tab view_w view_h ov,
    (0 < view_w)%Z -> (0 < view_h)%Z ->
    (forall lw lh,
       Tab.active_layer tab = Tab.logo ->
       Tab.logo_image tab = Some (lw, lh) -> (0 < lw)%Z -> (0 < lh)%Z ->
       0 <= Tab.logo_scale tab ->
       exists ov',
         Tab._update_handle_bounds tab view_w view_h ov = Some ov' /\
         Overlay.handles_visible ov' = true /\
         Overlay.rotation ov' = 0 /\
         Qt.width (Overlay.bounds ov') * IZR lh = Qt.height (Overlay.bounds ov') * IZR lw /\
         ((lh <= lw)%Z ->
          Qt.width (Overlay.bounds ov') = Props.view_side view_w view_h * Tab.logo_scale tab) /\
         ((lw <= lh)%Z ->
          Qt.height (Overlay.bounds ov') = Props.view_side view_w view_h * Tab.logo_scale tab) /\
         0 <= Qt.width (Overlay.bounds ov')
           <= Props.view_side view_w view_h * Tab.logo_scale tab /\
         0 <= Qt.height (Overlay.bounds ov')
           <= Props.view_side view_w view_h * Tab.logo_scale tab /\
         Overlay.active_handle ov' = Overlay.active_handle ov /\
         Overlay.drag_start_pos ov' = Overlay.drag_start_pos ov /\
         Overlay.drag_start_bounds ov' = Overlay.drag_start_bounds ov /\
         (Tab.logo_scale tab <= 1 ->
          0 <= Tab.logo_offset_x tab <= 1 -> 0 <= Tab.logo_offset_y tab <= 1 ->
          Props.view_margin_x view_w view_h <= Qt.left (Overlay.bounds ov') /\
          Qt.left (Overlay.bounds ov') + Qt.width (Overlay.bounds ov')
            <= Props.view_margin_x view_w view_h + Props.view_side view_w view_h /\
          Props.view_margin_y view_w view_h <= Qt.top (Overlay.bounds ov') /\
          Qt.top (Overlay.bounds ov') + Qt.height (Overlay.bounds ov')
            <= Props.view_margin_y view_w view_h + Props.view_side view_w view_h)) /\
    ((Tab.active_layer tab = Tab.background /\ Tab.background_image tab = None) \/
     (Tab.active_layer tab = Tab.logo /\ Tab.logo_image tab = None) ->
     Tab._update_handle_bounds tab view_w view_h ov
       = Some (Overlay.set_handles_visible ov false)).
Proof.
  intros tab view_w view_h ov Hw Hh.
  pose proof (view_side_pos view_w view_h Hw Hh) as Hs.
  split.
  - intros lw lh Hl Hlogo Hlw Hlh Hsc.
    assert (Rw : 0 < IZR lw) by (apply IZR_lt in Hlw; exact Hlw).
    assert (Rh : 0 < IZR lh) by (apply IZR_lt in Hlh; exact Hlh).
    unfold Tab._update_handle_bounds.
    rewrite (view_guard view_w view_h Hw Hh), Hl, Hlogo.
    fold (Props.view_side view_w view_h).
    set (pv := Props.view_side view_w view_h) in *.
    rewrite !div_some by lra.
    eexists. split; [reflexivity |].
    cbn [Overlay.handles_visible Overlay.rotation Overlay.bounds
         Overlay.set_handles_visible Overlay.set_rotation Overlay.set_bounds
         Overlay.active_handle Overlay.drag_start_pos Overlay.drag_start_bounds
         Qt.width Qt.height Qt.left Qt.top].
    assert (Hm : 0 <= pv * Tab.logo_scale tab) by nra.
    rewrite (fit_ratio _ (IZR lw) (IZR lh)) by lra.
    rewrite (min_comm (_ / IZR lw) (_ / IZR lh)).
    rewrite (fit_ratio _ (IZR lh) (IZR lw)) by lra.
    pose proof (fit_share (IZR lw) (IZR lh) Rw Rh) as Aw.
    pose proof (fit_share (IZR lh) (IZR lw) Rh Rw) as Ah.
    assert (Hasp : (if Rlt_dec (IZR lw) (IZR lh) then IZR lw / IZR lh else 1) * IZR lh
                   = (if Rlt_dec (IZR lh) (IZR lw) then IZR lh / IZR lw else 1) * IZR lw).
    { destruct (Rlt_dec (IZR lw) (IZR lh)); destruct (Rlt_dec (IZR lh) (IZR lw));
        try lra; field; lra. }
    assert (Hlong : (lh <= lw)%Z ->
                    (if Rlt_dec (IZR lw) (IZR lh) then IZR lw / IZR lh else 1) = 1).
    { intros Hle. destruct (Rlt_dec (IZR lw) (IZR lh)) as [Hlt | _]; [| reflexivity].
      apply lt_IZR in Hlt. lia. }
    assert (Htall : (lw <= lh)%Z ->
                    (if Rlt_dec (IZR lh) (IZR lw) then IZR lh / IZR lw else 1) = 1).
    { intros Hle. destruct (Rlt_dec (IZR lh) (IZR lw)) as [Hlt | _]; [| reflexivity].
      apply lt_IZR in Hlt. lia. }
    set (sw := if Rlt_dec (IZR lw) (IZR lh) then IZR lw / IZR lh else 1) in *.
    set (sh := if Rlt_dec (IZR lh) (IZR lw) then IZR lh / IZR lw else 1) in *.
    unfold Props.view_margin_x, Props.view_margin_y. fold pv.
    split; [reflexivity |]. split; [reflexivity |].
    split; [rewrite !Rmult_assoc; do 2 f_equal; exact Hasp |].
    split; [intros Hle; rewrite (Hlong Hle); ring |].
    split; [intros Hle; rewrite (Htall Hle); ring |].
    split; [nra |]. split; [nra |].
    split; [reflexivity |]. split; [reflexivity |]. split; [reflexivity |].
    intros H1 Hx Hy.
    assert (0 <= pv - pv * Tab.logo_scale tab * sw) by nra.
    assert (0 <= pv - pv * Tab.logo_scale tab * sh) by nra.
    repeat split; nra.
  - intros [[Hl Hnone] | [Hl Hnone]]; unfold Tab._update_handle_bounds;
      rewrite (view_guard view_w view_h Hw Hh), Hl, Hnone; [reflexivity |].
    destruct (Tab.background_image tab); reflexivity.
Qed.

(** A 200 x 100 logo, the logo layer selected, in an 800 x 600 viewport. *)
Lemma logo_handle_box_witness :
  exists ov',
    Tab._update_handle_bounds
      (Tab._select_layer (Tab.set_images Tab.init None (Some (200, 100)%Z)) Tab.logo)
      800 600 Scenario.fresh_overlay = Some ov' /\
    Qt.width (Overlay.bounds ov') = Props.view_side 800 600 * (1 / 2) /\
    Qt.width (Overlay.bounds ov') * IZR 100 = Qt.height (Overlay.bounds ov') * IZR 200.
Proof.
  destruct (proj1 (logo_handle_box
                     (Tab._select_layer (Tab.set_images Tab.init None (Some (200, 100)%Z))
                        Tab.logo)
                     800 600 Scenario.fresh_overlay ltac:(lia) ltac:(lia))
              200%Z 100%Z eq_refl eq_refl ltac:(lia) ltac:(lia) ltac:(simpl; lra))
    as (ov' & Hu & _ & _ & Hasp & Hlong & _).
  exists ov'. split; [exact Hu |]. split; [apply Hlong; lia | exact Hasp].
Defined.

(** * The position slot on binary64 floats, for every value *)

Lemma float_ltb_leb x y : PrimFloat.ltb x y = true -> PrimFloat.leb x y = true.
Proof.
  rewrite FloatAxioms.ltb_spec, FloatAxioms.leb_spec.
  unfold SpecFloat.SFltb, SpecFloat.SFleb.
  destruct (SpecFloat.SFcompare _ _) as [[| |] |]; congruence.
Qed.

Lemma float_ltb_nan x y :
  FloatOps.Prim2SF x = SpecFloat.S754_nan -> PrimFloat.ltb x y = false.
Proof.
  intros H. rewrite FloatAxioms.ltb_spec, H. reflexivity.
Qed.

(** [max(0.0, min(1.0, v))] on any binary64 value. *)
Lemma float_clamp_unit v :
  Props.float_unit (Float64.max Float64.zero (Float64.min Float64.one v)) = true.
Proof.
  unfold Float64.max, Float64.min, Props.float_unit.
  destruct (PrimFloat.ltb v Float64.one) eqn:E1.
  - destruct (PrimFloat.ltb Float64.zero v) eqn:E2.
    + rewrite (float_ltb_leb _ _ E1), (float_ltb_leb _ _ E2). reflexivity.
    + reflexivity.
  - reflexivity.
Qed.

Lemma float_clamp_nan v :
  FloatOps.Prim2SF v = SpecFloat.S754_nan ->
  Float64.max Float64.zero (Float64.min Float64.one v) = Float64.one.
Proof.
  intros H. unfold Float64.max, Float64.min.
  rewrite (float_ltb_nan v Float64.one H). reflexivity.
Qed.

Lemma float_add_nan x d :
  FloatOps.Prim2SF d = SpecFloat.S754_nan ->
  FloatOps.Prim2SF (PrimFloat.add x d) = SpecFloat.S754_nan.
Proof.
  intros H. rewrite FloatAxioms.add_spec, H. unfold FloatAxioms.SF64add.
  destruct (FloatOps.Prim2SF x); reflexivity.
Qed.

Lemma float_sub_nan x d :
  FloatOps.Prim2SF d = SpecFloat.S754_nan ->
  FloatOps.Prim2SF (PrimFloat.sub x d) = SpecFloat.S754_nan.
Proof.
  intros H. rewrite FloatAxioms.sub_spec, H. unfold FloatAxioms.SF64sub.
  destruct (FloatOps.Prim2SF x); reflexivity.
Qed.

Lemma float_opp_nan d :
  FloatOps.Prim2SF d = SpecFloat.S754_nan ->
  FloatOps.Prim2SF (PrimFloat.opp d) = SpecFloat.S754_nan.
Proof. intros H. rewrite FloatAxioms.opp_spec, H. reflexivity. Qed.

(** On binary64 floats too, the position slot stores offsets between
    0.0 and 1.0 for the active layer, whatever the state and the delta:
    infinities and NaN included, in the state as in the delta.  A NaN
    delta stores 1.0 on both axes, because [min(1.0, nan)] keeps its
    first argument. *)
Theorem float_offsets_stay_in_unit_range :
  forall self delta_x delta_y,
    Props.float_unit
      (fst (Props.float_active_offsets (Float64._on_handle_position self delta_x delta_y)))
      = true /\
    Props.float_unit
      (snd (Props.float_active_offsets (Float64._on_handle_position self delta_x delta_y)))
      = true /\
    Props.float_active_offsets
      (Float64._on_handle_position self PrimFloat.nan PrimFloat.nan)
      = (Float64.one, Float64.one).
Proof.
  intros self delta_x delta_y.
  assert (Hnan : FloatOps.Prim2SF PrimFloat.nan = SpecFloat.S754_nan) by reflexivity.
  unfold Props.float_active_offsets, Float64._on_handle_position.
  destruct (Float64.active_layer self) eqn:El; cbn [Float64.active_layer
    Float64.offset_x Float64.offset_y Float64.logo_offset_x Float64.logo_offset_y
    fst snd]; rewrite ?El; cbn [fst snd].
  - split; [apply float_clamp_unit |]. split; [apply float_clamp_unit |].
    match goal with
    | |- context [PrimFloat.ltb (Float64.zoom self) ?c] =>
        destruct (PrimFloat.ltb (Float64.zoom self) c)
    end;
      rewrite !float_clamp_nan; try reflexivity;
      apply float_add_nan; try apply float_opp_nan; exact Hnan.
  - split; [apply float_clamp_unit |]. split; [apply float_clamp_unit |].
    rewrite !float_clamp_nan; try reflexivity; apply float_sub_nan; exact Hnan.
Qed.

(** * A whole session *)

Lemma step_keeps_brackets ov s :
  exists ov1 emitted1,
    Props.step ov s = Some (ov1, emitted1) /\
    forall rest,
      Props.bracketed (Props.holding ov) (emitted1 ++ rest) =
      Props.bracketed (Props.holding ov1) rest.
Proof.
  destruct s as [[left_button pos | pos | left_button] | b r visible].
  - (* press *)
    unfold Props.step.
    rewrite (proj1 (event_filter_facts ov) left_button pos).
    eexists _, _. split; [reflexivity |]. intros rest.
    unfold Overlay.mousePressEvent.
    destruct left_button; [| reflexivity].
    destruct (negb (Overlay.handle_eqb (Overlay.hit_test ov pos) Overlay.HANDLE_NONE))
      eqn:E; [| reflexivity].
    simpl. unfold Props.holding. simpl. rewrite E. reflexivity.
  - (* move *)
    unfold Props.step.
    rewrite (proj1 (proj2 (event_filter_facts ov)) pos).
    destruct (move_event_facts ov pos)
      as (ov' & emitted & E & Ha & _ & _ & _ & _ & _ & _ & Hlen & Hs & Hf & Hnone & _).
    rewrite E. eexists _, _. split; [reflexivity |]. intros rest.
    unfold Props.holding. rewrite Ha.
    destruct emitted as [| s [| s' more]]; [reflexivity | | simpl in Hlen; lia].
    assert (Hheld : Overlay.active_handle ov <> Overlay.HANDLE_NONE)
      by (intros Hn; specialize (Hnone Hn); discriminate).
    assert (Hopen : negb (Overlay.handle_eqb (Overlay.active_handle ov)
                            Overlay.HANDLE_NONE) = true).
    { unfold Overlay.handle_eqb.
      destruct (Overlay.Handle_eq_dec (Overlay.active_handle ov) Overlay.HANDLE_NONE);
        [contradiction | reflexivity]. }
    rewrite Hopen.
    destruct s; simpl; try reflexivity.
    exfalso. apply Hf. left. reflexivity.
  - (* release *)
    unfold Props.step.
    rewrite (proj2 (proj2 (event_filter_facts ov)) left_button).
    eexists _, _. split; [reflexivity |]. intros rest.
    unfold Overlay.mouseReleaseEvent, Props.holding.
    destruct left_button; [| reflexivity].
    destruct (negb (Overlay.handle_eqb (Overlay.active_handle ov) Overlay.HANDLE_NONE))
      eqn:E; [| simpl; rewrite E; reflexivity].
    simpl. reflexivity.
  - (* refresh *)
    eexists _, _. split; [reflexivity |]. intros rest. reflexivity.
Qed.

(** Whatever the mouse does, and whatever refreshes come in between,
    the overlay never raises and its signals come in brackets: a scale,
    rotation or position delta, and a [transform_finished], are emitted
    only while a drag is open, that is after a [transform_started] that
    no [transform_finished] has closed.  So the baseline the deltas are
    applied to is always the one taken at the start of the drag in
    progress. *)
Theorem signals_come_in_brackets :
  forall steps ov,
    exists ov' emitted,
      Props.play ov steps = Some (ov', emitted) /\
      Props.bracketed (Props.holding ov) emitted = true.
Proof.
  induction steps as [| s rest IH]; intros ov.
  - exists ov, []. split; reflexivity.
  - destruct (step_keeps_brackets ov s) as (ov1 & e1 & E1 & Hb).
    destruct (IH ov1) as (ov2 & e2 & E2 & Hb2).
    exists ov2, (e1 ++ e2). simpl. rewrite E1, E2.
    split; [reflexivity |]. rewrite Hb. exact Hb2.
Qed.

(** ** The dragged edge follows the pointer *)



(** ** A corner drag scales the box about its centre *)

(** A corner drag of the centred background: the factor is measured
    from the corner opposite to the one dragged, but the box the
    refresh gives afterwards is the drag-start box scaled by that
    factor about its centre.  The centre stays where it is, both sides
    are multiplied by the factor, and the opposite corner stays in
    place only when the factor is 1. *)
Theorem corner_drag_scales_about_centre :
  forall fuel tab view_w view_h ov ov1 size h p0 p,
    (0 < view_w)%Z -> (0 < view_h)%Z ->
    Tab.active_layer tab = Tab.background ->
    Tab.background_image tab = Some size ->
    Tab.offset_x tab = 1 / 2 -> Tab.offset_y tab = 1 / 2 ->
    0 < Tab.zoom tab ->
    Tab._update_handle_bounds tab view_w view_h ov = Some ov1 ->
    Spec.is_corner h ->
    0 < Spec.distance (Spec.box_point (Spec.opposite h) (Overlay.bounds ov1)) p0 ->
    Spec.zoom_range
      (Tab.zoom tab
       * (Spec.distance (Spec.box_point (Spec.opposite h) (Overlay.bounds ov1)) p
          / Spec.distance (Spec.box_point (Spec.opposite h) (Overlay.bounds ov1)) p0)) ->
    exists tab2 ov3,
      App.pointer_move fuel (Overlay.begin_drag ov1 h p0, Tab._on_transform_started tab) p
        = Some (Overlay.begin_drag ov1 h p0, tab2) /\
      Tab._update_handle_bounds tab2 view_w view_h (Overlay.begin_drag ov1 h p0) = Some ov3 /\
      Qt.center (Overlay.bounds ov3) = Qt.center (Overlay.bounds ov1) /\
      Qt.width (Overlay.bounds ov3) =
        Qt.width (Overlay.bounds ov1)
        * (Spec.distance (Spec.box_point (Spec.opposite h) (Overlay.bounds ov1)) p
           / Spec.distance (Spec.box_point (Spec.opposite h) (Overlay.bounds ov1)) p0) /\
      Qt.height (Overlay.bounds ov3) =
        Qt.height (Overlay.bounds ov1)
        * (Spec.distance (Spec.box_point (Spec.opposite h) (Overlay.bounds ov1)) p
           / Spec.distance (Spec.box_point (Spec.opposite h) (Overlay.bounds ov1)) p0) /\
      (Spec.box_point (Spec.opposite h) (Overlay.bounds ov3) =
       Spec.box_point (Spec.opposite h) (Overlay.bounds ov1) <->
       Spec.distance (Spec.box_point (Spec.opposite h) (Overlay.bounds ov1)) p =
       Spec.distance (Spec.box_point (Spec.opposite h) (Overlay.bounds ov1)) p0).
Proof.
  intros fuel tab view_w view_h ov ov1 size h p0 p Hw Hh Hl Hbg Hox Hoy Hz Hu Hc Hd Hr.
  pose proof (view_side_pos view_w view_h Hw Hh) as Hs.
  unfold Tab._update_handle_bounds in Hu.
  rewrite (view_guard view_w view_h Hw Hh), Hl, Hbg in Hu.
  fold (Props.view_side view_w view_h) in Hu.
  set (pv := Props.view_side view_w view_h) in *.
  injection Hu as <-.
  cbn [Overlay.bounds Overlay.set_handles_visible Overlay.set_rotation
       Overlay.set_bounds] in Hd, Hr |- *.
  set (B := Qt.mkRect
              (IZR view_w / 2 - pv * Tab.zoom tab / 2
               - (Tab.offset_x tab - 1 / 2) * (pv * Tab.zoom tab - pv))
              (IZR view_h / 2 - pv * Tab.zoom tab / 2
               - (Tab.offset_y tab - 1 / 2) * (pv * Tab.zoom tab - pv))
              (pv * Tab.zoom tab) (pv * Tab.zoom tab)) in *.
  set (ov1 := Overlay.set_handles_visible
                (Overlay.set_rotation (Overlay.set_bounds ov B) (Tab.rotation tab)) true).
  set (ovd := Overlay.begin_drag ov1 h p0).
  set (d0 := Spec.distance (Spec.box_point (Spec.opposite h) B) p0) in *.
  set (d1 := Spec.distance (Spec.box_point (Spec.opposite h) B) p) in *.
  assert (Hemit : Overlay.mouseMoveEvent ovd p =
                  Some (ovd, [Overlay.scale_changed (d1 / d0) (d1 / d0)])).
  { rewrite move_event_corner by exact Hc.
    rewrite (corner_scale_emits ovd p h eq_refl Hc Hd). reflexivity. }
  eexists _, _.
  split; [exact (pointer_move_scale fuel ovd _ p _ _ Hemit) |].
  unfold Tab._update_handle_bounds.
  rewrite (view_guard view_w view_h Hw Hh).
  unfold Tab._on_handle_scale, Tab._on_transform_started.
  cbn [Tab.active_layer Tab.transform_start_zoom Tab.set_zoom Tab.background_image
       Tab.zoom Tab.offset_x Tab.offset_y Tab.rotation].
  rewrite Hl.
  cbn [Tab.active_layer Tab.transform_start_zoom Tab.set_zoom Tab.background_image
       Tab.zoom Tab.offset_x Tab.offset_y Tab.rotation].
  rewrite Hbg. fold (Props.view_side view_w view_h). fold pv.
  split; [reflexivity |].
  cbn [Overlay.bounds Overlay.set_handles_visible Overlay.set_rotation
       Overlay.set_bounds].
  unfold Spec.zoom_range in Hr. rewrite (clamp_id (1 / 10) 10 _ Hr).
  unfold B. rewrite Hox, Hoy.
  assert (Hs1 : d1 / d0 = 1 <-> d1 = d0).
  { split; intros E.
    - apply (f_equal (fun v => v * d0)) in E.
      replace (d1 / d0 * d0) with d1 in E by (field; lra). lra.
    - rewrite E. field. lra. }
  rewrite <- Hs1. clear Hs1.
  set (s := d1 / d0) in *. clearbody s.
  split; [unfold Qt.center; simpl; f_equal; field |].
  split; [simpl; ring |]. split; [simpl; ring |].
  assert (Hpz : 0 < pv * Tab.zoom tab) by nra.
  assert (HS : pv * (Tab.zoom tab * s) = pv * Tab.zoom tab * s) by ring.
  rewrite HS.
  set (S := pv * Tab.zoom tab) in *. clearbody S.
  destruct (is_corner_cases h Hc) as [-> | [-> | [-> | ->]]];
    unfold Spec.opposite, Spec.box_point, Qt.topLeft, Qt.topRight, Qt.bottomLeft,
      Qt.bottomRight; cbn [Qt.left Qt.top Qt.width Qt.height];
    (split; [intros E; injection E as Ex Ey; nra | intros ->; f_equal; lra]).
Qed.

(** The loaded background in an 800 x 800 viewport: the bottom-right
    corner grabbed at (800, 800) and dragged to (900, 900). *)
Lemma corner_drag_scales_about_centre_witness :
  exists ov1 tab2 ov3,
    Tab._update_handle_bounds Scenario.tab_loaded 800 800 Scenario.fresh_overlay
      = Some ov1 /\
    App.pointer_move 0
      (Overlay.begin_drag ov1 Overlay.HANDLE_BR (Qt.mkPoint 800 800),
       Tab._on_transform_started Scenario.tab_loaded) (Qt.mkPoint 900 900)
      = Some (Overlay.begin_drag ov1 Overlay.HANDLE_BR (Qt.mkPoint 800 800), tab2) /\
    Tab._update_handle_bounds tab2 800 800
      (Overlay.begin_drag ov1 Overlay.HANDLE_BR (Qt.mkPoint 800 800)) = Some ov3 /\
    Qt.center (Overlay.bounds ov3) = Qt.center (Overlay.bounds ov1).
Proof.
  eexists.
  assert (Hu : Tab._update_handle_bounds Scenario.tab_loaded 800 800 Scenario.fresh_overlay
               = Some (Overlay.set_handles_visible
                         (Overlay.set_rotation
                            (Overlay.set_bounds Scenario.fresh_overlay
                               (Qt.mkRect
                                  (IZR 800 / 2 - IZR 800 * 1 / 2
                                   - (1 / 2 - 1 / 2) * (IZR 800 * 1 - IZR 800))
                                  (IZR 800 / 2 - IZR 800 * 1 / 2
                                   - (1 / 2 - 1 / 2) * (IZR 800 * 1 - IZR 800))
                                  (IZR 800 * 1) (IZR 800 * 1))) 0) true))
    by reflexivity.
  assert (E0 : Spec.distance (Qt.mkPoint 0 0) (Qt.mkPoint 800 800) = 800 * sqrt 2).
  { unfold Spec.distance. simpl.
    replace ((800 - 0) * ((800 - 0) * 1) + (800 - 0) * ((800 - 0) * 1))
      with (800 ^ 2 + 800 ^ 2) by (simpl; lra).
    apply sqrt_double_square. lra. }
  assert (E1 : Spec.distance (Qt.mkPoint 0 0) (Qt.mkPoint 900 900) = 900 * sqrt 2).
  { unfold Spec.distance. simpl.
    replace ((900 - 0) * ((900 - 0) * 1) + (900 - 0) * ((900 - 0) * 1))
      with (900 ^ 2 + 900 ^ 2) by (simpl; lra).
    apply sqrt_double_square. lra. }
  assert (H2 : 0 < sqrt 2) by (apply sqrt_lt_R0; lra).
  assert (Hfix : Spec.box_point (Spec.opposite Overlay.HANDLE_BR)
                   (Qt.mkRect
                      (IZR 800 / 2 - IZR 800 * 1 / 2
                       - (1 / 2 - 1 / 2) * (IZR 800 * 1 - IZR 800))
                      (IZR 800 / 2 - IZR 800 * 1 / 2
                       - (1 / 2 - 1 / 2) * (IZR 800 * 1 - IZR 800))
                      (IZR 800 * 1) (IZR 800 * 1)) = Qt.mkPoint 0 0).
  { unfold Spec.opposite, Spec.box_point, Qt.topLeft. simpl. f_equal; lra. }
  destruct (corner_drag_scales_about_centre 0 Scenario.tab_loaded 800 800
              Scenario.fresh_overlay _ (1024, 1024)%Z Overlay.HANDLE_BR
              (Qt.mkPoint 800 800) (Qt.mkPoint 900 900)
              ltac:(lia) ltac:(lia) eq_refl eq_refl eq_refl eq_refl
              ltac:(simpl; lra) Hu)
    as (tab2 & ov3 & Hm & Hr & Hcen & _).
  - red; simpl; tauto.
  - cbn [Overlay.bounds Overlay.set_handles_visible Overlay.set_rotation
         Overlay.set_bounds]. rewrite Hfix, E0. nra.
  - cbn [Overlay.bounds Overlay.set_handles_visible Overlay.set_rotation
         Overlay.set_bounds]. rewrite Hfix, E0, E1.
    replace (900 * sqrt 2 / (800 * sqrt 2)) with (9 / 8) by (field; lra).
    unfold Spec.zoom_range. simpl. lra.
  - eexists tab2, ov3. split; [exact Hu |]. split; [exact Hm |].
    split; [exact Hr | exact Hcen].
Defined.
